(** * textConverter: the HTML encoding normaliser, the Markdown preprocessor
      and the command-line dispatch, embedded and verified.

    The development follows [converters.js] and [run.js]:

    - JavaScript strings are sequences of UTF-16 code units ([list Z]);
      file contents are sequences of bytes ([list Z], each in 0..255).
    - The regular expressions of the program are written as data ([regex])
      and run by a backtracking matcher with the priorities of the
      ECMAScript matcher (greedy and lazy quantifiers, [^] and [$] under
      the [m] flag, case folding under the [i] flag, one capture group).
    - The [encoding-japanese] library ([Encoding.detect],
      [Encoding.convert]) is not part of the repository: it is a pair of
      section variables, so every theorem holds for every classifier and
      every transcoder.
    - The file system and the console are an explicit [World] that the
      asynchronous functions thread through.
    - The three converters and the script run on a [Machine]: the [World]
      and the trace of the console lines and browser calls. [marked],
      [mammoth], [puppeteer], [path.resolve] and [path.parse] are section
      variables like the encoding library; a rejection inside one of them
      is an outcome of the model. *)

From Stdlib Require Import ZArith Lia Bool Ascii String.
From stdpp Require Import base tactics option list strings gmap.

Local Open Scope Z_scope.

(** ** Characters and strings *)

(** A JavaScript string: its code units. *)
Abbreviation jsstring := (list Z) (only parsing).

(** The content of a file, or of a [Buffer] / [Uint8Array]: its bytes. *)
Abbreviation bytes := (list Z) (only parsing).

Definition code_of_ascii (a : ascii) : Z := Z.of_N (N_of_ascii a).

(** The code of a one-character literal, [chr ">"] for instance. *)
Definition chr (s : string) : Z :=
  match s with
  | String a _ => code_of_ascii a
  | EmptyString => 0
  end.

(** The code units of an ASCII literal. *)
Fixpoint lit (s : string) : jsstring :=
  match s with
  | EmptyString => []
  | String a s' => code_of_ascii a :: lit s'
  end.

(** The double quote, which a literal of this file cannot hold. *)
Definition dquote : Z := 34.
Definition squote : Z := 39.

Definition is_ascii (x : Z) : bool := (0 <=? x) && (x <? 128).

(** [Canonicalize] of the ECMAScript matcher under the [i] flag (without
    [u]): the character is upper-cased. Every pattern character of this
    program is ASCII, and the matcher never folds a character above 127
    onto an ASCII one, so only the ASCII letters are folded here. *)
Definition canon (ic : bool) (x : Z) : Z :=
  if ic && (97 <=? x) && (x <=? 122) then x - 32 else x.

(** [\s]: the white space and line terminator code units. *)
Definition is_space (x : Z) : bool :=
  ((9 <=? x) && (x <=? 13)) || (x =? 32) || (x =? 160) || (x =? 5760)
  || ((8192 <=? x) && (x <=? 8202)) || (x =? 8232) || (x =? 8233)
  || (x =? 8239) || (x =? 8287) || (x =? 12288) || (x =? 65279).

(** The line terminators that [^] and [$] look at under the [m] flag. *)
Definition is_line_terminator (x : Z) : bool :=
  (x =? 10) || (x =? 13) || (x =? 8232) || (x =? 8233).

(** ** Regular expressions *)

(** A set of characters: a pattern character, a class or a class escape. *)
Inductive cset :=
  | CChar (c : Z)          (* a pattern character *)
  | COneOf (l : list Z)    (* [abc] *)
  | CNot (l : list Z)      (* [^abc] *)
  | CSpace                 (* \s *)
  | CAny.                  (* [\s\S] *)

Definition cs_mem (ic : bool) (cs : cset) (x : Z) : bool :=
  match cs with
  | CChar c => canon ic x =? canon ic c
  | COneOf l => existsb (fun c => canon ic x =? canon ic c) l
  | CNot l => negb (existsb (fun c => canon ic x =? canon ic c) l)
  | CSpace => is_space x
  | CAny => true
  end.

(** The terms of a pattern. Every quantifier of the program applies to a
    set of characters; [Mark] stands for a parenthesis of the capture
    group and records the position it is crossed at. *)
Inductive item :=
  | One (cs : cset)
  | Rep (cs : cset) (lo : nat) (hi : option nat) (greedy : bool)
  | Bol
  | Eol
  | Mark.

Record regex := Regex {
  re_items : list item;
  re_g : bool;   (* flag g *)
  re_i : bool;   (* flag i *)
  re_m : bool;   (* flag m *)
}.

(** A pattern is written as in the source: literals, then quantified sets. *)
Definition str (s : string) : list item := map (fun c => One (CChar c)) (lit s).
Definition star (cs : cset) : item := Rep cs 0 None true.
Definition star_lazy (cs : cset) : item := Rep cs 0 None false.
Definition plus (cs : cset) : item := Rep cs 1 None true.
Definition opt (cs : cset) : item := Rep cs 0 (Some 1%nat) true.

(** The result of a match attempt: the end position and the marks crossed. *)
Definition mres := option (nat * list nat).

(** What follows a term: the matcher of the rest of the pattern, from the
    previous character, the rest of the input and the position. *)
Definition cont := option Z -> jsstring -> nat -> mres.

Definition can_take (hi : option nat) : bool :=
  match hi with
  | Some O => false
  | _ => true
  end.

Definition dec (hi : option nat) : option nat := option_map Nat.pred hi.

Definition or_else (a b : mres) : mres :=
  match a with
  | Some r => Some r
  | None => b
  end.

Section Matcher.
Variables (ic ml : bool).

(** A greedy quantifier: one more character first, the rest of the
    pattern when that fails and the lower bound is met. *)
Fixpoint rep_greedy (k : cont) (cs : cset) (lo : nat) (hi : option nat)
    (prev : option Z) (s : jsstring) (pos : nat) {struct s} : mres :=
  let stop := if Nat.eqb lo 0 then k prev s pos else None in
  match s with
  | x :: s' =>
      if cs_mem ic cs x && can_take hi
      then or_else (rep_greedy k cs (Nat.pred lo) (dec hi) (Some x) s' (S pos)) stop
      else stop
  | [] => stop
  end.

(** A lazy quantifier: the rest of the pattern first. *)
Fixpoint rep_lazy (k : cont) (cs : cset) (lo : nat) (hi : option nat)
    (prev : option Z) (s : jsstring) (pos : nat) {struct s} : mres :=
  let more :=
    match s with
    | x :: s' =>
        if cs_mem ic cs x && can_take hi
        then rep_lazy k cs (Nat.pred lo) (dec hi) (Some x) s' (S pos)
        else None
    | [] => None
    end in
  if Nat.eqb lo 0 then or_else (k prev s pos) more else more.

Definition at_bol (prev : option Z) : bool :=
  match prev with
  | None => true
  | Some c => ml && is_line_terminator c
  end.

Definition at_eol (s : jsstring) : bool :=
  match s with
  | [] => true
  | c :: _ => ml && is_line_terminator c
  end.

Definition m_one (k : cont) (cs : cset) : cont :=
  fun _ s pos =>
    match s with
    | x :: s' => if cs_mem ic cs x then k (Some x) s' (S pos) else None
    | [] => None
    end.

Definition m_mark (k : cont) : cont :=
  fun prev s pos =>
    match k prev s pos with
    | Some (e, ms) => Some (e, pos :: ms)
    | None => None
    end.

(** The matcher of a pattern at one position. *)
Fixpoint m_items (its : list item) : cont :=
  match its with
  | [] => fun _ _ pos => Some (pos, [])
  | it :: its' =>
      let k := m_items its' in
      match it with
      | One cs => m_one k cs
      | Rep cs lo hi true => rep_greedy k cs lo hi
      | Rep cs lo hi false => rep_lazy k cs lo hi
      | Bol => fun prev s pos => if at_bol prev then k prev s pos else None
      | Eol => fun prev s pos => if at_eol s then k prev s pos else None
      | Mark => m_mark k
      end
  end.

(** The first position, from [pos] on, at which the pattern matches:
    start, end and marks. *)
Fixpoint search (its : list item) (prev : option Z) (s : jsstring) (pos : nat)
    {struct s} : option (nat * nat * list nat) :=
  match m_items its prev s pos with
  | Some (e, ms) => Some (pos, e, ms)
  | None =>
      match s with
      | x :: s' => search its (Some x) s' (S pos)
      | [] => None
      end
  end.
End Matcher.

(** [RegExp.prototype.exec] from index 0. *)
Definition exec (re : regex) (s : jsstring) : option (nat * nat * list nat) :=
  search (re_i re) (re_m re) (re_items re) None s 0.

(** [RegExp.prototype.test]. *)
Definition test (re : regex) (s : jsstring) : bool :=
  match exec re s with
  | Some _ => true
  | None => false
  end.

(** ** [String.prototype.replace] *)

(** A replacement: a string, where [$1] may stand between literal parts,
    or a function of the matched text. *)
Inductive rpart :=
  | PLit (l : jsstring)
  | PGroup1.

Inductive replacement :=
  | RString (parts : list rpart)
  | RFun (f : jsstring -> jsstring).

Definition substring (s : jsstring) (i e : nat) : jsstring := take (e - i) (drop i s).

(** The text of the capture group, empty when the group did not take part. *)
Definition group1 (s : jsstring) (ms : list nat) : jsstring :=
  match ms with
  | [a; b] => substring s a b
  | _ => []
  end.

Definition expand_part (s : jsstring) (ms : list nat) (p : rpart) : jsstring :=
  match p with
  | PLit l => l
  | PGroup1 => group1 s ms
  end.

(** The text put in place of the match of [s] between [i] and [e]. *)
Definition expand (r : replacement) (s : jsstring) (i e : nat) (ms : list nat) : jsstring :=
  match r with
  | RString parts => concat (map (expand_part s ms) parts)
  | RFun f => f (substring s i e)
  end.

(** Without the [g] flag the first match alone is replaced. *)
Definition replace_first (re : regex) (r : replacement) (s : jsstring) : jsstring :=
  match exec re s with
  | Some (i, e, ms) => take i s ++ expand r s i e ms ++ drop e s
  | None => s
  end.

(** With the [g] flag every match is replaced, from left to right, each
    search starting where the previous match ended (one character further
    after an empty match). [whole] is the string being replaced, [s] what
    is left of it at [pos], and [skip] counts the characters of [s] that
    still belong to the match just replaced. *)
Fixpoint replace_from (re : regex) (r : replacement) (whole : jsstring)
    (prev : option Z) (s : jsstring) (pos skip : nat) {struct s} : jsstring :=
  match skip with
  | S skip' =>
      match s with
      | x :: s' => replace_from re r whole (Some x) s' (S pos) skip'
      | [] => []
      end
  | O =>
      match m_items (re_i re) (re_m re) (re_items re) prev s pos with
      | Some (e, ms) =>
          expand r whole pos e ms ++
          match s with
          | x :: s' =>
              if Nat.eqb e pos
              then x :: replace_from re r whole (Some x) s' (S pos) 0
              else replace_from re r whole (Some x) s' (S pos) (e - pos - 1)
          | [] => []
          end
      | None =>
          match s with
          | x :: s' => x :: replace_from re r whole (Some x) s' (S pos) 0
          | [] => []
          end
      end
  end.

Definition replace_all (re : regex) (r : replacement) (s : jsstring) : jsstring :=
  replace_from re r s None s 0 0.

Definition replace (re : regex) (r : replacement) (s : jsstring) : jsstring :=
  if re_g re then replace_all re r s else replace_first re r s.

(** [String.prototype.includes], also used for [Buffer.prototype.includes]. *)
Fixpoint starts_with (needle s : list Z) : bool :=
  match needle, s with
  | [], _ => true
  | c :: needle', x :: s' => (x =? c) && starts_with needle' s'
  | _ :: _, [] => false
  end.

Fixpoint includes (needle s : list Z) : bool :=
  starts_with needle s ||
  match s with
  | _ :: s' => includes needle s'
  | [] => false
  end.

(** ** Node's UTF-8 codec *)

Definition in_range (lo hi b : Z) : bool := (lo <=? b) && (b <=? hi).

Definition replacement_char : Z := 0xFFFD.

(** [buffer.toString("utf8")]: every ill-formed sequence decodes to U+FFFD
    and decoding resumes at the byte that broke it; a code point above
    U+FFFF becomes a surrogate pair. *)
Fixpoint utf8_decode (bs : bytes) : jsstring :=
  match bs with
  | [] => []
  | b1 :: r1 =>
      if in_range 0 0x7F b1 then b1 :: utf8_decode r1
      else if in_range 0xC2 0xDF b1 then
        match r1 with
        | b2 :: r2 =>
            if in_range 0x80 0xBF b2
            then ((b1 - 0xC0) * 64 + (b2 - 0x80)) :: utf8_decode r2
            else replacement_char :: utf8_decode r1
        | [] => [replacement_char]
        end
      else if in_range 0xE0 0xEF b1 then
        match r1 with
        | b2 :: r2 =>
            if in_range (if b1 =? 0xE0 then 0xA0 else 0x80)
                        (if b1 =? 0xED then 0x9F else 0xBF) b2
            then
              match r2 with
              | b3 :: r3 =>
                  if in_range 0x80 0xBF b3
                  then ((b1 - 0xE0) * 4096 + (b2 - 0x80) * 64 + (b3 - 0x80))
                       :: utf8_decode r3
                  else replacement_char :: utf8_decode r2
              | [] => [replacement_char]
              end
            else replacement_char :: utf8_decode r1
        | [] => [replacement_char]
        end
      else if in_range 0xF0 0xF4 b1 then
        match r1 with
        | b2 :: r2 =>
            if in_range (if b1 =? 0xF0 then 0x90 else 0x80)
                        (if b1 =? 0xF4 then 0x8F else 0xBF) b2
            then
              match r2 with
              | b3 :: r3 =>
                  if in_range 0x80 0xBF b3
                  then
                    match r3 with
                    | b4 :: r4 =>
                        if in_range 0x80 0xBF b4
                        then
                          let cp := (b1 - 0xF0) * 262144 + (b2 - 0x80) * 4096
                                    + (b3 - 0x80) * 64 + (b4 - 0x80) in
                          (0xD800 + (cp - 0x10000) / 1024)
                          :: (0xDC00 + (cp - 0x10000) mod 1024)
                          :: utf8_decode r4
                        else replacement_char :: utf8_decode r3
                    | [] => [replacement_char]
                    end
                  else replacement_char :: utf8_decode r2
              | [] => [replacement_char]
              end
            else replacement_char :: utf8_decode r1
        | [] => [replacement_char]
        end
      else replacement_char :: utf8_decode r1
  end.

Definition replacement_bytes : bytes := [0xEF; 0xBF; 0xBD].

(** [fs.writeFile(path, content, "utf8")] stores the UTF-8 encoding of the
    string; a surrogate without its partner is stored as U+FFFD. *)
Fixpoint utf8_encode (s : jsstring) : bytes :=
  match s with
  | [] => []
  | u :: rest =>
      if in_range 0 0x7F u then u :: utf8_encode rest
      else if in_range 0x80 0x7FF u then
        (0xC0 + u / 64) :: (0x80 + u mod 64) :: utf8_encode rest
      else if in_range 0xD800 0xDBFF u then
        match rest with
        | v :: rest' =>
            if in_range 0xDC00 0xDFFF v
            then
              let cp := 0x10000 + (u - 0xD800) * 1024 + (v - 0xDC00) in
              (0xF0 + cp / 262144) :: (0x80 + (cp / 4096) mod 64)
              :: (0x80 + (cp / 64) mod 64) :: (0x80 + cp mod 64)
              :: utf8_encode rest'
            else replacement_bytes ++ utf8_encode rest
        | [] => replacement_bytes
        end
      else if in_range 0x800 0xFFFF u && negb (in_range 0xDC00 0xDFFF u) then
        (0xE0 + u / 4096) :: (0x80 + (u / 64) mod 64) :: (0x80 + u mod 64)
        :: utf8_encode rest
      else replacement_bytes ++ utf8_encode rest
  end.

(** ** The patterns of [converters.js] *)

Definition not_gt : cset := CNot [chr ">"].
Definition quote : cset := COneOf [dquote; squote].

(** [/<meta[^>]*charset[^>]*>/i] *)
Definition re_meta : regex :=
  Regex (str "<meta" ++ [star not_gt] ++ str "charset" ++ [star not_gt] ++ str ">")
        false true false.

(** [/<meta[^>]*charset=[QUOTE]?utf-8[QUOTE]?/i], where the class [QUOTE]
    holds the double and the single quote. *)
Definition re_meta_utf8 : regex :=
  Regex (str "<meta" ++ [star not_gt] ++ str "charset=" ++ [opt quote]
         ++ str "utf-8" ++ [opt quote])
        false true false.

(** [/<head[^>]*>/i] *)
Definition re_head : regex :=
  Regex (str "<head" ++ [star not_gt] ++ str ">") false true false.

(** [/<\/body>/i] and [/<\/html>/i] *)
Definition re_body_close : regex := Regex (str "</body>") false true false.
Definition re_html_close : regex := Regex (str "</html>") false true false.

(** [/^---[\s\S]*?---\s*/m] *)
Definition re_front_matter : regex :=
  Regex ([Bol] ++ str "---" ++ [star_lazy CAny] ++ str "---" ++ [star CSpace])
        false false true.

(** [/^\s*marp:\s*true\s*$/gmi] *)
Definition re_marp : regex :=
  Regex ([Bol; star CSpace] ++ str "marp:" ++ [star CSpace] ++ str "true"
         ++ [star CSpace; Eol])
        true true true.

(** [/^(#{1,6})\s+#+\s+/gm] *)
Definition re_heading : regex :=
  Regex [Bol; Mark; Rep (CChar (chr "#")) 1 (Some 6%nat) true; Mark;
         plus CSpace; plus (CChar (chr "#")); plus CSpace]
        true false true.

(** [/^\s+/] *)
Definition re_leading_space : regex :=
  Regex [Bol; plus CSpace] false false false.

(** ** [preprocessMarkdown] *)

Definition preprocessMarkdown (md : jsstring) : jsstring :=
  let out := md in
  let out := replace re_front_matter (RString []) out in
  let out := replace re_marp (RString []) out in
  let out := replace re_heading (RString [PGroup1; PLit (lit " ")]) out in
  let out := replace re_leading_space (RString []) out in
  out.

(** ** [fixHtmlEncodingIfNeeded] *)

Definition nl : Z := 10.

(** The canonical declaration, [<meta charset=QUOTE UTF-8 QUOTE>] with
    double quotes. *)
Definition meta_utf8_tag : jsstring :=
  lit "<meta charset=" ++ [dquote] ++ lit "UTF-8" ++ [dquote] ++ lit ">".

(** A label of [encoding-japanese] or the [forceEnc] argument: a string,
    or [None] for [false] and [undefined]. *)
Definition label := option string.

(** JavaScript truthiness of a label: [false], [undefined] and the empty
    string are falsy. *)
Definition truthy (l : label) : bool :=
  match l with
  | Some s => negb (String.eqb s "")
  | None => false
  end.

(** [a || b] *)
Definition js_or (a b : label) : label := if truthy a then a else b.

Definition upper_ascii (a : ascii) : ascii :=
  let n := N_of_ascii a in
  if ((97 <=? n) && (n <=? 122))%N then ascii_of_N (n - 32) else a.

(** [toUpperCase] on a label (labels are ASCII). *)
Fixpoint toUpperCase (s : string) : string :=
  match s with
  | EmptyString => EmptyString
  | String a s' => String (upper_ascii a) (toUpperCase s')
  end.

(** The test of step 3: [enc && enc.toUpperCase() !== "UTF8"]. *)
Definition not_utf8 (enc : label) : bool :=
  match enc with
  | Some l => truthy enc && negb (String.eqb (toUpperCase l) "UTF8")
  | None => false
  end.

(** [buffer.toString("binary")]: one code unit per byte. *)
Definition binary_string (bs : bytes) : jsstring := bs.

Definition ESC : Z := 0x1b.

(** The JIS escape test of step 2. *)
Definition hasEsc (bs : bytes) : bool :=
  let bin := binary_string bs in
  includes [ESC] bs && (includes (lit "$B") bin || includes (lit "(B") bin).

(** What the function computes from the bytes read: the flag, the label
    and the text (the text is what a modified file is rewritten with). *)
Record normalized := Normalized {
  needFix : bool;
  enc : label;
  content : jsstring;
}.

(** The object the function resolves to. *)
Record FixResult := { res_needFix : bool; res_enc : label }.

(** The two log lines. *)
Inductive diag :=
  | DiagFixed (path : string) (enc : label)
  | DiagSkipped (path : string) (enc : label).

(** What an invocation does to the outside. *)
Inductive event :=
  | EvWrite (path : string) (data : bytes)
  | EvLog (d : diag).

(** The files by path and the effects so far, latest first. *)
Record World := { files : gmap string bytes; events : list event }.

Inductive error := ENOENT (path : string).

Inductive outcome (A : Type) :=
  | Resolved (a : A)
  | Rejected (e : error).
Arguments Resolved {A} a.
Arguments Rejected {A} e.

(** [fs.writeFile] and [console.log]. *)
Definition writeFile (path : string) (data : bytes) (w : World) : World :=
  {| files := <[path := data]> (files w); events := EvWrite path data :: events w |}.

Definition log (d : diag) (w : World) : World :=
  {| files := files w; events := EvLog d :: events w |}.

Section Normalizer.
(** [Encoding.detect(bytes)]: a label, or [false]. *)
Variable detect : bytes -> label.
(** [Encoding.convert(bytes, {to: "UNICODE", from: enc, type: "string"})]. *)
Variable convert : bytes -> string -> jsstring.

(** Steps 1 and 2: the label the function works with. *)
Definition classify (forceEnc : label) (bs : bytes) : label :=
  let enc := js_or forceEnc (detect bs) in
  if negb (truthy forceEnc) && hasEsc bs then Some "ISO-2022-JP"%string else enc.

(** Step 3: the text, and whether it was transcoded. *)
Definition transcode (enc : label) (bs : bytes) : jsstring * bool :=
  match enc with
  | Some l =>
      if not_utf8 enc then (convert bs l, true) else (utf8_decode bs, false)
  | None => (utf8_decode bs, false)
  end.

(** Step 4: one UTF-8 charset declaration. *)
Definition repair_meta (st : jsstring * bool) : jsstring * bool :=
  let '(content, needFix) := st in
  let hasMeta := test re_meta content in
  let isUtf8Meta := test re_meta_utf8 content in
  if negb hasMeta || negb isUtf8Meta then
    if hasMeta then
      (replace re_meta (RString [PLit meta_utf8_tag]) content, true)
    else if test re_head content then
      (replace re_head (RFun (fun m => m ++ [nl] ++ lit "  " ++ meta_utf8_tag)) content,
       true)
    else
      (lit "<head>" ++ meta_utf8_tag ++ lit "</head>" ++ [nl] ++ content, true)
  else (content, needFix).

(** Step 5: the closing tags. *)
Definition close_body (st : jsstring * bool) : jsstring * bool :=
  let '(content, needFix) := st in
  if negb (test re_body_close content)
  then (content ++ [nl] ++ lit "</body>", true)
  else (content, needFix).

Definition close_html (st : jsstring * bool) : jsstring * bool :=
  let '(content, needFix) := st in
  if negb (test re_html_close content)
  then (content ++ [nl] ++ lit "</html>", true)
  else (content, needFix).

(** Steps 4 and 5 on a text. *)
Definition repair (st : jsstring * bool) : jsstring * bool :=
  close_html (close_body (repair_meta st)).

(** Steps 1 to 5 on the bytes read from the file. *)
Definition normalize (forceEnc : label) (bs : bytes) : normalized :=
  let enc := classify forceEnc bs in
  let '(content, needFix) := repair (transcode enc bs) in
  Normalized needFix enc content.

(** The whole function: read, normalise, write back when modified, log,
    return [{ needFix, enc: enc || null }]. A missing file rejects the
    promise before anything else happens. *)
Definition fixHtmlEncodingIfNeeded (w : World) (filePath : string) (forceEnc : label)
    : outcome FixResult * World :=
  match files w !! filePath with
  | None => (Rejected (ENOENT filePath), w)
  | Some buffer =>
      let n := normalize forceEnc buffer in
      let w' :=
        if needFix n
        then log (DiagFixed filePath (enc n))
                 (writeFile filePath (utf8_encode (content n)) w)
        else log (DiagSkipped filePath (enc n)) w in
      (Resolved {| res_needFix := needFix n; res_enc := js_or (enc n) None |}, w')
  end.
End Normalizer.

(** ** [run.js] *)

(** [toLowerCase]: the ASCII letters, and the two characters above 127
    whose lower case holds an ASCII letter (the Kelvin sign, and the
    dotted capital I, which becomes [i] and a combining dot). Every other
    character above 127 lower-cases to characters above 127, which none of
    the extensions compared below holds; they are left as they are. *)
Fixpoint toLowerCase (s : jsstring) : jsstring :=
  match s with
  | [] => []
  | x :: s' =>
      (if (65 <=? x) && (x <=? 90) then [x + 32]
       else if x =? 0x212A then [107]
       else if x =? 0x130 then [105; 0x307]
       else [x]) ++ toLowerCase s'
  end.

(** The two fields of [path.parse] that the script reads. *)
Record parsed := Parsed { p_name : jsstring; p_ext : jsstring }.

Inductive converter := MdToHtml | WordToHtml | HtmlToPdf.

(** What the script does with its argument: print the usage and exit, call
    one converter on the base name (and [dataDir] twice), or refuse the
    extension and exit. *)
Inductive action :=
  | Usage (code : Z)
  | Convert (c : converter) (baseName : jsstring)
  | Unsupported (code : Z).

Definition jsstring_eqb (a b : jsstring) : bool := bool_decide (a = b).

Section Run.
(** [path.parse] of Node. *)
Variable parse : jsstring -> parsed.

(** The extension the script compares: [(parsed.ext || "").toLowerCase()]. *)
Definition ext_of (argFileName : jsstring) : jsstring :=
  toLowerCase (p_ext (parse argFileName)).

(** [main], on the extension and base name computed at the top level. *)
Definition main (baseName ext : jsstring) : action :=
  if jsstring_eqb ext (lit ".md") then Convert MdToHtml baseName
  else if jsstring_eqb ext (lit ".docx") then Convert WordToHtml baseName
  else if jsstring_eqb ext (lit ".html") || jsstring_eqb ext (lit ".htm")
  then Convert HtmlToPdf baseName
  else Unsupported 1.

(** The script on [process.argv[2]] ([None] when absent). *)
Definition run (arg : option jsstring) : action :=
  match arg with
  | None | Some [] => Usage 1
  | Some argFileName =>
      main (p_name (parse argFileName)) (ext_of argFileName)
  end.
End Run.

(** ** The page template of [mdToHtml] and [wordToHtml] *)

(** A line of the template literal: the indentation, the text, a line
    feed. *)
Definition tpl_line (n : nat) (s : jsstring) : jsstring := repeat 32 n ++ s ++ [nl].

(** A double-quoted word of the template. *)
Definition quoted (s : string) : jsstring := [dquote] ++ lit s ++ [dquote].

(** From the back quote to the [<style>] line. *)
Definition page_head (baseName : jsstring) : jsstring :=
  [nl]
  ++ tpl_line 4 (lit "<!DOCTYPE html>")
  ++ tpl_line 4 (lit "<html lang=" ++ quoted "ja" ++ lit ">")
  ++ tpl_line 4 (lit "<head>")
  ++ tpl_line 6 (lit "<meta charset=" ++ quoted "UTF-8" ++ lit " />")
  ++ tpl_line 6 (lit "<title>" ++ baseName ++ lit "</title>")
  ++ tpl_line 6 (lit "<meta name=" ++ quoted "viewport" ++ lit " content="
                 ++ quoted "width=device-width, initial-scale=1" ++ lit " />")
  ++ tpl_line 6 (lit "<style>").

(** The rules both templates open with. *)
Definition style_text : jsstring :=
  tpl_line 8 (lit "body {")
  ++ tpl_line 10 (lit "font-family: -apple-system, BlinkMacSystemFont, "
                  ++ quoted "Helvetica Neue" ++ lit ",")
  ++ tpl_line 23 (quoted "Segoe UI" ++ lit ", sans-serif;")
  ++ tpl_line 10 (lit "font-size: 16px;")
  ++ tpl_line 10 (lit "line-height: 1.6;")
  ++ tpl_line 10 (lit "margin: 40px;")
  ++ tpl_line 10 (lit "max-width: 900px;")
  ++ tpl_line 8 (lit "}")
  ++ tpl_line 8 (lit "h1, h2, h3, h4, h5 {")
  ++ tpl_line 10 (lit "font-weight: 600;")
  ++ tpl_line 8 (lit "}")
  ++ tpl_line 8 (lit "p {")
  ++ tpl_line 10 (lit "margin: 0 0 0.7em;")
  ++ tpl_line 8 (lit "}").

(** The rules for code, which only [mdToHtml] has. *)
Definition style_code : jsstring :=
  tpl_line 8 (lit "pre {")
  ++ tpl_line 10 (lit "background: #f5f5f5;")
  ++ tpl_line 10 (lit "padding: 8px 12px;")
  ++ tpl_line 10 (lit "border-radius: 4px;")
  ++ tpl_line 10 (lit "overflow-x: auto;")
  ++ tpl_line 10 (lit "font-size: 0.9em;")
  ++ tpl_line 8 (lit "}")
  ++ tpl_line 8 (lit "code {")
  ++ tpl_line 10 (lit "font-family: Menlo, Monaco, Consolas, "
                  ++ quoted "Courier New" ++ lit ", monospace;")
  ++ tpl_line 8 (lit "}").

(** The rules both templates end with. *)
Definition style_table : jsstring :=
  tpl_line 8 (lit "table {")
  ++ tpl_line 10 (lit "border-collapse: collapse;")
  ++ tpl_line 10 (lit "width: 100%;")
  ++ tpl_line 10 (lit "margin: 12px 0;")
  ++ tpl_line 8 (lit "}")
  ++ tpl_line 8 (lit "table, th, td {")
  ++ tpl_line 10 (lit "border: 1px solid #ccc;")
  ++ tpl_line 8 (lit "}")
  ++ tpl_line 8 (lit "th, td {")
  ++ tpl_line 10 (lit "padding: 6px 8px;")
  ++ tpl_line 8 (lit "}").

(** From [</style>] to the closing back quote. *)
Definition page_foot (bodyHtml : jsstring) : jsstring :=
  tpl_line 6 (lit "</style>")
  ++ tpl_line 4 (lit "</head>")
  ++ tpl_line 4 (lit "<body>")
  ++ tpl_line 6 bodyHtml
  ++ tpl_line 4 (lit "</body>")
  ++ tpl_line 4 (lit "</html>")
  ++ lit "  ".

(** [fullHtml] of [mdToHtml]. *)
Definition md_page (baseName bodyHtml : jsstring) : jsstring :=
  page_head baseName ++ style_text ++ style_code ++ style_table ++ page_foot bodyHtml.

(** [fullHtml] of [wordToHtml]. *)
Definition word_page (baseName bodyHtml : jsstring) : jsstring :=
  page_head baseName ++ style_text ++ style_table ++ page_foot bodyHtml.

(** ** The three converters *)

(** What a converter can fail with: a file that is missing, or a
    rejection inside one of the two libraries that do the conversion. *)
Inductive library := Mammoth | PuppeteerLib.

Inductive exn :=
  | FsError (e : error)
  | LibraryError (l : library).

Inductive completion (A : Type) :=
  | Returned (a : A)
  | Threw (x : exn).
Arguments Returned {A} a.
Arguments Threw {A} x.

(** What is seen from outside besides the files: the lines of
    [console.warn], [console.log] and [console.error], and the calls made
    on the browser. *)
Inductive effect :=
  | WarnHeader (baseName : jsstring)
  | WarnMessage (type message : jsstring)
  | Launched
  | PageOpened
  | ContentSet (html : jsstring)
  | Printed (path : string)
  | Closed
  | SayUsage
  | SayInput (argFileName : jsstring)
  | SayBaseName (baseName : jsstring)
  | SayExt (ext : jsstring)
  | SayDataDir (dataDir : jsstring)
  | SayBanner (c : converter) (baseName : jsstring)
  | SayDone (c : converter)
  | SayUnsupported
  | SayCaught (err : exn).

(** The files (with the log of [fixHtmlEncodingIfNeeded]) and the other
    effects so far, latest first. *)
Record Machine := { world : World; trace : list effect }.

Definition on_world (f : World -> World) (m : Machine) : Machine :=
  {| world := f (world m); trace := trace m |}.

Definition emit (e : effect) (m : Machine) : Machine :=
  {| world := world m; trace := e :: trace m |}.

(** An option of [mammoth]: a list of strings, a flag or a string. *)
Inductive optval :=
  | Strings (l : list string)
  | Flag (b : bool)
  | Str (s : string).

(** A message of [mammoth], and what [convertToHtml] resolves to
    ([messages] may be missing). *)
Record mammoth_message := { m_type : jsstring; m_message : jsstring }.

Record mammoth_result := {
  value : jsstring;
  messages : option (list mammoth_message);
}.

(** The style map [wordToHtml] starts from. *)
Definition default_options : gmap string optval :=
  {[ "styleMap"%string :=
       Strings [ "p[style-name='Heading 1'] => h1:fresh"%string;
                 "p[style-name='Heading 2'] => h2:fresh"%string ] ]}.

(** What the browser does when asked: whether [launch], [newPage],
    [setContent] and [close] resolve, and the PDF that [page.pdf] makes
    of a page ([None] when it rejects). *)
Record Puppeteer := {
  launch : bool;
  newPage : bool;
  setContent : jsstring -> bool;
  pdf : jsstring -> option bytes;
  close : bool;
}.

Section Converters.
Variable detect : bytes -> label.
Variable convert : bytes -> string -> jsstring.
(** [path.resolve(dir, name)]. *)
Variable resolve : jsstring -> jsstring -> string.
(** [marked(md)]. *)
Variable marked : jsstring -> jsstring.
(** [mammoth.convertToHtml] on the bytes of the document ([None] when it
    rejects them). *)
Variable convertToHtml : bytes -> gmap string optval -> option mammoth_result.
Variable puppeteer : Puppeteer.

Definition mdToHtml (m : Machine) (baseName inputDir outputDir : jsstring)
    : completion jsstring * Machine :=
  let inputPath := resolve inputDir (baseName ++ lit ".md") in
  let outputPath := resolve outputDir (baseName ++ lit ".html") in
  match files (world m) !! inputPath with
  | None => (Threw (FsError (ENOENT inputPath)), m)
  | Some buffer =>
      let md := utf8_decode buffer in
      let md := preprocessMarkdown md in
      let bodyHtml := marked md in
      let fullHtml := md_page baseName bodyHtml in
      (Returned fullHtml, on_world (writeFile outputPath (utf8_encode fullHtml)) m)
  end.

(** The [try] block of [htmlToPdf]. *)
Definition print_page (html : jsstring) (outputPath : string) (m : Machine)
    : completion unit * Machine :=
  if negb (newPage puppeteer) then (Threw (LibraryError PuppeteerLib), m)
  else
    let m := emit PageOpened m in
    if negb (setContent puppeteer html) then (Threw (LibraryError PuppeteerLib), m)
    else
      let m := emit (ContentSet html) m in
      match pdf puppeteer html with
      | None => (Threw (LibraryError PuppeteerLib), m)
      | Some data =>
          (Returned tt, emit (Printed outputPath) (on_world (writeFile outputPath data) m))
      end.

Definition htmlToPdf (m : Machine) (baseName inputDir outputDir : jsstring)
    : completion unit * Machine :=
  let inputPath := resolve inputDir (baseName ++ lit ".html") in
  let outputPath := resolve outputDir (baseName ++ lit ".pdf") in
  match fixHtmlEncodingIfNeeded detect convert (world m) inputPath None with
  | (Rejected e, w) => (Threw (FsError e), on_world (fun _ => w) m)
  | (Resolved _, w) =>
      let m := on_world (fun _ => w) m in
      match files (world m) !! inputPath with
      | None => (Threw (FsError (ENOENT inputPath)), m)
      | Some buffer =>
          let html := utf8_decode buffer in
          if negb (launch puppeteer) then (Threw (LibraryError PuppeteerLib), m)
          else
            let m := emit Launched m in
            let '(r, m) := print_page html outputPath m in
            (* finally *)
            let m := emit Closed m in
            if close puppeteer then (r, m) else (Threw (LibraryError PuppeteerLib), m)
      end
  end.

(** The warnings of [wordToHtml]: a header and one line a message, when
    there is a message. *)
Definition warn_messages (baseName : jsstring) (msgs : list mammoth_message)
    (m : Machine) : Machine :=
  if (0 <? length msgs)%nat
  then foldl (fun m msg => emit (WarnMessage (m_type msg) (m_message msg)) m)
             (emit (WarnHeader baseName) m) msgs
  else m.

Definition wordToHtml (m : Machine) (baseName inputDir outputDir : jsstring)
    (options : gmap string optval) : completion jsstring * Machine :=
  let inputPath := resolve inputDir (baseName ++ lit ".docx") in
  let outputPath := resolve outputDir (baseName ++ lit ".html") in
  let mammothOptions := options ∪ default_options in
  match files (world m) !! inputPath with
  | None => (Threw (FsError (ENOENT inputPath)), m)
  | Some docx =>
      match convertToHtml docx mammothOptions with
      | None => (Threw (LibraryError Mammoth), m)
      | Some result =>
          let bodyHtml := value result in
          let msgs := default [] (messages result) in
          let fullHtml := word_page baseName bodyHtml in
          let m := on_world (writeFile outputPath (utf8_encode fullHtml)) m in
          (Returned fullHtml, warn_messages baseName msgs m)
      end
  end.

(** ** The script as a whole *)

(** [path.parse] and the directory [data] next to the script. *)
Variable parse : jsstring -> parsed.
Variable dataDir : jsstring.

(** A call of a converter from [main]: the banner, the call, and the line
    that reports success; a rejection reaches the [catch] of the last
    line, which prints it and exits with 1. A script that runs to its end
    exits with 0. *)
Definition convert_with {A : Type} (c : converter) (baseName : jsstring)
    (call : Machine -> completion A * Machine) (m : Machine) : Z * Machine :=
  let m := emit (SayBanner c baseName) m in
  match call m with
  | (Returned _, m) => (0, emit (SayDone c) m)
  | (Threw err, m) => (1, emit (SayCaught err) m)
  end.

Definition script (arg : option jsstring) (m : Machine) : Z * Machine :=
  match arg with
  | None | Some [] => (1, emit SayUsage m)
  | Some argFileName =>
      let parsed := parse argFileName in
      let baseName := p_name parsed in
      let ext := toLowerCase (p_ext parsed) in
      let m := emit (SayInput argFileName) m in
      let m := emit (SayBaseName baseName) m in
      let m := emit (SayExt ext) m in
      let m := emit (SayDataDir dataDir) m in
      if jsstring_eqb ext (lit ".md") then
        convert_with MdToHtml baseName (fun m => mdToHtml m baseName dataDir dataDir) m
      else if jsstring_eqb ext (lit ".docx") then
        convert_with WordToHtml baseName
          (fun m => wordToHtml m baseName dataDir dataDir ∅) m
      else if jsstring_eqb ext (lit ".html") || jsstring_eqb ext (lit ".htm") then
        convert_with HtmlToPdf baseName (fun m => htmlToPdf m baseName dataDir dataDir) m
      else (1, emit SayUnsupported m)
  end.
End Converters.

(** * Notions used in the statements *)

Definition matched {A : Type} (o : option A) : bool :=
  match o with
  | Some _ => true
  | None => false
  end.

Definition is_anchor (it : item) : bool :=
  match it with
  | Bol | Eol => true
  | _ => false
  end.

(** A pattern without [^] and [$]. *)
Definition anchor_free (its : list item) : bool := forallb (fun it => negb (is_anchor it)) its.

(** Whether the rest of the pattern matches depends on the input alone. *)
Definition Stable (k : cont) : Prop :=
  forall p p' s pos pos', matched (k p s pos) = matched (k p' s pos').

(** A match is not lost when text is appended to the input. *)
Definition Mono (k : cont) : Prop :=
  forall p s pos t, matched (k p s pos) = true -> matched (k p (s ++ t) pos) = true.

Definition has_eol (its : list item) : bool :=
  existsb (fun it => match it with Eol => true | _ => false end) its.

(** The four tests the function makes on the text. *)
Definition compliant (c : jsstring) : bool :=
  test re_meta c && test re_meta_utf8 c && test re_body_close c && test re_html_close c.

(** Two code units that are the same ASCII character, or both outside ASCII. *)
Definition ascii_alike (x y : Z) : Prop :=
  x = y \/ (is_ascii x = false /\ is_ascii y = false).

Definition ascii_cset (cs : cset) : bool :=
  match cs with
  | CChar c => is_ascii c
  | COneOf l | CNot l => forallb is_ascii l
  | CSpace => false
  | CAny => true
  end.

Definition ascii_item (it : item) : bool :=
  match it with
  | One cs | Rep cs _ _ _ => ascii_cset cs
  | _ => true
  end.

(** A pattern of the HTML repair: no anchor, ASCII characters and classes. *)
Definition html_pattern (re : regex) : bool :=
  anchor_free (re_items re) && forallb ascii_item (re_items re).

(** The rest of the pattern gives the same result on alike inputs. *)
Definition Resp (k : cont) : Prop :=
  forall p p' s s' pos, Forall2 ascii_alike s s' -> k p s pos = k p' s' pos.

(** The number of positions of the text at which the pattern matches. *)
Fixpoint occ_from (ic ml : bool) (its : list item) (prev : option Z) (s : jsstring)
    (pos : nat) {struct s} : nat :=
  ((if matched (m_items ic ml its prev s pos) then 1 else 0) +
   match s with
   | x :: s' => occ_from ic ml its (Some x) s' (S pos)
   | [] => 0
   end)%nat.

Definition occurrences (re : regex) (s : jsstring) : nat :=
  occ_from (re_i re) (re_m re) (re_items re) None s 0.

(** A match ends between the position it starts from and the end of the input. *)
Definition Bounded (k : cont) : Prop :=
  forall p s pos e ms, k p s pos = Some (e, ms) -> (pos <= e <= pos + length s)%nat.

(** A match of a pattern that ends with a character of [cs] is not empty,
    and its last character is in [cs]. *)
Definition Ends (ic : bool) (cs : cset) (k : cont) : Prop :=
  forall p s pos e ms, k p s pos = Some (e, ms) ->
    (pos < e)%nat /\ exists z, s !! (e - pos - 1)%nat = Some z /\ cs_mem ic cs z = true.

Definition literal (its : list item) : bool :=
  forallb (fun it => match it with One _ => true | _ => false end) its.

(** A literal pattern at the start of a text. *)
Fixpoint lit_match (ic : bool) (its : list item) (s : jsstring) : bool :=
  match its, s with
  | [], _ => true
  | One cs :: its', x :: s' => cs_mem ic cs x && lit_match ic its' s'
  | _, _ => false
  end.

(** The number of places of a text at which a literal pattern stands. *)
Fixpoint occ_lit (ic : bool) (its : list item) (s : jsstring) : nat :=
  ((if lit_match ic its s then 1 else 0) +
   match s with
   | _ :: s' => occ_lit ic its s'
   | [] => 0
   end)%nat.

(** The character [y] is in none of the sets of the pattern. *)
Definition foreign (ic : bool) (its : list item) (y : Z) : bool :=
  forallb (fun it => match it with One cs => negb (cs_mem ic cs y) | _ => true end) its.

(** One of the two patterns of step 5. *)
Definition is_marker (re : regex) : Prop := re = re_body_close \/ re = re_html_close.

(** The text that step 4 inserts after the opening [head] tag, and the
    head section it puts in front of a text without one. *)
Definition inserted_meta : jsstring := [nl] ++ lit "  " ++ meta_utf8_tag.
Definition head_block : jsstring := lit "<head>" ++ meta_utf8_tag ++ lit "</head>" ++ [nl].

(** Sample surroundings for the closed examples below: a classifier that
    gives every input the same answer, and a transcoder that reads each
    byte as one code unit. *)
Definition always (l : label) : bytes -> label := fun _ => l.
Definition bytewise : bytes -> string -> jsstring := fun bs _ => bs.

Definition one_file (path : string) (bs : bytes) : World :=
  {| files := {[ path := bs ]}; events := [] |}.

(** An input for the examples: ESC, [$B], two bytes of JIS text, ESC, [(B]. *)
Definition jis_sample : bytes := ESC :: lit "$B" ++ [0x30; 0x21] ++ ESC :: lit "(B".

(** Two bytes of Shift_JIS text: no byte below 128, no escape sequence. *)
Definition sjis_sample : bytes := [0x82; 0xA0].

(** A Japanese letter in UTF-8 and no markup at all. *)
Definition bare_text : bytes := [0xE3; 0x81; 0x82].

(** A compliant UTF-8 page with a Japanese letter in its body. *)
Definition compliant_page : bytes :=
  meta_utf8_tag ++ lit "<body>" ++ [0xE3; 0x81; 0x82] ++ lit "</body></html>".

(** A compliant UTF-8 page whose body holds the characters ESC, [(], [B]. *)
Definition compliant_page_with_escape : bytes :=
  meta_utf8_tag ++ lit "<body>" ++ ESC :: lit "(B" ++ lit "</body></html>".

(** The events of an invocation that took the world from [w] to [w']. *)
Definition new_events (w w' : World) : list event :=
  take (length (events w') - length (events w)) (events w').

Definition is_write_to (path : string) (e : event) : bool :=
  match e with
  | EvWrite p _ => bool_decide (p = path)
  | EvLog _ => false
  end.

Definition is_log (e : event) : bool :=
  match e with
  | EvLog _ => true
  | EvWrite _ _ => false
  end.

(** The converter an action invokes, and the exit code it ends with before
    any converter runs. *)
Definition invoked (a : action) : option converter :=
  match a with
  | Convert c _ => Some c
  | _ => None
  end.

Definition exit_code (a : action) : option Z :=
  match a with
  | Usage code | Unsupported code => Some code
  | Convert _ _ => None
  end.

(** Two strings that differ in the case of ASCII letters only. *)
Definition same_ignoring_case (a b : jsstring) : Prop :=
  Forall2 (fun x y => canon true x = canon true y) a b.

(** An ASCII character that is not a capital letter. *)
Definition plain_lower (y : Z) : bool := is_ascii y && negb ((65 <=? y) && (y <=? 90)).

(** A stand-in for [path.parse] for the example: the extension starts at
    the last dot of the name. *)
Fixpoint split_ext (s : jsstring) : parsed :=
  match s with
  | [] => Parsed [] []
  | x :: s' =>
      let p := split_ext s' in
      if (x =? chr ".") && negb (existsb (Z.eqb (chr ".")) s')
      then Parsed [] (x :: s')
      else match p_ext p with
           | [] => Parsed (x :: s') []
           | _ => Parsed (x :: p_name p) (p_ext p)
           end
  end.

(** A page with two charset declarations, the first of them for Shift_JIS. *)
Definition two_declarations : bytes :=
  lit "<meta charset=Shift_JIS><meta charset=utf-8><body>"
  ++ [0xE3; 0x81; 0x82] ++ lit "</body></html>".

(** A compliant page without a character above 127. *)
Definition ascii_page : bytes := meta_utf8_tag ++ lit "<body>Hi</body></html>".

(** The text the function works on: the result of step 3. *)
Definition decoded (detect : bytes -> label) (convert : bytes -> string -> jsstring)
    (forceEnc : label) (bs : bytes) : jsstring :=
  (transcode convert (classify detect forceEnc bs) bs).1.

(** That text after step 4. *)
Definition declared (detect : bytes -> label) (convert : bytes -> string -> jsstring)
    (forceEnc : label) (bs : bytes) : jsstring :=
  (repair_meta (transcode convert (classify detect forceEnc bs) bs)).1.

(** A page whose declaration tag runs up to the [>] of a closing tag. *)
Definition swallowed_body_close : bytes :=
  lit "<meta charset=x </body>" ++ [0xE3; 0x81; 0x82] ++ lit "</body></html>".

(** A text that does not start with white space. *)
Definition starts_black (s : jsstring) : bool :=
  match s with
  | [] => true
  | x :: _ => negb (is_space x)
  end.

(** The three hyphens do not stand anywhere in [fm], nor across its end. *)
Definition no_rule_inside (fm : jsstring) : bool := negb (includes (lit "---") (fm ++ lit "--")).

(** A document with no front matter and two horizontal rules. *)
Definition two_rules : jsstring :=
  lit "# Title" ++ [nl; nl] ++ lit "---" ++ [nl; nl] ++ lit "Section A" ++ [nl; nl]
  ++ lit "---" ++ [nl; nl] ++ lit "Section B".

(** The extension of the file a converter opens. *)
Definition input_ext (c : converter) : jsstring :=
  match c with
  | MdToHtml => lit ".md"
  | WordToHtml => lit ".docx"
  | HtmlToPdf => lit ".html"
  end.

(** Stand-ins for the examples: a path is the directory, a slash and the
    name; [marked] wraps the text in a paragraph; [mammoth] refuses every
    document; a browser in which every call resolves. *)
Definition text_of (s : jsstring) : string :=
  fold_right (fun x acc => String (ascii_of_N (Z.to_N x)) acc) EmptyString s.

Definition join (dir name : jsstring) : string := text_of (dir ++ lit "/" ++ name).

Definition paragraph (md : jsstring) : jsstring := lit "<p>" ++ md ++ lit "</p>".

Definition no_mammoth : bytes -> gmap string optval -> option mammoth_result :=
  fun _ _ => None.

Definition working_browser : Puppeteer :=
  {| launch := true; newPage := true; setContent := fun _ => true;
     pdf := fun html => Some (lit "%PDF" ++ utf8_encode html); close := true |}.

(** A machine that has done nothing yet. *)
Definition fresh (fs : gmap string bytes) : Machine :=
  {| world := {| files := fs; events := [] |}; trace := [] |}.

(** The machine after the four lines that the script prints about its
    argument. *)
Definition announced (dataDir argFileName baseName ext : jsstring) (m : Machine) : Machine :=
  emit (SayDataDir dataDir)
    (emit (SayExt ext) (emit (SayBaseName baseName) (emit (SayInput argFileName) m))).

(** A Markdown file for the examples: a front-matter block and a title
    with a Japanese letter. *)
Definition note_md : bytes :=
  lit "---" ++ [nl] ++ lit "marp: true" ++ [nl] ++ lit "---" ++ [nl]
  ++ lit "# " ++ [0xE3; 0x81; 0x82].

(** A stand-in for [mammoth]: the bytes as a heading, and one message. *)
Definition one_warning : bytes -> gmap string optval -> option mammoth_result :=
  fun docx _ =>
    Some {| value := lit "<h1>" ++ utf8_decode docx ++ lit "</h1>";
            messages := Some [ {| m_type := lit "warning";
                                  m_message := lit "unrecognised style" |} ] |}.

(** The text from its first character that is not white space. *)
Fixpoint trim_start (s : jsstring) : jsstring :=
  match s with
  | x :: s' => if is_space x then trim_start s' else s
  | [] => []
  end.

(** A replacement that is never longer than the match it stands for. *)
Definition Shrinking (re : regex) (r : replacement) : Prop :=
  forall (whole : jsstring) p (s : jsstring) pos e ms,
    m_items (re_i re) (re_m re) (re_items re) p s pos = Some (e, ms) ->
    (length (expand r whole pos e ms) <= e - pos)%nat.

(** A run of number signs. *)
Definition hashes (n : nat) : jsstring := repeat (chr "#") n.

(** What follows does not look at the character before it. *)
Definition PrevFree (k : cont) : Prop := forall p p' s pos, k p s pos = k p' s pos.

(** A well-formed UTF-16 text: code units of 16 bits, every high
    surrogate followed by a low one, and no low surrogate elsewhere. *)
Fixpoint well_formed (s : jsstring) : bool :=
  match s with
  | [] => true
  | u :: rest =>
      if in_range 0xD800 0xDBFF u then
        match rest with
        | v :: rest' => in_range 0xDC00 0xDFFF v && well_formed rest'
        | [] => false
        end
      else in_range 0 0xFFFF u && negb (in_range 0xDC00 0xDFFF u) && well_formed rest
  end.

(** A pattern without [^]. *)
Definition bol_free (its : list item) : bool :=
  forallb (fun it => match it with Bol => false | _ => true end) its.

(** The letters of [a] are those of [b] up to case. *)
Fixpoint folds_to (a b : jsstring) : bool :=
  match a, b with
  | [], [] => true
  | x :: a', c :: b' => (canon true x =? canon true c) && folds_to a' b'
  | _, _ => false
  end.

(** The extension of the file a converter writes. *)
Definition output_ext (c : converter) : jsstring :=
  match c with
  | MdToHtml | WordToHtml => lit ".html"
  | HtmlToPdf => lit ".pdf"
  end.

(** * Theorems *)

(** * Facts about the matcher *)

Lemma matched_or_else (a b : mres) : matched (or_else a b) = matched a || matched b.
Proof. destruct a; reflexivity. Qed.

Section MatcherFacts.
Variables (ic ml : bool).

Lemma rep_greedy_stable k cs lo hi :
  Stable k -> Stable (rep_greedy ic k cs lo hi).
Proof.
  intros Hk p p' s. revert lo hi p p'.
  induction s as [|x s IH]; intros lo hi p p' pos pos'; simpl.
  - destruct (Nat.eqb lo 0); [apply Hk | reflexivity].
  - destruct (cs_mem ic cs x && can_take hi).
    + rewrite !matched_or_else.
      rewrite (IH _ _ (Some x) (Some x) (S pos) (S pos')).
      destruct (Nat.eqb lo 0); [rewrite (Hk p p' _ pos pos') | ]; reflexivity.
    + destruct (Nat.eqb lo 0); [apply Hk | reflexivity].
Qed.

Lemma rep_lazy_stable k cs lo hi :
  Stable k -> Stable (rep_lazy ic k cs lo hi).
Proof.
  intros Hk p p' s. revert lo hi p p'.
  induction s as [|x s IH]; intros lo hi p p' pos pos'; simpl.
  - destruct (Nat.eqb lo 0); [|reflexivity].
    rewrite !matched_or_else, (Hk p p' _ pos pos'). reflexivity.
  - destruct (Nat.eqb lo 0).
    + rewrite !matched_or_else, (Hk p p' _ pos pos').
      destruct (cs_mem ic cs x && can_take hi); [|reflexivity].
      rewrite (IH _ _ (Some x) (Some x) (S pos) (S pos')). reflexivity.
    + destruct (cs_mem ic cs x && can_take hi); [|reflexivity].
      apply IH.
Qed.

Lemma m_one_stable k cs : Stable k -> Stable (m_one ic k cs).
Proof.
  intros Hk p p' [|x s] pos pos'; simpl; [reflexivity|].
  destruct (cs_mem ic cs x); [apply Hk | reflexivity].
Qed.

Lemma m_mark_matched k p s pos : matched (m_mark k p s pos) = matched (k p s pos).
Proof. unfold m_mark. destruct (k p s pos) as [[e ms]|]; reflexivity. Qed.

Lemma m_items_stable its :
  anchor_free its = true -> Stable (m_items ic ml its).
Proof.
  induction its as [|it its IH]; intros Haf.
  - intros p p' s pos pos'. reflexivity.
  - simpl in Haf. apply andb_true_iff in Haf as [Hit Haf].
    specialize (IH Haf).
    destruct it as [cs|cs lo hi [|]| | |]; simpl in *; try discriminate.
    + by apply m_one_stable.
    + by apply rep_greedy_stable.
    + by apply rep_lazy_stable.
    + intros p p' s pos pos'. rewrite !m_mark_matched. apply IH.
Qed.

Lemma rep_greedy_stop k cs hi p s pos :
  matched (k p s pos) = true -> matched (rep_greedy ic k cs 0 hi p s pos) = true.
Proof.
  intros Hk. destruct s as [|x s]; simpl; [exact Hk|].
  destruct (cs_mem ic cs x && can_take hi); [|exact Hk].
  rewrite matched_or_else, Hk. apply orb_true_r.
Qed.

Lemma rep_greedy_mono k cs lo hi :
  Mono k -> Mono (rep_greedy ic k cs lo hi).
Proof.
  intros Hk p s. revert lo hi p.
  induction s as [|x s IH]; intros lo hi p pos t; simpl.
  - destruct (Nat.eqb_spec lo 0) as [->|]; [|discriminate].
    intros H. apply rep_greedy_stop. by apply (Hk p [] pos t).
  - destruct (cs_mem ic cs x && can_take hi).
    + rewrite !matched_or_else. intros H.
      apply orb_true_iff in H as [H|H].
      * by rewrite (IH _ _ _ _ t H).
      * destruct (Nat.eqb lo 0); [|discriminate].
        apply (Hk p (x :: s) pos t) in H. simpl app in H.
        rewrite H. apply orb_true_r.
    + destruct (Nat.eqb lo 0); [|discriminate].
      apply (Hk p (x :: s) pos t).
Qed.

Lemma rep_lazy_mono k cs lo hi :
  Mono k -> Mono (rep_lazy ic k cs lo hi).
Proof.
  intros Hk p s. revert lo hi p.
  induction s as [|x s IH]; intros lo hi p pos t.
  - simpl rep_lazy at 1. destruct (Nat.eqb_spec lo 0) as [->|]; [|discriminate].
    rewrite matched_or_else, orb_false_r. intros H.
    apply (Hk p [] pos t) in H. simpl app in *.
    destruct t as [|y t]; simpl; rewrite matched_or_else, H; reflexivity.
  - simpl. destruct (Nat.eqb lo 0).
    + rewrite !matched_or_else. intros H.
      apply orb_true_iff in H as [H|H].
      * apply (Hk p (x :: s) pos t) in H. simpl app in H. by rewrite H.
      * destruct (cs_mem ic cs x && can_take hi); [|discriminate].
        rewrite (IH _ _ _ _ t H). apply orb_true_r.
    + destruct (cs_mem ic cs x && can_take hi); [|discriminate].
      apply IH.
Qed.

Lemma m_items_mono its :
  has_eol its = false -> Mono (m_items ic ml its).
Proof.
  induction its as [|it its IH]; intros Hne.
  - intros p s pos t _. reflexivity.
  - simpl in Hne. apply orb_false_iff in Hne as [Hit Hne].
    specialize (IH Hne).
    destruct it as [cs|cs lo hi [|]| | |]; simpl in *; try discriminate.
    + intros p [|x s] pos t; simpl; [discriminate|].
      destruct (cs_mem ic cs x); [apply IH | discriminate].
    + by apply rep_greedy_mono.
    + by apply rep_lazy_mono.
    + intros p s pos t. destruct (at_bol ml p); [apply IH | discriminate].
    + intros p s pos t. rewrite !m_mark_matched. apply IH.
Qed.

Lemma anchor_free_no_eol its : anchor_free its = true -> has_eol its = false.
Proof.
  induction its as [|it its IH]; simpl; [reflexivity|].
  intros H. apply andb_true_iff in H as [Hit H].
  rewrite (IH H). by destruct it.
Qed.

Lemma search_here its p s pos :
  matched (m_items ic ml its p s pos) = true ->
  matched (search ic ml its p s pos) = true.
Proof.
  destruct s; simpl; destruct (m_items ic ml its p _ pos) as [[e ms]|]; done.
Qed.

(** A match at the start of [b] is found by a search of [a ++ b]. *)
Lemma search_suffix its a b p pos q pos' :
  anchor_free its = true ->
  matched (m_items ic ml its p b pos) = true ->
  matched (search ic ml its q (a ++ b) pos') = true.
Proof.
  intros Haf Hb. revert q pos'.
  induction a as [|x a IH]; intros q pos'.
  - simpl app. apply search_here.
    by rewrite (m_items_stable its Haf q p b pos' pos).
  - simpl. destruct (m_items ic ml its q (x :: a ++ b) pos') as [[e ms]|]; [done|].
    apply IH.
Qed.

Lemma search_mono its p s pos t :
  has_eol its = false ->
  matched (search ic ml its p s pos) = true ->
  matched (search ic ml its p (s ++ t) pos) = true.
Proof.
  intros Hne. revert p pos.
  induction s as [|x s IH]; intros p pos.
  - simpl search at 1.
    destruct (m_items ic ml its p [] pos) as [[e ms]|] eqn:E; [|discriminate].
    intros _. pose proof (m_items_mono its Hne p [] pos t) as H.
    rewrite E in H. specialize (H eq_refl). by apply search_here.
  - simpl.
    destruct (m_items ic ml its p (x :: s) pos) as [[e ms]|] eqn:E.
    + intros _. pose proof (m_items_mono its Hne p (x :: s) pos t) as H.
      rewrite E in H. specialize (H eq_refl). simpl app in H.
      destruct (m_items ic ml its p (x :: s ++ t) pos) as [[e' ms']|]; done.
    + intros H. destruct (m_items ic ml its p (x :: s ++ t) pos) as [[e' ms']|]; [done|].
      by apply IH.
Qed.
End MatcherFacts.

Lemma test_matched re s : test re s = matched (exec re s).
Proof. unfold test. destruct (exec re s); reflexivity. Qed.

(** [test] succeeds as soon as the pattern matches some suffix. *)
Lemma test_suffix re (a b : jsstring) :
  anchor_free (re_items re) = true ->
  matched (m_items (re_i re) (re_m re) (re_items re) None b 0%nat) = true ->
  test re (a ++ b) = true.
Proof. intros Haf Hb. rewrite test_matched. by eapply search_suffix. Qed.

(** Appending text keeps a match. *)
Lemma test_app_l re s t :
  anchor_free (re_items re) = true -> test re s = true -> test re (s ++ t) = true.
Proof.
  intros Haf. rewrite !test_matched. apply search_mono.
  by apply anchor_free_no_eol.
Qed.

(** [replace] with a plain string, and with a function, at a known match. *)
Lemma replace_string re (l s : jsstring) i e ms :
  re_g re = false -> exec re s = Some (i, e, ms) ->
  replace re (RString [PLit l]) s = take i s ++ l ++ drop e s.
Proof.
  intros Hg E. unfold replace, replace_first. rewrite Hg, E.
  simpl. by rewrite app_nil_r.
Qed.

Lemma replace_fun re (f : jsstring -> jsstring) (s : jsstring) i e ms :
  re_g re = false -> exec re s = Some (i, e, ms) ->
  replace re (RFun f) s = take i s ++ f (substring s i e) ++ drop e s.
Proof. intros Hg E. unfold replace, replace_first. by rewrite Hg, E. Qed.

Lemma replace_none re r (s : jsstring) :
  re_g re = false -> exec re s = None -> replace re r s = s.
Proof. intros Hg E. unfold replace, replace_first. by rewrite Hg, E. Qed.

(** * The repair steps on a text *)

Lemma meta_tag_is_declaration (post : jsstring) :
  matched (m_items true false (re_items re_meta) None (meta_utf8_tag ++ post) 0%nat) = true.
Proof. vm_compute. reflexivity. Qed.

Lemma meta_tag_declares_utf8 (post : jsstring) :
  matched (m_items true false (re_items re_meta_utf8) None (meta_utf8_tag ++ post) 0%nat) = true.
Proof. vm_compute. reflexivity. Qed.

(** A text that holds the canonical declaration passes both tests of step 4. *)
Lemma tests_after_tag (a b : jsstring) :
  test re_meta (a ++ meta_utf8_tag ++ b) = true /\
  test re_meta_utf8 (a ++ meta_utf8_tag ++ b) = true.
Proof.
  split; apply test_suffix.
  - reflexivity.
  - apply meta_tag_is_declaration.
  - reflexivity.
  - apply meta_tag_declares_utf8.
Qed.

(** The text of step 4 when it changes the text: the canonical declaration
    stands somewhere in it. *)
Lemma repair_meta_shape (c : jsstring) (nf : bool) :
  negb (test re_meta c) || negb (test re_meta_utf8 c) = true ->
  exists a b, repair_meta (c, nf) = (a ++ meta_utf8_tag ++ b, true).
Proof.
  intros H. unfold repair_meta. rewrite H.
  destruct (test re_meta c) eqn:Hm.
  - unfold test in Hm.
    destruct (exec re_meta c) as [[[i e] ms]|] eqn:E; [|discriminate].
    exists (take i c), (drop e c).
    by rewrite (replace_string re_meta _ _ i e ms).
  - destruct (test re_head c) eqn:Hh.
    + unfold test in Hh. destruct (exec re_head c) as [[[i e] ms]|] eqn:E; [|discriminate].
      exists (take i c ++ substring c i e ++ [nl] ++ lit "  "), (drop e c).
      rewrite (replace_fun re_head _ _ i e ms) by done.
      by rewrite <- !app_assoc.
    + exists (lit "<head>"), (lit "</head>" ++ [nl] ++ c). reflexivity.
Qed.

Lemma repair_meta_unchanged (c : jsstring) (nf : bool) :
  test re_meta c = true -> test re_meta_utf8 c = true ->
  repair_meta (c, nf) = (c, nf).
Proof. intros H1 H2. unfold repair_meta. by rewrite H1, H2. Qed.

(** After step 4 the text holds a charset declaration and a UTF-8 one. *)
Lemma repair_meta_post (st : jsstring * bool) :
  test re_meta (repair_meta st).1 = true /\ test re_meta_utf8 (repair_meta st).1 = true.
Proof.
  destruct st as [c nf].
  destruct (negb (test re_meta c) || negb (test re_meta_utf8 c)) eqn:H.
  - destruct (repair_meta_shape c nf H) as (a & b & ->). apply tests_after_tag.
  - apply orb_false_iff in H as [H1 H2].
    apply negb_false_iff in H1, H2.
    rewrite repair_meta_unchanged by done. by split.
Qed.

Lemma close_body_post (st : jsstring * bool) :
  test re_body_close (close_body st).1 = true.
Proof.
  destruct st as [c nf]. unfold close_body.
  destruct (test re_body_close c) eqn:H; cbn [negb fst]; [done|].
  rewrite app_assoc. by apply test_suffix.
Qed.

Lemma close_html_post (st : jsstring * bool) :
  test re_html_close (close_html st).1 = true.
Proof.
  destruct st as [c nf]. unfold close_html.
  destruct (test re_html_close c) eqn:H; cbn [negb fst]; [done|].
  rewrite app_assoc. by apply test_suffix.
Qed.

(** Steps 4 and 5 only add text at the end once a test holds, so it keeps
    holding. *)
Lemma close_body_keeps re (st : jsstring * bool) :
  anchor_free (re_items re) = true ->
  test re st.1 = true -> test re (close_body st).1 = true.
Proof.
  destruct st as [c nf]. intros Haf H. unfold close_body.
  destruct (negb (test re_body_close c)); cbn [fst] in *; [|done].
  by apply test_app_l.
Qed.

Lemma close_html_keeps re (st : jsstring * bool) :
  anchor_free (re_items re) = true ->
  test re st.1 = true -> test re (close_html st).1 = true.
Proof.
  destruct st as [c nf]. intros Haf H. unfold close_html.
  destruct (negb (test re_html_close c)); cbn [fst] in *; [|done].
  by apply test_app_l.
Qed.

(** The text that leaves steps 4 and 5 passes the four tests. *)
Lemma repair_compliant (st : jsstring * bool) : compliant (repair st).1 = true.
Proof.
  unfold compliant, repair.
  destruct (repair_meta_post st) as [H1 H2].
  rewrite !andb_true_iff. repeat split.
  - apply close_html_keeps, close_body_keeps; done.
  - apply close_html_keeps, close_body_keeps; done.
  - apply close_html_keeps; [done|]. apply close_body_post.
  - apply close_html_post.
Qed.

(** A text that passes the four tests is left alone, and so is the flag. *)
Lemma repair_of_compliant (c : jsstring) (nf : bool) :
  compliant c = true -> repair (c, nf) = (c, nf).
Proof.
  unfold compliant. rewrite !andb_true_iff. intros [[[H1 H2] H3] H4].
  unfold repair. rewrite repair_meta_unchanged by done.
  unfold close_body. rewrite H3. cbn [negb].
  unfold close_html. by rewrite H4.
Qed.

(** Steps 4 and 5 never lower the flag. *)
Lemma repair_meta_flag (c : jsstring) (nf : bool) :
  (repair_meta (c, nf)).2 = nf || negb (test re_meta c && test re_meta_utf8 c).
Proof.
  unfold repair_meta.
  destruct (test re_meta c), (test re_meta_utf8 c); cbn [negb orb andb];
    try destruct (test re_head c); cbn [snd]; by rewrite ?orb_true_r, ?orb_false_r.
Qed.

(** The flag that leaves steps 4 and 5: raised on entry, or raised because
    one of the four tests failed. *)
Lemma repair_flag (c : jsstring) (nf : bool) :
  (repair (c, nf)).2 = nf || negb (compliant c).
Proof.
  destruct (compliant c) eqn:Hc.
  - rewrite repair_of_compliant by done. cbn [snd negb]. by rewrite orb_false_r.
  - rewrite orb_true_r. unfold compliant in Hc. unfold repair.
    destruct (test re_meta c && test re_meta_utf8 c) eqn:Hm.
    + apply andb_true_iff in Hm as [H1 H2]. cbn [andb] in Hc.
      rewrite repair_meta_unchanged by done.
      unfold close_body.
      destruct (test re_body_close c) eqn:Hb; cbn [negb andb] in *.
      * unfold close_html. by rewrite Hc.
      * unfold close_html. by destruct (negb _).
    + pose proof (repair_meta_flag c nf) as Hf. rewrite Hm, orb_true_r in Hf.
      destruct (repair_meta (c, nf)) as [c4 f4]. cbn [snd] in Hf. subst f4.
      unfold close_body. destruct (negb (test re_body_close c4));
        unfold close_html; by destruct (negb _).
Qed.

(** * [includes] *)

Lemma starts_with_app (n post : list Z) : starts_with n (n ++ post) = true.
Proof. induction n as [|c n IH]; simpl; [done|]. by rewrite Z.eqb_refl. Qed.

Lemma starts_with_elim (n s : list Z) :
  starts_with n s = true -> exists post, s = n ++ post.
Proof.
  revert s. induction n as [|c n IH]; intros s H.
  - by exists s.
  - destruct s as [|x s]; [discriminate|]. simpl in H.
    apply andb_true_iff in H as [Hx H]. apply Z.eqb_eq in Hx as ->.
    destruct (IH _ H) as [post ->]. by exists post.
Qed.

Lemma includes_intro (n pre post : list Z) : includes n (pre ++ n ++ post) = true.
Proof.
  induction pre as [|x pre IH].
  - simpl app. destruct (n ++ post) eqn:E; simpl; rewrite <- E, starts_with_app; done.
  - simpl. rewrite IH. apply orb_true_r.
Qed.

Lemma includes_elim (n s : list Z) :
  includes n s = true -> exists pre post, s = pre ++ n ++ post.
Proof.
  induction s as [|x s IH]; simpl; intros H.
  - rewrite orb_false_r in H. apply starts_with_elim in H as [post ->]. by exists [], post.
  - apply orb_true_iff in H as [H|H].
    + apply starts_with_elim in H as [post ->]. by exists [], post.
    + destruct (IH H) as (pre & post & ->). by exists (x :: pre), post.
Qed.

Lemma includes_app_l (a b s : list Z) : includes (a ++ b) s = true -> includes a s = true.
Proof.
  intros H. apply includes_elim in H as (pre & post & ->).
  rewrite <- app_assoc. apply includes_intro.
Qed.

Lemma includes_app_r (a b s : list Z) : includes (a ++ b) s = true -> includes b s = true.
Proof.
  intros H. apply includes_elim in H as (pre & post & ->).
  rewrite <- app_assoc, (app_assoc pre a). apply includes_intro.
Qed.

(** A text that holds the declaration and the two closing tags, as written
    in the source, passes the four tests. *)
Lemma includes_compliant (c : jsstring) :
  includes meta_utf8_tag c = true ->
  includes (lit "</body>") c = true ->
  includes (lit "</html>") c = true ->
  compliant c = true.
Proof.
  intros Hm Hb Hh. unfold compliant. rewrite !andb_true_iff. repeat split.
  - apply includes_elim in Hm as (a & b & ->). apply tests_after_tag.
  - apply includes_elim in Hm as (a & b & ->). apply tests_after_tag.
  - apply includes_elim in Hb as (a & b & ->). by apply test_suffix.
  - apply includes_elim in Hh as (a & b & ->). by apply test_suffix.
Qed.

(** * The UTF-8 codec: what a write followed by a read keeps *)

Lemma in_range_true lo hi b : lo <= b <= hi -> in_range lo hi b = true.
Proof. intros H. unfold in_range. apply andb_true_iff. split; apply Z.leb_le; lia. Qed.

Lemma in_range_false lo hi b : b < lo \/ hi < b -> in_range lo hi b = false.
Proof.
  intros H. unfold in_range. apply andb_false_iff.
  destruct H; [left | right]; apply Z.leb_gt; lia.
Qed.

Lemma in_range_spec lo hi b : in_range lo hi b = true <-> lo <= b <= hi.
Proof. unfold in_range. rewrite andb_true_iff, !Z.leb_le. done. Qed.

Lemma in_range_spec_false lo hi b : in_range lo hi b = false <-> b < lo \/ hi < b.
Proof. unfold in_range. rewrite andb_false_iff, !Z.leb_gt. done. Qed.

Lemma utf8_encode_cons u rest :
  utf8_encode (u :: rest) =
  if in_range 0 0x7F u then u :: utf8_encode rest
  else if in_range 0x80 0x7FF u then
    (0xC0 + u / 64) :: (0x80 + u mod 64) :: utf8_encode rest
  else if in_range 0xD800 0xDBFF u then
    match rest with
    | v :: rest' =>
        if in_range 0xDC00 0xDFFF v
        then
          let cp := 0x10000 + (u - 0xD800) * 1024 + (v - 0xDC00) in
          (0xF0 + cp / 262144) :: (0x80 + (cp / 4096) mod 64)
          :: (0x80 + (cp / 64) mod 64) :: (0x80 + cp mod 64)
          :: utf8_encode rest'
        else replacement_bytes ++ utf8_encode rest
    | [] => replacement_bytes
    end
  else if in_range 0x800 0xFFFF u && negb (in_range 0xDC00 0xDFFF u) then
    (0xE0 + u / 4096) :: (0x80 + (u / 64) mod 64) :: (0x80 + u mod 64)
    :: utf8_encode rest
  else replacement_bytes ++ utf8_encode rest.
Proof. reflexivity. Qed.

Lemma utf8_decode_ascii b r :
  in_range 0 0x7F b = true -> utf8_decode (b :: r) = b :: utf8_decode r.
Proof. intros H. cbn [utf8_decode]. by rewrite H. Qed.

Lemma utf8_decode_2 b1 b2 r :
  0xC2 <= b1 <= 0xDF -> 0x80 <= b2 <= 0xBF ->
  utf8_decode (b1 :: b2 :: r) = ((b1 - 0xC0) * 64 + (b2 - 0x80)) :: utf8_decode r.
Proof.
  intros H1 H2. cbn [utf8_decode].
  rewrite (in_range_false 0 0x7F b1), (in_range_true 0xC2 0xDF b1),
    (in_range_true 0x80 0xBF b2) by lia. done.
Qed.

Lemma utf8_decode_3 b1 b2 b3 r :
  0xE0 <= b1 <= 0xEF ->
  (if b1 =? 0xE0 then 0xA0 else 0x80) <= b2 <= (if b1 =? 0xED then 0x9F else 0xBF) ->
  0x80 <= b3 <= 0xBF ->
  utf8_decode (b1 :: b2 :: b3 :: r) =
  ((b1 - 0xE0) * 4096 + (b2 - 0x80) * 64 + (b3 - 0x80)) :: utf8_decode r.
Proof.
  intros H1 H2 H3. cbn [utf8_decode].
  rewrite (in_range_false 0 0x7F b1), (in_range_false 0xC2 0xDF b1),
    (in_range_true 0xE0 0xEF b1), (in_range_true _ _ b2),
    (in_range_true 0x80 0xBF b3) by lia. done.
Qed.

Lemma utf8_decode_4 b1 b2 b3 b4 r :
  0xF0 <= b1 <= 0xF4 ->
  (if b1 =? 0xF0 then 0x90 else 0x80) <= b2 <= (if b1 =? 0xF4 then 0x8F else 0xBF) ->
  0x80 <= b3 <= 0xBF -> 0x80 <= b4 <= 0xBF ->
  utf8_decode (b1 :: b2 :: b3 :: b4 :: r) =
  let cp := (b1 - 0xF0) * 262144 + (b2 - 0x80) * 4096 + (b3 - 0x80) * 64 + (b4 - 0x80) in
  (0xD800 + (cp - 0x10000) / 1024) :: (0xDC00 + (cp - 0x10000) mod 1024) :: utf8_decode r.
Proof.
  intros H1 H2 H3 H4. cbn [utf8_decode].
  rewrite (in_range_false 0 0x7F b1), (in_range_false 0xC2 0xDF b1),
    (in_range_false 0xE0 0xEF b1), (in_range_true 0xF0 0xF4 b1), (in_range_true _ _ b2),
    (in_range_true 0x80 0xBF b3), (in_range_true 0x80 0xBF b4) by lia. done.
Qed.

Lemma utf8_decode_replacement r :
  utf8_decode (replacement_bytes ++ r) = replacement_char :: utf8_decode r.
Proof. apply (utf8_decode_3 0xEF 0xBF 0xBD); cbn; lia. Qed.

Local Ltac div_mod_lia := Z.div_mod_to_equations; lia.

(** What is read back after a write has the ASCII characters of the text
    written, each at its place, and characters outside ASCII elsewhere. *)
Lemma utf8_roundtrip_alike (s : jsstring) :
  Forall2 ascii_alike s (utf8_decode (utf8_encode s)).
Proof.
  remember (length s) as n eqn:Hn. revert s Hn.
  induction n as [n IH] using lt_wf_ind. intros s Hn.
  destruct s as [|u rest]; [constructor|].
  assert (forall t, (length t < n)%nat -> Forall2 ascii_alike t (utf8_decode (utf8_encode t)))
    as IH' by (intros t Ht; by eapply IH).
  cbn [length] in Hn.
  rewrite utf8_encode_cons.
  destruct (in_range 0 0x7F u) eqn:E1.
  { rewrite utf8_decode_ascii by done. constructor; [by left | apply IH'; lia]. }
  apply in_range_spec_false in E1.
  destruct (in_range 0x80 0x7FF u) eqn:E2.
  { apply in_range_spec in E2.
    rewrite utf8_decode_2 by div_mod_lia.
    constructor; [|apply IH'; lia].
    left. div_mod_lia. }
  apply in_range_spec_false in E2.
  destruct (in_range 0xD800 0xDBFF u) eqn:E3.
  { apply in_range_spec in E3.
    assert (is_ascii u = false) as Hu.
    { unfold is_ascii. apply andb_false_iff. right. apply Z.ltb_ge. lia. }
    destruct rest as [|v rest'].
    - change replacement_bytes with (replacement_bytes ++ []).
      rewrite utf8_decode_replacement. constructor; [by right | constructor].
    - destruct (in_range 0xDC00 0xDFFF v) eqn:E4.
      + apply in_range_spec in E4. cbv zeta.
        rewrite utf8_decode_4.
        * cbv zeta. constructor; [left; div_mod_lia|].
          constructor; [left; div_mod_lia|]. apply IH'. cbn [length] in *. lia.
        * div_mod_lia.
        * destruct (Z.eqb_spec (0xF0 + (0x10000 + (u - 0xD800) * 1024 + (v - 0xDC00)) / 262144) 0xF0),
            (Z.eqb_spec (0xF0 + (0x10000 + (u - 0xD800) * 1024 + (v - 0xDC00)) / 262144) 0xF4);
            div_mod_lia.
        * div_mod_lia.
        * div_mod_lia.
      + rewrite utf8_decode_replacement.
        constructor; [by right | apply IH'; lia]. }
  apply in_range_spec_false in E3.
  destruct (in_range 0x800 0xFFFF u && negb (in_range 0xDC00 0xDFFF u)) eqn:E4.
  { apply andb_true_iff in E4 as [E4 E5].
    apply in_range_spec in E4. apply negb_true_iff, in_range_spec_false in E5.
    rewrite utf8_decode_3.
    - constructor; [left; div_mod_lia | apply IH'; lia].
    - div_mod_lia.
    - destruct (Z.eqb_spec (0xE0 + u / 4096) 0xE0), (Z.eqb_spec (0xE0 + u / 4096) 0xED);
        div_mod_lia.
    - div_mod_lia. }
  rewrite utf8_decode_replacement.
  constructor; [|apply IH'; lia].
  right. split; [|reflexivity].
  unfold is_ascii. apply andb_false_iff.
  destruct E1; [left; apply Z.leb_gt; lia | right; apply Z.ltb_ge; lia].
Qed.

(** * Patterns that only tell ASCII characters apart *)

Lemma canon_ascii ic c : is_ascii c = true -> is_ascii (canon ic c) = true.
Proof.
  unfold is_ascii, canon. intros [H1 H2]%andb_true_iff.
  apply Z.leb_le in H1. apply Z.ltb_lt in H2.
  destruct (ic && (97 <=? c) && (c <=? 122)) eqn:E.
  - apply andb_true_iff in E as [[_ E1]%andb_true_iff E2].
    apply Z.leb_le in E1, E2. apply andb_true_iff. split; [apply Z.leb_le | apply Z.ltb_lt]; lia.
  - apply andb_true_iff. split; [apply Z.leb_le | apply Z.ltb_lt]; lia.
Qed.

Lemma canon_non_ascii ic x : is_ascii x = false -> canon ic x = x.
Proof.
  unfold is_ascii, canon. intros H.
  destruct (ic && (97 <=? x) && (x <=? 122)) eqn:E; [|done].
  apply andb_true_iff in E as [[_ E1]%andb_true_iff E2].
  apply Z.leb_le in E1, E2.
  apply andb_false_iff in H as [H|H]; [apply Z.leb_gt in H | apply Z.ltb_ge in H]; lia.
Qed.

(** Case folding identifies nothing with a character that is not a letter. *)
Lemma canon_eqb_not_letter ic z c :
  (c < 65 \/ 90 < c) -> (c < 97 \/ 122 < c) ->
  (canon ic z =? canon ic c) = true -> z = c.
Proof.
  intros H1 H2 H. apply Z.eqb_eq in H. unfold canon in H.
  destruct (ic && (97 <=? z) && (z <=? 122)) eqn:Ez, (ic && (97 <=? c) && (c <=? 122)) eqn:Ec;
    rewrite ?andb_true_iff, ?Z.leb_le in *; lia.
Qed.

Lemma canon_eqb_non_ascii ic x c :
  is_ascii x = false -> is_ascii c = true -> (canon ic x =? canon ic c) = false.
Proof.
  intros Hx Hc. rewrite (canon_non_ascii ic x Hx).
  apply Z.eqb_neq. intros ->. rewrite (canon_ascii ic c Hc) in Hx. discriminate.
Qed.

Lemma existsb_non_ascii ic x l :
  is_ascii x = false -> forallb is_ascii l = true ->
  existsb (fun c => canon ic x =? canon ic c) l = false.
Proof.
  intros Hx. induction l as [|c l IH]; [done|].
  cbn [forallb existsb]. intros [Hc Hl]%andb_true_iff.
  by rewrite canon_eqb_non_ascii, IH.
Qed.

Lemma cs_mem_alike ic cs x y :
  ascii_cset cs = true -> ascii_alike x y -> cs_mem ic cs x = cs_mem ic cs y.
Proof.
  intros Hcs [->|[Hx Hy]]; [done|].
  destruct cs as [c|l|l| |]; cbn [cs_mem ascii_cset] in *; try done.
  - by rewrite !canon_eqb_non_ascii.
  - by rewrite !existsb_non_ascii.
  - by rewrite !existsb_non_ascii.
Qed.

Section Alike.
Variables (ic ml : bool).

Lemma rep_greedy_resp k cs lo hi :
  ascii_cset cs = true -> Resp k -> Resp (rep_greedy ic k cs lo hi).
Proof.
  intros Hcs Hk p p' s s' pos Hs. revert lo hi p p' pos.
  induction Hs as [|x y s s' Hxy Hs IH]; intros lo hi p p' pos; cbn [rep_greedy].
  - destruct (Nat.eqb lo 0); [by apply Hk | done].
  - rewrite (cs_mem_alike ic cs x y Hcs Hxy).
    rewrite (IH _ _ (Some x) (Some y) (S pos)).
    rewrite (Hk p p' (x :: s) (y :: s') pos) by by constructor.
    done.
Qed.

Lemma rep_lazy_resp k cs lo hi :
  ascii_cset cs = true -> Resp k -> Resp (rep_lazy ic k cs lo hi).
Proof.
  intros Hcs Hk p p' s s' pos Hs. revert lo hi p p' pos.
  induction Hs as [|x y s s' Hxy Hs IH]; intros lo hi p p' pos; cbn [rep_lazy].
  - by rewrite (Hk p p' [] [] pos).
  - rewrite (cs_mem_alike ic cs x y Hcs Hxy).
    rewrite (IH _ _ (Some x) (Some y) (S pos)).
    rewrite (Hk p p' (x :: s) (y :: s') pos) by by constructor.
    done.
Qed.

Lemma m_items_resp its :
  anchor_free its = true -> forallb ascii_item its = true -> Resp (m_items ic ml its).
Proof.
  induction its as [|it its IH]; intros Haf Hasc.
  - intros p p' s s' pos _. reflexivity.
  - cbn [anchor_free forallb] in Haf, Hasc.
    apply andb_true_iff in Haf as [Hit Haf]. apply andb_true_iff in Hasc as [Hcs Hasc].
    specialize (IH Haf Hasc).
    destruct it as [cs|cs lo hi [|]| | |]; cbn [m_items is_anchor negb ascii_item] in *;
      try discriminate.
    + intros p p' s s' pos Hs. destruct Hs as [|x y s s' Hxy Hs]; cbn [m_one]; [done|].
      rewrite (cs_mem_alike ic cs x y Hcs Hxy).
      by rewrite (IH (Some x) (Some y) s s' (S pos)).
    + by apply rep_greedy_resp.
    + by apply rep_lazy_resp.
    + intros p p' s s' pos Hs. unfold m_mark. by rewrite (IH p p' s s' pos).
Qed.

Lemma search_resp its p p' s s' pos :
  anchor_free its = true -> forallb ascii_item its = true ->
  Forall2 ascii_alike s s' ->
  search ic ml its p s pos = search ic ml its p' s' pos.
Proof.
  intros Haf Hasc Hs. revert p p' pos.
  induction Hs as [|x y s s' Hxy Hs IH]; intros p p' pos; cbn [search].
  - by rewrite (m_items_resp its Haf Hasc p p' [] [] pos).
  - rewrite (m_items_resp its Haf Hasc p p' (x :: s) (y :: s') pos) by by constructor.
    by rewrite (IH (Some x) (Some y) (S pos)).
Qed.
End Alike.

Lemma test_alike re (s s' : jsstring) :
  html_pattern re = true -> Forall2 ascii_alike s s' -> test re s = test re s'.
Proof.
  intros [Haf Hasc]%andb_true_iff Hs. unfold test, exec.
  by rewrite (search_resp _ _ _ None None s s' 0%nat Haf Hasc Hs).
Qed.

Lemma compliant_alike (s s' : jsstring) :
  Forall2 ascii_alike s s' -> compliant s = compliant s'.
Proof.
  intros Hs. unfold compliant.
  by rewrite (test_alike re_meta s s'), (test_alike re_meta_utf8 s s'),
    (test_alike re_body_close s s'), (test_alike re_html_close s s').
Qed.

(** A text that passes the four tests passes them again when it is read
    back from its UTF-8 encoding. *)
Lemma compliant_roundtrip (c : jsstring) :
  compliant (utf8_decode (utf8_encode c)) = compliant c.
Proof. symmetry. apply compliant_alike, utf8_roundtrip_alike. Qed.

(** * Counting matches *)

Lemma search_occ ic ml its p s pos :
  matched (search ic ml its p s pos) = negb (Nat.eqb (occ_from ic ml its p s pos) 0).
Proof.
  revert p pos. induction s as [|x s IH]; intros p pos; cbn [search occ_from].
  - by destruct (m_items ic ml its p [] pos) as [[e ms]|].
  - destruct (m_items ic ml its p (x :: s) pos) as [[e ms]|]; [done|]. apply IH.
Qed.

(** [test] succeeds exactly when the pattern occurs. *)
Lemma test_occurrences re (s : jsstring) :
  test re s = negb (Nat.eqb (occurrences re s) 0).
Proof. rewrite test_matched. apply search_occ. Qed.

(** * Where a match lies *)

Section MatchSpan.
Variables (ic ml : bool).

Lemma rep_greedy_bounded k cs lo hi : Bounded k -> Bounded (rep_greedy ic k cs lo hi).
Proof.
  intros Hk p s. revert lo hi p.
  induction s as [|x s IH]; intros lo hi p pos e ms; cbn [rep_greedy].
  - destruct (Nat.eqb lo 0); [apply Hk | discriminate].
  - assert ((if Nat.eqb lo 0 then k p (x :: s) pos else None) = Some (e, ms) ->
            (pos <= e <= pos + length (x :: s))%nat) as Hstop.
    { destruct (Nat.eqb lo 0); [apply Hk | discriminate]. }
    destruct (cs_mem ic cs x && can_take hi); [|exact Hstop].
    destruct (rep_greedy ic k cs (Nat.pred lo) (dec hi) (Some x) s (S pos)) as [r|] eqn:E;
      cbn [or_else]; [|exact Hstop].
    intros [= ->]. apply IH in E. cbn [length]. lia.
Qed.

Lemma rep_lazy_bounded k cs lo hi : Bounded k -> Bounded (rep_lazy ic k cs lo hi).
Proof.
  intros Hk p s. revert lo hi p.
  induction s as [|x s IH]; intros lo hi p pos e ms; cbn [rep_lazy].
  - destruct (Nat.eqb lo 0); [|discriminate].
    destruct (k p [] pos) as [r|] eqn:E; cbn [or_else]; [|discriminate].
    intros [= ->]. by apply Hk in E.
  - assert ((if cs_mem ic cs x && can_take hi
             then rep_lazy ic k cs (Nat.pred lo) (dec hi) (Some x) s (S pos) else None)
            = Some (e, ms) -> (pos <= e <= pos + length (x :: s))%nat) as Hmore.
    { destruct (cs_mem ic cs x && can_take hi); [|discriminate].
      intros E. apply IH in E. cbn [length]. lia. }
    destruct (Nat.eqb lo 0); [|exact Hmore].
    destruct (k p (x :: s) pos) as [r|] eqn:E; cbn [or_else]; [|exact Hmore].
    intros [= ->]. by apply Hk in E.
Qed.

Lemma m_items_bounded its : Bounded (m_items ic ml its).
Proof.
  induction its as [|it its IH].
  - intros p s pos e ms [= <- <-]. lia.
  - destruct it as [cs|cs lo hi [|]| | |]; cbn [m_items].
    + intros p [|x s] pos e ms; cbn [m_one]; [discriminate|].
      destruct (cs_mem ic cs x); [|discriminate].
      intros E. apply IH in E. cbn [length]. lia.
    + by apply rep_greedy_bounded.
    + by apply rep_lazy_bounded.
    + intros p s pos e ms. destruct (at_bol ml p); [apply IH | discriminate].
    + intros p s pos e ms. destruct (at_eol ml s); [apply IH | discriminate].
    + intros p s pos e ms. unfold m_mark.
      destruct (m_items ic ml its p s pos) as [[e' ms']|] eqn:E; [|discriminate].
      intros [= <- <-]. by apply IH in E.
Qed.

Lemma ends_shift (x : Z) (s : jsstring) (pos e : nat) (P : Z -> Prop) :
  ((S pos < e)%nat /\ exists z, s !! (e - S pos - 1)%nat = Some z /\ P z) ->
  (pos < e)%nat /\ exists z, (x :: s) !! (e - pos - 1)%nat = Some z /\ P z.
Proof.
  intros [Hlt (z & Hz & HP)]. split; [lia|]. exists z. split; [|done].
  replace (e - pos - 1)%nat with (S (e - S pos - 1)) by lia. done.
Qed.

Lemma rep_greedy_ends c k cs lo hi : Ends ic c k -> Ends ic c (rep_greedy ic k cs lo hi).
Proof.
  intros Hk p s. revert lo hi p.
  induction s as [|x s IH]; intros lo hi p pos e ms; cbn [rep_greedy].
  - destruct (Nat.eqb lo 0); [apply Hk | discriminate].
  - assert ((if Nat.eqb lo 0 then k p (x :: s) pos else None) = Some (e, ms) ->
            (pos < e)%nat /\ exists z, (x :: s) !! (e - pos - 1)%nat = Some z /\
                                       cs_mem ic c z = true) as Hstop.
    { destruct (Nat.eqb lo 0); [apply Hk | discriminate]. }
    destruct (cs_mem ic cs x && can_take hi); [|exact Hstop].
    destruct (rep_greedy ic k cs (Nat.pred lo) (dec hi) (Some x) s (S pos)) as [r|] eqn:E;
      cbn [or_else]; [|exact Hstop].
    intros [= ->]. apply IH in E. by apply ends_shift.
Qed.

Lemma rep_lazy_ends c k cs lo hi : Ends ic c k -> Ends ic c (rep_lazy ic k cs lo hi).
Proof.
  intros Hk p s. revert lo hi p.
  induction s as [|x s IH]; intros lo hi p pos e ms; cbn [rep_lazy].
  - destruct (Nat.eqb lo 0); [|discriminate].
    destruct (k p [] pos) as [r|] eqn:E; cbn [or_else]; [|discriminate].
    intros [= ->]. by apply Hk in E.
  - assert ((if cs_mem ic cs x && can_take hi
             then rep_lazy ic k cs (Nat.pred lo) (dec hi) (Some x) s (S pos) else None)
            = Some (e, ms) ->
            (pos < e)%nat /\ exists z, (x :: s) !! (e - pos - 1)%nat = Some z /\
                                       cs_mem ic c z = true) as Hmore.
    { destruct (cs_mem ic cs x && can_take hi); [|discriminate].
      intros E. apply IH in E. by apply ends_shift. }
    destruct (Nat.eqb lo 0); [|exact Hmore].
    destruct (k p (x :: s) pos) as [r|] eqn:E; cbn [or_else]; [|exact Hmore].
    intros [= ->]. by apply Hk in E.
Qed.

Lemma m_items_ends its c : Ends ic c (m_items ic ml (its ++ [One c])).
Proof.
  induction its as [|it its IH].
  - intros p [|x s] pos e ms; cbn; [discriminate|].
    destruct (cs_mem ic c x) eqn:Hx; [|discriminate].
    intros [= <- <-]. split; [lia|]. exists x.
    replace (S pos - pos - 1)%nat with 0%nat by lia. done.
  - destruct it as [cs|cs lo hi [|]| | |]; cbn [m_items app].
    + intros p [|x s] pos e ms; cbn [m_one]; [discriminate|].
      destruct (cs_mem ic cs x); [|discriminate].
      intros E. apply IH in E. by apply ends_shift.
    + by apply rep_greedy_ends.
    + by apply rep_lazy_ends.
    + intros p s pos e ms. destruct (at_bol ml p); [apply IH | discriminate].
    + intros p s pos e ms. destruct (at_eol ml s); [apply IH | discriminate].
    + intros p s pos e ms. unfold m_mark.
      destruct (m_items ic ml (its ++ [One c]) p s pos) as [[e' ms']|] eqn:E; [|discriminate].
      intros [= <- <-]. by apply IH in E.
Qed.

(** What a successful search returns: a match at some suffix of the input. *)
Lemma search_spec its p s pos i e ms :
  search ic ml its p s pos = Some (i, e, ms) ->
  exists (n : nat) p', i = (pos + n)%nat /\ (n <= length s)%nat /\
                       m_items ic ml its p' (drop n s) i = Some (e, ms).
Proof.
  revert p pos. induction s as [|x s IH]; intros p pos; cbn [search].
  - destruct (m_items ic ml its p [] pos) as [[e' ms']|] eqn:E; [|discriminate].
    intros [= <- <- <-]. exists 0%nat, p. rewrite Nat.add_0_r. done.
  - destruct (m_items ic ml its p (x :: s) pos) as [[e' ms']|] eqn:E.
    + intros [= <- <- <-]. exists 0%nat, p. rewrite Nat.add_0_r. cbn [length]. split_and!; [done|lia|done].
    + intros H. apply IH in H as (n & p' & -> & Hn & Hm).
      exists (S n), p'. cbn [length drop]. split_and!; [lia|lia|].
      by replace (pos + S n)%nat with (S pos + n)%nat by lia.
Qed.
End MatchSpan.

(** The span of a match found by [exec] lies within the text. *)
Lemma exec_span re (s : jsstring) i e ms :
  exec re s = Some (i, e, ms) -> (i <= e <= length s)%nat.
Proof.
  intros H. apply search_spec in H as (n & p' & -> & Hn & Hm).
  apply m_items_bounded in Hm. rewrite length_drop in Hm. lia.
Qed.

(** The last character of a match of a pattern that ends with [cs]. *)
Lemma exec_last re its cs (s : jsstring) i e ms :
  re_items re = its ++ [One cs] ->
  exec re s = Some (i, e, ms) ->
  exists a z, take e s = a ++ [z] /\ cs_mem (re_i re) cs z = true.
Proof.
  intros Hits H. pose proof (exec_span re s i e ms H) as Hspan. unfold exec in H.
  apply search_spec in H as (n & p' & Hi & Hn & Hm). cbn in Hi. subst i.
  rewrite Hits in Hm. apply m_items_ends in Hm as (Hlt & z & Hz & Hcs).
  rewrite lookup_drop in Hz.
  replace (n + (e - n - 1))%nat with (e - 1)%nat in Hz by lia.
  exists (take (e - 1) s), z. split; [|done].
  rewrite <- (take_S_r s (e - 1) z Hz). f_equal. lia.
Qed.

(** * Patterns made of single characters *)

Lemma m_items_literal ic ml its p (s : jsstring) pos :
  literal its = true -> matched (m_items ic ml its p s pos) = lit_match ic its s.
Proof.
  revert p s pos. induction its as [|it its IH]; intros p s pos Hl.
  - by destruct s.
  - cbn [literal forallb] in Hl. apply andb_true_iff in Hl as [Hit Hl].
    destruct it as [cs| | | |]; try discriminate.
    destruct s as [|x s]; cbn [m_items m_one lit_match]; [done|].
    destruct (cs_mem ic cs x); [by apply IH | done].
Qed.

Lemma occ_from_literal ic ml its p (s : jsstring) pos :
  literal its = true -> occ_from ic ml its p s pos = occ_lit ic its s.
Proof.
  intros Hl. revert p pos. induction s as [|x s IH]; intros p pos; cbn [occ_from occ_lit].
  - by rewrite m_items_literal.
  - by rewrite m_items_literal, IH.
Qed.

Lemma occurrences_literal re (s : jsstring) :
  literal (re_items re) = true -> occurrences re s = occ_lit (re_i re) (re_items re) s.
Proof. apply occ_from_literal. Qed.

(** A match is kept when text is appended. *)
Lemma lit_match_app ic its (a b : jsstring) :
  lit_match ic its a = true -> lit_match ic its (a ++ b) = true.
Proof.
  revert a. induction its as [|it its IH]; intros a; [by destruct a|].
  destruct it as [cs| | | |], a as [|x a]; cbn [lit_match app]; try discriminate.
  intros [Hx H]%andb_true_iff. by rewrite Hx, IH.
Qed.

(** A match cannot run over a character that is foreign to the pattern. *)
Lemma lit_match_foreign ic its (a b : jsstring) y :
  literal its = true -> foreign ic its y = true ->
  lit_match ic its (a ++ y :: b) = lit_match ic its a.
Proof.
  revert a. induction its as [|it its IH]; intros a Hl Hf; [by destruct a|].
  cbn [literal forallb foreign] in Hl, Hf.
  apply andb_true_iff in Hl as [Hit Hl]. apply andb_true_iff in Hf as [Hy Hf].
  destruct it as [cs| | | |]; try discriminate.
  destruct a as [|x a]; cbn [lit_match app].
  - apply negb_true_iff in Hy. by rewrite Hy.
  - by rewrite IH.
Qed.

(** ... nor start before a character that only the first term of the
    pattern accepts, and run over it. *)
Lemma lit_match_foreign_tail ic it its (a b : jsstring) x y :
  literal (it :: its) = true -> foreign ic its y = true ->
  lit_match ic (it :: its) ((x :: a) ++ y :: b) = lit_match ic (it :: its) (x :: a).
Proof.
  intros Hl Hf. cbn [literal forallb] in Hl. apply andb_true_iff in Hl as [Hit Hl].
  destruct it as [cs| | | |]; try discriminate.
  cbn [lit_match app]. by rewrite lit_match_foreign.
Qed.

(** ... nor run past a character that only the last term accepts. *)
Lemma lit_match_foreign_last ic its (a b : jsstring) z :
  literal its = true -> foreign ic (removelast its) z = true ->
  lit_match ic its ((a ++ [z]) ++ b) = lit_match ic its (a ++ [z]).
Proof.
  revert a. induction its as [|it its IH]; intros a Hl Hf; [by destruct a|].
  cbn [literal forallb] in Hl. apply andb_true_iff in Hl as [Hit Hl].
  destruct it as [cs| | | |]; try discriminate.
  destruct its as [|it' its].
  - destruct a as [|x a]; cbn [lit_match app]; [done|]. by destruct (a ++ [z]), ((a ++ [z]) ++ b).
  - change (removelast (One cs :: it' :: its)) with (One cs :: removelast (it' :: its)) in Hf.
    cbn [foreign forallb] in Hf. apply andb_true_iff in Hf as [Hz Hf].
    destruct a as [|x a]; cbn [lit_match app].
    + apply negb_true_iff in Hz. by rewrite Hz.
    + f_equal. by apply IH.
Qed.

Lemma occ_lit_nil ic it its : occ_lit ic (it :: its) [] = 0%nat.
Proof. by destruct it. Qed.

(** Occurrences add up across a place that no match can run over. *)
Lemma occ_lit_app_foreign ic it its (a b : jsstring) y :
  literal (it :: its) = true -> foreign ic its y = true ->
  occ_lit ic (it :: its) (a ++ y :: b)
  = (occ_lit ic (it :: its) a + occ_lit ic (it :: its) (y :: b))%nat.
Proof.
  intros Hl Hf. remember (occ_lit ic (it :: its) (y :: b)) as n eqn:Hn.
  induction a as [|x a IH].
  - cbn [app]. by rewrite occ_lit_nil, Hn.
  - pose proof (lit_match_foreign_tail ic it its a b x y Hl Hf) as H.
    cbn [app] in *. cbn [occ_lit]. rewrite IH, H. lia.
Qed.

(** The same, for a pattern and a text given up to computation. *)
Lemma occ_lit_split ic its it its' (a b b' : jsstring) y :
  its = it :: its' -> b = y :: b' ->
  literal its = true -> foreign ic its' y = true ->
  occ_lit ic its (a ++ b) = (occ_lit ic its a + occ_lit ic its b)%nat.
Proof. intros -> ->. apply occ_lit_app_foreign. Qed.

Lemma occ_lit_app_foreign_last ic it its (a b : jsstring) z :
  literal (it :: its) = true -> foreign ic (removelast (it :: its)) z = true ->
  occ_lit ic (it :: its) ((a ++ [z]) ++ b)
  = (occ_lit ic (it :: its) (a ++ [z]) + occ_lit ic (it :: its) b)%nat.
Proof.
  intros Hl Hf. remember (occ_lit ic (it :: its) b) as n eqn:Hn.
  induction a as [|x a IH].
  - pose proof (lit_match_foreign_last ic (it :: its) [] b z Hl Hf) as H.
    cbn [app] in *. cbn [occ_lit]. rewrite H, <- Hn.
    replace (lit_match ic (it :: its) []) with false by (by destruct it). lia.
  - pose proof (lit_match_foreign_last ic (it :: its) (x :: a) b z Hl Hf) as H.
    cbn [app] in *. cbn [occ_lit]. rewrite IH, H. lia.
Qed.

(** A part of a text holds no more occurrences than the text. *)
Lemma occ_lit_le_app_l ic its (a b : jsstring) :
  (occ_lit ic its a <= occ_lit ic its (a ++ b))%nat.
Proof.
  induction a as [|x a IH].
  - cbn [app occ_lit]. destruct (lit_match ic its []) eqn:E.
    + apply (lit_match_app ic its [] b) in E. cbn [app] in E.
      destruct b; cbn [occ_lit]; rewrite E; lia.
    + lia.
  - cbn [app occ_lit]. destruct (lit_match ic its (x :: a)) eqn:E.
    + apply (lit_match_app ic its (x :: a) b) in E. cbn [app] in E. rewrite E. lia.
    + lia.
Qed.

Lemma occ_lit_le_app_r ic its (a b : jsstring) :
  (occ_lit ic its b <= occ_lit ic its (a ++ b))%nat.
Proof. induction a as [|x a IH]; cbn [app occ_lit]; lia. Qed.

(** * The closing tags: what steps 4 and 5 do to their number *)

Lemma marker_literal re : is_marker re -> literal (re_items re) = true.
Proof. by intros [-> | ->]. Qed.

(** The canonical declaration holds no closing tag, and none can begin
    before it and run into it. *)
Lemma occ_marker_tag re (a post : jsstring) :
  is_marker re ->
  occurrences re (a ++ meta_utf8_tag ++ post) = (occurrences re a + occurrences re post)%nat.
Proof.
  intros Hre. rewrite !occurrences_literal by by apply marker_literal.
  destruct Hre as [-> | ->];
    (erewrite occ_lit_split; [f_equal|reflexivity..]).
Qed.

Lemma occ_marker_inserted re (a post : jsstring) :
  is_marker re ->
  occurrences re (a ++ inserted_meta ++ post) = (occurrences re a + occurrences re post)%nat.
Proof.
  intros Hre. rewrite !occurrences_literal by by apply marker_literal.
  destruct Hre as [-> | ->];
    (erewrite occ_lit_split; [f_equal|reflexivity..]).
Qed.

Lemma occ_marker_head_block re (c : jsstring) :
  is_marker re -> occurrences re (head_block ++ c) = occurrences re c.
Proof.
  intros Hre. rewrite !occurrences_literal by by apply marker_literal.
  by destruct Hre as [-> | ->].
Qed.

(** No closing tag runs past a [>] of the text. *)
Lemma occ_marker_after_gt re (a b : jsstring) :
  is_marker re ->
  occurrences re ((a ++ [chr ">"]) ++ b)
  = (occurrences re (a ++ [chr ">"]) + occurrences re b)%nat.
Proof.
  intros Hre. rewrite !occurrences_literal by by apply marker_literal.
  destruct Hre as [-> | ->]; by apply occ_lit_app_foreign_last.
Qed.

(** Appending a closing tag on a line of its own adds one occurrence of
    that tag and none of the other. *)
Lemma occ_marker_appended (c : jsstring) :
  occurrences re_body_close (c ++ [nl] ++ lit "</body>")
  = (occurrences re_body_close c + 1)%nat /\
  occurrences re_html_close (c ++ [nl] ++ lit "</html>")
  = (occurrences re_html_close c + 1)%nat /\
  occurrences re_body_close (c ++ [nl] ++ lit "</html>") = occurrences re_body_close c /\
  occurrences re_html_close (c ++ [nl] ++ lit "</body>") = occurrences re_html_close c.
Proof.
  rewrite !occurrences_literal by reflexivity.
  split_and!; (erewrite occ_lit_split; [|reflexivity..]);
    match goal with
    | |- (_ + ?n)%nat = _ => let v := eval vm_compute in n in change n with v
    end; lia.
Qed.

Lemma occurrences_le_app re (a b : jsstring) :
  is_marker re ->
  (occurrences re a <= occurrences re (a ++ b))%nat /\
  (occurrences re b <= occurrences re (a ++ b))%nat.
Proof.
  intros Hre. rewrite !occurrences_literal by by apply marker_literal.
  split; [apply occ_lit_le_app_l | apply occ_lit_le_app_r].
Qed.

(** The four ways through step 4. *)
Lemma repair_meta_cases (c : jsstring) (nf : bool) :
  (test re_meta c = true /\ test re_meta_utf8 c = true /\ repair_meta (c, nf) = (c, nf)) \/
  (test re_meta c = true /\ test re_meta_utf8 c = false /\
   exists i e ms, exec re_meta c = Some (i, e, ms) /\
     repair_meta (c, nf) = (take i c ++ meta_utf8_tag ++ drop e c, true)) \/
  (test re_meta c = false /\
   exists i e ms, exec re_head c = Some (i, e, ms) /\
     repair_meta (c, nf) = (take e c ++ inserted_meta ++ drop e c, true)) \/
  (test re_meta c = false /\ test re_head c = false /\
   repair_meta (c, nf) = (head_block ++ c, true)).
Proof.
  unfold repair_meta.
  destruct (test re_meta c) eqn:Hm; cbn [negb orb].
  - destruct (test re_meta_utf8 c) eqn:Hu; cbn [negb]; [by left|].
    right. left. split_and!; [done..|].
    unfold test in Hm. destruct (exec re_meta c) as [[[i e] ms]|] eqn:E; [|discriminate].
    exists i, e, ms. split; [done|]. by rewrite (replace_string re_meta _ _ i e ms).
  - right. right. destruct (test re_head c) eqn:Hh.
    + left. split; [done|].
      unfold test in Hh. destruct (exec re_head c) as [[[i e] ms]|] eqn:E; [|discriminate].
      exists i, e, ms. split; [done|].
      rewrite (replace_fun re_head _ _ i e ms) by done.
      pose proof (exec_span _ _ _ _ _ E) as Hspan.
      replace (take e c) with (take i c ++ take (e - i) (drop i c))
        by (rewrite take_take_drop; f_equal; lia).
      unfold substring, inserted_meta. by rewrite <- !app_assoc.
    + right. split_and!; [done..|]. unfold head_block. by rewrite <- !app_assoc.
Qed.

(** Step 4 and the closing tags: their number is kept unless a declaration
    tag is replaced, and a text without one stays without one. *)
Lemma repair_meta_occurrences re (c : jsstring) (nf : bool) :
  is_marker re ->
  (test re_meta c = false \/ test re_meta_utf8 c = true ->
   occurrences re (repair_meta (c, nf)).1 = occurrences re c) /\
  (occurrences re c = 0%nat -> occurrences re (repair_meta (c, nf)).1 = 0%nat).
Proof.
  intros Hre.
  destruct (repair_meta_cases c nf) as
    [(Hm & Hu & ->)|[(Hm & Hu & i & e & ms & E & ->)|
                     [(Hm & i & e & ms & E & ->)|(Hm & Hh & ->)]]]; cbn [fst].
  - done.
  - split; [intros [H|H]; congruence|].
    intros H0. rewrite occ_marker_tag by done.
    pose proof (proj1 (occurrences_le_app re (take i c) (drop i c) Hre)) as H1.
    pose proof (proj2 (occurrences_le_app re (take e c) (drop e c) Hre)) as H2.
    rewrite take_drop in H1, H2. lia.
  - assert (occurrences re (take e c ++ inserted_meta ++ drop e c) = occurrences re c) as H.
    { rewrite occ_marker_inserted by done.
      destruct (exec_last re_head (str "<head" ++ [star not_gt]) (CChar (chr ">")) c i e ms
                  eq_refl E) as (a & z & Ha & Hz).
      assert (z = chr ">") as ->.
      { change ((canon true z =? canon true 62) = true) in Hz.
        apply (canon_eqb_not_letter true z 62); [lia | lia | exact Hz]. }
      rewrite <- (take_drop e c) at 3. rewrite Ha.
      by rewrite occ_marker_after_gt. }
    split; intros; congruence.
  - rewrite occ_marker_head_block by done. done.
Qed.

(** The two ways through each half of step 5. *)
Lemma close_body_cases (c : jsstring) (nf : bool) :
  (occurrences re_body_close c = 0%nat /\
   close_body (c, nf) = (c ++ [nl] ++ lit "</body>", true)) \/
  (occurrences re_body_close c <> 0%nat /\ close_body (c, nf) = (c, nf)).
Proof.
  unfold close_body. rewrite test_occurrences, negb_involutive.
  destruct (Nat.eqb_spec (occurrences re_body_close c) 0); [by left | by right].
Qed.

Lemma close_html_cases (c : jsstring) (nf : bool) :
  (occurrences re_html_close c = 0%nat /\
   close_html (c, nf) = (c ++ [nl] ++ lit "</html>", true)) \/
  (occurrences re_html_close c <> 0%nat /\ close_html (c, nf) = (c, nf)).
Proof.
  unfold close_html. rewrite test_occurrences, negb_involutive.
  destruct (Nat.eqb_spec (occurrences re_html_close c) 0); [by left | by right].
Qed.

(** Step 5 on a text: a missing tag is appended once, a tag that is there
    is left alone, the other tag is not touched. *)
Lemma close_tags_spec (c : jsstring) (nf : bool) :
  let out := (close_html (close_body (c, nf))).1 in
  (occurrences re_body_close c = 0%nat ->
   occurrences re_body_close out = 1%nat /\
   exists tail, out = c ++ [nl] ++ lit "</body>" ++ tail /\
                (tail = [] \/ tail = [nl] ++ lit "</html>")) /\
  (occurrences re_html_close c = 0%nat ->
   occurrences re_html_close out = 1%nat /\
   exists front, out = front ++ [nl] ++ lit "</html>" /\
                 occurrences re_html_close front = 0%nat) /\
  (forall re, is_marker re -> occurrences re c <> 0%nat ->
              occurrences re out = occurrences re c).
Proof.
  cbv zeta.
  destruct (occ_marker_appended c) as (Hbb & _ & _ & Hhb).
  destruct (close_body_cases c nf) as [[Hb ->]|[Hb ->]].
  - destruct (occ_marker_appended (c ++ [nl] ++ lit "</body>")) as (_ & Hhh & Hbh & _).
    destruct (close_html_cases (c ++ [nl] ++ lit "</body>") true) as [[Hh ->]|[Hh ->]];
      cbn [fst]; split_and!.
    + intros _. split; [lia|].
      exists ([nl] ++ lit "</html>"). split; [by rewrite <- !app_assoc | by right].
    + intros _. split; [lia|]. by eexists.
    + intros re [-> | ->] Hre; [lia|]. lia.
    + intros _. split; [lia|]. exists []. split; [by rewrite app_nil_r | by left].
    + intros H0. lia.
    + intros re [-> | ->] Hre; lia.
  - destruct (occ_marker_appended c) as (_ & Hhh & Hbh & _).
    destruct (close_html_cases c nf) as [[Hh ->]|[Hh ->]]; cbn [fst]; split_and!.
    + intros H0. lia.
    + intros _. split; [lia|]. by eexists.
    + intros re [-> | ->] Hre; lia.
    + intros H0. lia.
    + intros H0. lia.
    + done.
Qed.

(** * The function as a whole *)

Section NormalizerFacts.
Variable detect : bytes -> label.
Variable convert : bytes -> string -> jsstring.

Lemma classify_unforced forceEnc bs :
  truthy forceEnc = false ->
  classify detect forceEnc bs = if hasEsc bs then Some "ISO-2022-JP"%string else detect bs.
Proof. intros H. unfold classify, js_or. by rewrite H. Qed.

Lemma classify_forced forceEnc bs :
  truthy forceEnc = true -> classify detect forceEnc bs = forceEnc.
Proof. intros H. unfold classify, js_or. by rewrite H. Qed.

Lemma transcode_utf8 enc bs :
  not_utf8 enc = false -> transcode convert enc bs = (utf8_decode bs, false).
Proof. intros H. unfold transcode. destruct enc; by rewrite ?H. Qed.

Lemma transcode_other enc bs :
  not_utf8 enc = true ->
  exists l, enc = Some l /\ transcode convert enc bs = (convert bs l, true).
Proof.
  intros H. unfold transcode. destruct enc as [l|]; [|discriminate].
  exists l. by rewrite H.
Qed.

(** The flag returned: the text was transcoded, or one of the four tests
    failed on it. *)
Lemma normalize_needFix forceEnc bs :
  let enc := classify detect forceEnc bs in
  needFix (normalize detect convert forceEnc bs)
  = (transcode convert enc bs).2 || negb (compliant (transcode convert enc bs).1).
Proof.
  cbv zeta. unfold normalize.
  destruct (transcode convert _ bs) as [c nf] eqn:E.
  pose proof (repair_flag c nf) as Hf.
  destruct (repair (c, nf)) as [c' nf']. exact Hf.
Qed.

Lemma normalize_enc forceEnc bs :
  enc (normalize detect convert forceEnc bs) = classify detect forceEnc bs.
Proof. unfold normalize. by destruct (repair _). Qed.

Lemma normalize_content forceEnc bs :
  content (normalize detect convert forceEnc bs)
  = (repair (transcode convert (classify detect forceEnc bs) bs)).1.
Proof. unfold normalize. by destruct (repair _). Qed.

(** The text written is compliant. *)
Lemma normalize_compliant forceEnc bs :
  compliant (content (normalize detect convert forceEnc bs)) = true.
Proof. rewrite normalize_content. apply repair_compliant. Qed.

(** An unmodified file held a compliant UTF-8 text already. *)
Lemma normalize_unmodified forceEnc bs :
  needFix (normalize detect convert forceEnc bs) = false ->
  not_utf8 (classify detect forceEnc bs) = false /\
  compliant (utf8_decode bs) = true /\
  content (normalize detect convert forceEnc bs) = utf8_decode bs.
Proof.
  rewrite normalize_needFix. cbv zeta. intros H.
  destruct (not_utf8 (classify detect forceEnc bs)) eqn:Hn.
  - destruct (transcode_other _ bs Hn) as (l & _ & E). rewrite E in H. discriminate.
  - rewrite normalize_content. rewrite transcode_utf8 in * by done. cbn [fst snd] in H.
    apply negb_false_iff in H. rewrite repair_of_compliant by done. done.
Qed.

(** What an invocation on an existing file returns and does. *)
Lemma fix_existing (w : World) path forceEnc bs :
  files w !! path = Some bs ->
  let n := normalize detect convert forceEnc bs in
  fixHtmlEncodingIfNeeded detect convert w path forceEnc =
    (Resolved {| res_needFix := needFix n; res_enc := js_or (enc n) None |},
     if needFix n
     then log (DiagFixed path (enc n)) (writeFile path (utf8_encode (content n)) w)
     else log (DiagSkipped path (enc n)) w).
Proof. intros H. unfold fixHtmlEncodingIfNeeded. by rewrite H. Qed.

Lemma fix_missing (w : World) path forceEnc :
  files w !! path = None ->
  fixHtmlEncodingIfNeeded detect convert w path forceEnc = (Rejected (ENOENT path), w).
Proof. intros H. unfold fixHtmlEncodingIfNeeded. by rewrite H. Qed.
End NormalizerFacts.

(** * Classification: the escape sequences and the forced charset *)

Lemma hasEsc_of_sequence (seq bs : bytes) :
  includes (ESC :: seq) bs = true ->
  seq = lit "$B" \/ seq = lit "(B" ->
  hasEsc bs = true.
Proof.
  intros H Hseq. unfold hasEsc, binary_string.
  change (ESC :: seq) with ([ESC] ++ seq) in H.
  rewrite (includes_app_l _ _ _ H). pose proof (includes_app_r _ _ _ H) as Hr.
  destruct Hseq as [->| ->]; rewrite Hr; by rewrite ?orb_true_r.
Qed.

Section Classification.
Variable detect : bytes -> label.
Variable convert : bytes -> string -> jsstring.

(** An input the function does not read as UTF-8 is always reported modified. *)
Lemma fix_transcoded (w : World) path forceEnc bs :
  files w !! path = Some bs ->
  not_utf8 (classify detect forceEnc bs) = true ->
  (fixHtmlEncodingIfNeeded detect convert w path forceEnc).1 =
    Resolved {| res_needFix := true;
                res_enc := js_or (classify detect forceEnc bs) None |}.
Proof.
  intros Hf Hn. rewrite (fix_existing _ _ _ _ _ bs Hf). cbv zeta. cbn [fst].
  rewrite normalize_needFix, normalize_enc. cbv zeta.
  destruct (transcode_other convert _ bs Hn) as (l & _ & ->). done.
Qed.

(** C4, as amended: when no forced charset is supplied (absent or
    empty), bytes that hold 0x1B followed by [$B] or by [(B] are
    classified ISO-2022-JP whatever the detector answers for them, and
    the call returns that label. *)
Theorem escape_sequence_precedence (w : World) path forceEnc bs :
  files w !! path = Some bs ->
  truthy forceEnc = false ->
  includes (ESC :: lit "$B") bs = true \/ includes (ESC :: lit "(B") bs = true ->
  classify detect forceEnc bs = Some "ISO-2022-JP"%string /\
  (fixHtmlEncodingIfNeeded detect convert w path forceEnc).1 =
    Resolved {| res_needFix := true; res_enc := Some "ISO-2022-JP"%string |}.
Proof.
  intros Hf Hforce Hseq.
  assert (hasEsc bs = true) as He.
  { destruct Hseq as [H|H]; eapply hasEsc_of_sequence; eauto. }
  assert (classify detect forceEnc bs = Some "ISO-2022-JP"%string) as Hc.
  { by rewrite classify_unforced, He. }
  split; [exact Hc|].
  rewrite (fix_transcoded w path forceEnc bs Hf); by rewrite Hc.
Qed.

(** C9, as amended: a forced charset that is not the empty string is the
    label the function works with and returns, for every input and so
    for one that holds 0x1B with [$B] or [(B]: the input is not
    reclassified. *)
Theorem forced_charset_suppresses_override (w : World) path forceEnc bs :
  files w !! path = Some bs ->
  truthy forceEnc = true ->
  classify detect forceEnc bs = forceEnc /\
  exists r w', fixHtmlEncodingIfNeeded detect convert w path forceEnc = (Resolved r, w') /\
               res_enc r = forceEnc.
Proof.
  intros Hf Hforce.
  pose proof (classify_forced detect forceEnc bs Hforce) as Hc.
  split; [exact Hc|].
  rewrite (fix_existing _ _ _ _ _ bs Hf). cbv zeta.
  eexists _, _. split; [reflexivity|]. cbn [res_enc].
  rewrite normalize_enc, Hc. unfold js_or. by rewrite Hforce.
Qed.

(** C6, as amended: when no forced charset is supplied, the detector
    answers nothing (or the empty label) and the bytes hold no JIS escape
    sequence, the call on an existing file resolves; the text it works on
    is the UTF-8 decoding of the bytes, whatever the transcoder is, and
    the flag is not raised by step 3: the result is [needFix] exactly
    when one of the four tests of steps 4 and 5 fails. *)
Theorem unknown_detection_reads_utf8 (w : World) path forceEnc bs :
  files w !! path = Some bs ->
  truthy forceEnc = false ->
  truthy (detect bs) = false ->
  hasEsc bs = false ->
  transcode convert (classify detect forceEnc bs) bs = (utf8_decode bs, false) /\
  exists w', fixHtmlEncodingIfNeeded detect convert w path forceEnc =
    (Resolved {| res_needFix := negb (compliant (utf8_decode bs)); res_enc := None |}, w').
Proof.
  intros Hf Hforce Hd He.
  assert (classify detect forceEnc bs = detect bs) as Hc.
  { by rewrite classify_unforced, He. }
  assert (not_utf8 (detect bs) = false) as Hn.
  { unfold not_utf8. destruct (detect bs); [by rewrite Hd | done]. }
  assert (transcode convert (classify detect forceEnc bs) bs = (utf8_decode bs, false)) as Ht.
  { rewrite Hc. by apply transcode_utf8. }
  split; [exact Ht|].
  rewrite (fix_existing _ _ _ _ _ bs Hf). cbv zeta. eexists.
  rewrite normalize_needFix, normalize_enc. cbv zeta. rewrite Ht, Hc.
  cbn [fst snd orb]. unfold js_or. by rewrite Hd.
Qed.

(** C5, as amended: when the label the function settles on is UTF8 (in
    any case) or nothing, and the UTF-8 decoding of the file holds the
    canonical declaration and both closing tags, the call returns
    [needFix = false], logs the skip and writes nothing. *)
Theorem compliant_utf8_untouched (w : World) path forceEnc bs :
  files w !! path = Some bs ->
  not_utf8 (classify detect forceEnc bs) = false ->
  includes meta_utf8_tag (utf8_decode bs) = true ->
  includes (lit "</body>") (utf8_decode bs) = true ->
  includes (lit "</html>") (utf8_decode bs) = true ->
  fixHtmlEncodingIfNeeded detect convert w path forceEnc =
    (Resolved {| res_needFix := false;
                 res_enc := js_or (classify detect forceEnc bs) None |},
     log (DiagSkipped path (classify detect forceEnc bs)) w).
Proof.
  intros Hf Hn Hm Hb Hh.
  rewrite (fix_existing _ _ _ _ _ bs Hf). cbv zeta.
  rewrite normalize_needFix, normalize_enc. cbv zeta.
  rewrite transcode_utf8 by done. cbn [fst snd orb].
  by rewrite includes_compliant.
Qed.
End Classification.

(** The amended C4 at a sample: the detector says SJIS, the bytes hold escapes. *)
Lemma escape_sequence_precedence_witness :
  classify (always (Some "SJIS"%string)) None jis_sample = Some "ISO-2022-JP"%string /\
  (fixHtmlEncodingIfNeeded (always (Some "SJIS"%string)) bytewise
     (one_file "page.html" jis_sample) "page.html" None).1 =
    Resolved {| res_needFix := true; res_enc := Some "ISO-2022-JP"%string |}.
Proof.
  apply (escape_sequence_precedence (always (Some "SJIS"%string)) bytewise
           (one_file "page.html" jis_sample) "page.html" None jis_sample).
  - reflexivity.
  - reflexivity.
  - left. reflexivity.
Defined.

(** C4 as stated fails when a charset is forced: the bytes hold ESC [$B],
    and the function works with, and returns, the forced label. *)
Lemma forced_charset_beats_escape :
  includes (ESC :: lit "$B") jis_sample = true /\
  classify (always (Some "UTF8"%string)) (Some "SJIS"%string) jis_sample = Some "SJIS"%string /\
  (fixHtmlEncodingIfNeeded (always (Some "UTF8"%string)) bytewise
     (one_file "page.html" jis_sample) "page.html" (Some "SJIS"%string)).1 =
    Resolved {| res_needFix := true; res_enc := Some "SJIS"%string |}.
Proof. repeat split; vm_compute; reflexivity. Qed.

(** The amended C9 at a sample: SJIS is forced on bytes that hold escapes. *)
Lemma forced_charset_suppresses_override_witness :
  classify (always (Some "UTF8"%string)) (Some "SJIS"%string) jis_sample = Some "SJIS"%string /\
  exists r w',
    fixHtmlEncodingIfNeeded (always (Some "UTF8"%string)) bytewise
      (one_file "page.html" jis_sample) "page.html" (Some "SJIS"%string) = (Resolved r, w') /\
    res_enc r = Some "SJIS"%string.
Proof.
  apply (forced_charset_suppresses_override (always (Some "UTF8"%string)) bytewise
           (one_file "page.html" jis_sample) "page.html" (Some "SJIS"%string) jis_sample).
  - reflexivity.
  - reflexivity.
Defined.

(** C9 as stated fails for the empty string: it is passed as [forceEnc],
    and the input is reclassified ISO-2022-JP all the same. *)
Lemma empty_forced_charset_is_overridden :
  hasEsc jis_sample = true /\
  classify (always (Some "UTF8"%string)) (Some ""%string) jis_sample
  = Some "ISO-2022-JP"%string /\
  (fixHtmlEncodingIfNeeded (always (Some "UTF8"%string)) bytewise
     (one_file "page.html" jis_sample) "page.html" (Some ""%string)).1 =
    Resolved {| res_needFix := true; res_enc := Some "ISO-2022-JP"%string |}.
Proof. repeat split; vm_compute; reflexivity. Qed.

(** The amended C6 at a sample: no forced charset, a detector that answers nothing. *)
Lemma unknown_detection_reads_utf8_witness :
  transcode bytewise (classify (always None) None sjis_sample) sjis_sample
  = (utf8_decode sjis_sample, false) /\
  exists w',
    fixHtmlEncodingIfNeeded (always None) bytewise
      (one_file "page.html" sjis_sample) "page.html" None =
    (Resolved {| res_needFix := negb (compliant (utf8_decode sjis_sample));
                 res_enc := None |}, w').
Proof.
  apply (unknown_detection_reads_utf8 (always None) bytewise
           (one_file "page.html" sjis_sample) "page.html" None sjis_sample).
  - reflexivity.
  - reflexivity.
  - reflexivity.
  - reflexivity.
Defined.

(** C6 as stated fails when a charset is forced: the detector answers
    nothing for these bytes and they hold no escape sequence, yet step 3
    transcodes them (the text is the transcoder's, not the UTF-8 decoding)
    and raises the flag. *)
Lemma forced_charset_transcodes_unknown :
  always None sjis_sample = None /\
  hasEsc sjis_sample = false /\
  transcode bytewise (classify (always None) (Some "SJIS"%string) sjis_sample) sjis_sample
  = ([0x82; 0xA0], true) /\
  utf8_decode sjis_sample = [0xFFFD; 0xFFFD].
Proof. repeat split; vm_compute; reflexivity. Qed.

(** The amended C5 at a sample: a compliant page that the detector names UTF8. *)
Lemma compliant_utf8_untouched_witness :
  fixHtmlEncodingIfNeeded (always (Some "UTF8"%string)) bytewise
    (one_file "page.html" compliant_page) "page.html" None =
  (Resolved {| res_needFix := false;
               res_enc := js_or (classify (always (Some "UTF8"%string)) None compliant_page) None |},
   log (DiagSkipped "page.html" (classify (always (Some "UTF8"%string)) None compliant_page))
       (one_file "page.html" compliant_page)).
Proof.
  apply (compliant_utf8_untouched (always (Some "UTF8"%string)) bytewise
           (one_file "page.html" compliant_page) "page.html" None compliant_page).
  - reflexivity.
  - reflexivity.
  - reflexivity.
  - reflexivity.
  - reflexivity.
Defined.

(** C5 as stated fails: the bytes are UTF-8 text (they are the UTF-8
    encoding of their own decoding) with the declaration and both closing
    tags, the detector answers UTF8, and the call returns [needFix = true],
    because the escape test reclassifies the input. *)
Lemma compliant_page_with_escape_is_modified :
  utf8_encode (utf8_decode compliant_page_with_escape) = compliant_page_with_escape /\
  includes meta_utf8_tag (utf8_decode compliant_page_with_escape) = true /\
  includes (lit "</body>") (utf8_decode compliant_page_with_escape) = true /\
  includes (lit "</html>") (utf8_decode compliant_page_with_escape) = true /\
  (fixHtmlEncodingIfNeeded (always (Some "UTF8"%string)) bytewise
     (one_file "page.html" compliant_page_with_escape) "page.html" None).1 =
    Resolved {| res_needFix := true; res_enc := Some "ISO-2022-JP"%string |}.
Proof. repeat split; vm_compute; reflexivity. Qed.

(** The same page is reported modified whatever the classifier and the
    transcoder are. *)
Lemma compliant_page_with_escape_always_modified detect convert :
  needFix (normalize detect convert None compliant_page_with_escape) = true.
Proof.
  rewrite normalize_needFix. cbv zeta.
  rewrite classify_unforced by reflexivity.
  change (hasEsc compliant_page_with_escape) with true. cbv iota.
  by destruct (transcode_other convert (Some "ISO-2022-JP"%string)
                 compliant_page_with_escape eq_refl) as (l & _ & ->).
Qed.

(** * Effects: what is written and what is logged *)

Lemma new_events_app (w w' : World) (evs : list event) :
  events w' = evs ++ events w -> new_events w w' = evs.
Proof.
  intros H. unfold new_events. rewrite H. apply take_app_length'.
  rewrite length_app. lia.
Qed.

(** C7: for every invocation that resolves, the file at the path is
    written exactly when the returned flag is true, nothing else is ever
    written, the files are all as they were when the flag is false, and
    one line is logged in both cases; an invocation that rejects (the file
    is missing) leaves the world as it was. *)
Theorem write_iff_modified detect convert (w : World) path forceEnc :
  let '(o, w') := fixHtmlEncodingIfNeeded detect convert w path forceEnc in
  let evs := new_events w w' in
  match o with
  | Resolved r =>
      existsb (is_write_to path) evs = res_needFix r /\
      (forall p, p <> path -> existsb (is_write_to p) evs = false /\
                              files w' !! p = files w !! p) /\
      (res_needFix r = false -> files w' = files w) /\
      length (filter (fun e => is_log e = true) evs) = 1%nat
  | Rejected _ => w' = w
  end.
Proof.
  destruct (files w !! path) as [bs|] eqn:Hf.
  - rewrite (fix_existing _ _ _ _ _ bs Hf). cbv zeta. cbn [res_needFix].
    destruct (needFix (normalize detect convert forceEnc bs)) eqn:Hn.
    + rewrite (new_events_app _ _ [EvLog (DiagFixed path _); EvWrite path _]) by reflexivity.
      cbn [existsb is_write_to orb]. rewrite bool_decide_eq_true_2 by done.
      repeat split; try done.
      * cbn [existsb is_write_to orb]. by rewrite bool_decide_eq_false_2.
      * cbn [log writeFile files]. by rewrite lookup_insert_ne.
    + rewrite (new_events_app _ _ [EvLog (DiagSkipped path _)]) by reflexivity.
      repeat split; done.
  - by rewrite fix_missing.
Qed.

(** * The dispatch of [run.js] *)

Lemma toLowerCase_fold (e t : jsstring) :
  same_ignoring_case e t -> forallb plain_lower t = true -> toLowerCase e = t.
Proof.
  induction 1 as [|x y e t Hxy _ IH]; [done|].
  cbn [forallb]. intros [Hy Ht]%andb_true_iff.
  cbn [toLowerCase]. rewrite (IH Ht). clear IH Ht.
  unfold plain_lower, is_ascii in Hy. unfold canon in Hxy. cbn [andb] in Hxy.
  replace (if (65 <=? x) && (x <=? 90) then [x + 32]
           else if x =? 8490 then [107] else if x =? 304 then [105; 775] else [x])
    with [y]; [done|].
  destruct (97 <=? x) eqn:E1, (x <=? 122) eqn:E2, (97 <=? y) eqn:E3, (y <=? 122) eqn:E4,
    (65 <=? x) eqn:E5, (x <=? 90) eqn:E6, (x =? 8490) eqn:E7, (x =? 304) eqn:E8;
    cbn [andb] in *; f_equal; lia.
Qed.

Section RunFacts.
Variable parse : jsstring -> parsed.

Lemma run_main (argFileName : jsstring) :
  argFileName <> [] ->
  run parse (Some argFileName)
  = main (p_name (parse argFileName)) (ext_of parse argFileName).
Proof. intros H. unfold run. by destruct argFileName. Qed.

(** C10: for every file name given, the extension compared is the
    lower-cased extension of [path.parse], so any spelling of [.md],
    [.docx], [.html] or [.htm] that differs in case only is that
    extension; [.md] goes to [mdToHtml], [.docx] to [wordToHtml],
    [.html] and [.htm] to [htmlToPdf], each on the base name; any other
    extension ends with exit code 1 and no converter invoked. *)
Theorem extension_dispatch (argFileName : jsstring) :
  argFileName <> [] ->
  let baseName := p_name (parse argFileName) in
  let ext := ext_of parse argFileName in
  let act := run parse (Some argFileName) in
  ext = toLowerCase (p_ext (parse argFileName)) /\
  (forall t, t ∈ [lit ".md"; lit ".docx"; lit ".html"; lit ".htm"] ->
             same_ignoring_case (p_ext (parse argFileName)) t -> ext = t) /\
  (ext = lit ".md" -> act = Convert MdToHtml baseName) /\
  (ext = lit ".docx" -> act = Convert WordToHtml baseName) /\
  (ext = lit ".html" \/ ext = lit ".htm" -> act = Convert HtmlToPdf baseName) /\
  (ext ∉ [lit ".md"; lit ".docx"; lit ".html"; lit ".htm"] ->
   act = Unsupported 1 /\ invoked act = None /\ exit_code act = Some 1).
Proof.
  intros Hne. cbv zeta. rewrite (run_main _ Hne).
  set (ext := ext_of parse argFileName).
  split; [reflexivity|]. split; [|repeat split].
  - intros t Ht Hsame. apply toLowerCase_fold; [done|].
    rewrite !elem_of_cons, elem_of_nil in Ht.
    destruct Ht as [->|[->|[->|[->|[]]]]]; reflexivity.
  - intros ->. reflexivity.
  - intros ->. reflexivity.
  - intros [-> | ->]; reflexivity.
  - assert (main (p_name (parse argFileName)) ext = Unsupported 1) as ->; [|done].
    rewrite !not_elem_of_cons in H. destruct H as (H1 & H2 & H3 & H4 & _).
    unfold main, jsstring_eqb. by rewrite !bool_decide_eq_false_2.
  - rewrite !not_elem_of_cons in H. destruct H as (H1 & H2 & H3 & H4 & _).
    unfold main, jsstring_eqb. by rewrite !bool_decide_eq_false_2.
  - rewrite !not_elem_of_cons in H. destruct H as (H1 & H2 & H3 & H4 & _).
    unfold main, jsstring_eqb. by rewrite !bool_decide_eq_false_2.
Qed.

(** No file name, or an empty one: the usage is printed and the script
    exits before [main] is called. *)
Lemma run_usage : run parse None = Usage 1 /\ run parse (Some []) = Usage 1.
Proof. done. Qed.
End RunFacts.

(** C10 at a sample: an upper-case [.HTM]. *)
Lemma extension_dispatch_witness :
  let parse := split_ext in
  let argFileName := lit "Report.HTM" in
  let baseName := p_name (parse argFileName) in
  let ext := ext_of parse argFileName in
  let act := run parse (Some argFileName) in
  ext = toLowerCase (p_ext (parse argFileName)) /\
  (forall t, t ∈ [lit ".md"; lit ".docx"; lit ".html"; lit ".htm"] ->
             same_ignoring_case (p_ext (parse argFileName)) t -> ext = t) /\
  (ext = lit ".md" -> act = Convert MdToHtml baseName) /\
  (ext = lit ".docx" -> act = Convert WordToHtml baseName) /\
  (ext = lit ".html" \/ ext = lit ".htm" -> act = Convert HtmlToPdf baseName) /\
  (ext ∉ [lit ".md"; lit ".docx"; lit ".html"; lit ".htm"] ->
   act = Unsupported 1 /\ invoked act = None /\ exit_code act = Some 1).
Proof.
  apply (extension_dispatch split_ext (lit "Report.HTM")). discriminate.
Defined.

Example dispatch_upper_case_htm :
  run split_ext (Some (lit "Report.HTM")) = Convert HtmlToPdf (lit "Report").
Proof. reflexivity. Qed.

Example dispatch_other_extension :
  run split_ext (Some (lit "notes.txt")) = Unsupported 1.
Proof. reflexivity. Qed.

(** * Running the function on its own output *)

Section Stored.
Variable detect : bytes -> label.
Variable convert : bytes -> string -> jsstring.

(** The file after a call that resolves: as it was when the flag is
    false, the UTF-8 encoding of the repaired text when it is true. *)
Lemma stored_after (w : World) path forceEnc bs :
  files w !! path = Some bs ->
  let n := normalize detect convert forceEnc bs in
  files (fixHtmlEncodingIfNeeded detect convert w path forceEnc).2 !! path
  = Some (if needFix n then utf8_encode (content n) else bs).
Proof.
  intros Hf. cbv zeta. rewrite (fix_existing _ _ _ _ _ bs Hf). cbv zeta. cbn [snd].
  destruct (needFix _); cbn [log writeFile files]; [apply lookup_insert_eq | done].
Qed.

(** Read as UTF-8, the file passes the four tests after every call. *)
Lemma stored_compliant (w : World) path forceEnc bs :
  files w !! path = Some bs ->
  let n := normalize detect convert forceEnc bs in
  compliant (utf8_decode (if needFix n then utf8_encode (content n) else bs)) = true.
Proof.
  intros Hf. cbv zeta.
  destruct (needFix (normalize detect convert forceEnc bs)) eqn:Hn.
  - rewrite compliant_roundtrip. apply normalize_compliant.
  - by destruct (normalize_unmodified _ _ _ _ Hn) as (_ & Hc & _).
Qed.

(** What the call does guarantee about the declarations: afterwards the
    file read as UTF-8 holds at least one charset declaration tag (the
    pattern of [hasMeta] occurs) and a declaration of UTF-8 (the pattern
    of [isUtf8Meta], which folds case and allows either quote or none,
    occurs). It says nothing of how many tags there are, nor of which one
    comes first. *)
Theorem declaration_after_normalize (w : World) path forceEnc bs :
  files w !! path = Some bs ->
  exists stored,
    files (fixHtmlEncodingIfNeeded detect convert w path forceEnc).2 !! path = Some stored /\
    (1 <= occurrences re_meta (utf8_decode stored))%nat /\
    test re_meta_utf8 (utf8_decode stored) = true.
Proof.
  intros Hf. eexists. split; [by apply stored_after|].
  pose proof (stored_compliant w path forceEnc bs Hf) as Hc. cbv zeta in Hc.
  unfold compliant in Hc. rewrite !andb_true_iff in Hc.
  destruct Hc as [[[H1 H2] _] _]. split; [|exact H2].
  rewrite test_occurrences in H1. apply negb_true_iff, Nat.eqb_neq in H1. lia.
Qed.

(** X19: call the function with no forced charset, then call it again
    on the file it left. If the second call settles on UTF8 (in any case)
    or on no label for that file, it returns [needFix = false] and leaves
    every file as the first call left it. *)
Theorem second_run_unmodified (w : World) path bs stored :
  files w !! path = Some bs ->
  let w1 := (fixHtmlEncodingIfNeeded detect convert w path None).2 in
  files w1 !! path = Some stored ->
  not_utf8 (classify detect None stored) = false ->
  (fixHtmlEncodingIfNeeded detect convert w1 path None).1 =
    Resolved {| res_needFix := false; res_enc := js_or (classify detect None stored) None |} /\
  files (fixHtmlEncodingIfNeeded detect convert w1 path None).2 = files w1.
Proof.
  intros Hf w1 Hs Hn.
  assert (compliant (utf8_decode stored) = true) as Hc.
  { pose proof (stored_after w path None bs Hf) as Hs'. cbv zeta in Hs'.
    fold w1 in Hs'. rewrite Hs in Hs'. injection Hs' as ->.
    by apply (stored_compliant w path None bs). }
  rewrite (fix_existing _ _ _ _ _ stored Hs). cbv zeta.
  rewrite normalize_needFix, normalize_enc. cbv zeta.
  rewrite transcode_utf8 by done. cbn [fst snd orb]. rewrite Hc. done.
Qed.
End Stored.

(** That guarantee at a sample: a text without any markup. *)
Lemma declaration_after_normalize_witness :
  exists stored,
    files (fixHtmlEncodingIfNeeded (always (Some "UTF8"%string)) bytewise
             (one_file "page.html" bare_text) "page.html" None).2 !! "page.html"
    = Some stored /\
    (1 <= occurrences re_meta (utf8_decode stored))%nat /\
    test re_meta_utf8 (utf8_decode stored) = true.
Proof.
  apply (declaration_after_normalize (always (Some "UTF8"%string)) bytewise
           (one_file "page.html" bare_text) "page.html" None bare_text).
  reflexivity.
Defined.

(** C2: the code at the failing input. The page declares Shift_JIS in
    its first tag and UTF-8 in its second. Step 4 looks for a UTF-8
    declaration anywhere in the text, finds the second tag and does
    nothing: the call reports that nothing needed fixing, writes nothing,
    and the file keeps its two declaration tags, the first of which (the
    first 24 characters) still declares Shift_JIS. *)
Theorem two_declarations_survive :
  fixHtmlEncodingIfNeeded (always (Some "UTF8"%string)) bytewise
    (one_file "page.html" two_declarations) "page.html" None
  = (Resolved {| res_needFix := false; res_enc := Some "UTF8"%string |},
     log (DiagSkipped "page.html" (Some "UTF8"%string)) (one_file "page.html" two_declarations)) /\
  occurrences re_meta (utf8_decode two_declarations) = 2%nat /\
  exec re_meta (utf8_decode two_declarations) = Some (0%nat, 24%nat, []) /\
  take 24 (utf8_decode two_declarations) = lit "<meta charset=Shift_JIS>" /\
  test re_meta_utf8 (take 24 (utf8_decode two_declarations)) = false.
Proof. repeat split; vm_compute; reflexivity. Qed.

(** X19 at a sample: the first call rewrites a text without markup, the
    second call leaves the file as it is. *)
Lemma second_run_unmodified_witness :
  let detect := always (Some "UTF8"%string) in
  let w1 := (fixHtmlEncodingIfNeeded detect bytewise
               (one_file "page.html" bare_text) "page.html" None).2 in
  let stored := utf8_encode (content (normalize detect bytewise None bare_text)) in
  (fixHtmlEncodingIfNeeded detect bytewise (one_file "page.html" bare_text) "page.html" None).1
  = Resolved {| res_needFix := true; res_enc := Some "UTF8"%string |} /\
  (fixHtmlEncodingIfNeeded detect bytewise w1 "page.html" None).1 =
    Resolved {| res_needFix := false;
                res_enc := js_or (classify detect None stored) None |} /\
  files (fixHtmlEncodingIfNeeded detect bytewise w1 "page.html" None).2 = files w1.
Proof.
  split; [reflexivity|].
  apply (second_run_unmodified (always (Some "UTF8"%string)) bytewise
           (one_file "page.html" bare_text) "page.html" bare_text).
  - reflexivity.
  - vm_compute. reflexivity.
  - reflexivity.
Defined.

(** C1: the code at the failing input. The page is compliant and holds
    no character above 127, and the classifier names it ASCII, a label
    other than UTF8. Step 3 transcodes under every such label and raises
    the flag: the first call returns [needFix = true] and rewrites the
    file with the bytes it had, and so does the second call on the file
    the first one left; each call logs that it fixed the file. *)
Theorem second_run_modified_again :
  let detect := always (Some "ASCII"%string) in
  let fixed := EvLog (DiagFixed "page.html" (Some "ASCII"%string)) in
  let w1 := (fixHtmlEncodingIfNeeded detect bytewise
               (one_file "page.html" ascii_page) "page.html" None).2 in
  let w2 := (fixHtmlEncodingIfNeeded detect bytewise w1 "page.html" None).2 in
  compliant (utf8_decode ascii_page) = true /\
  (fixHtmlEncodingIfNeeded detect bytewise (one_file "page.html" ascii_page) "page.html" None).1
  = Resolved {| res_needFix := true; res_enc := Some "ASCII"%string |} /\
  files w1 !! "page.html" = Some ascii_page /\
  (fixHtmlEncodingIfNeeded detect bytewise w1 "page.html" None).1
  = Resolved {| res_needFix := true; res_enc := Some "ASCII"%string |} /\
  files w2 !! "page.html" = Some ascii_page /\
  events w2 = [fixed; EvWrite "page.html" ascii_page; fixed; EvWrite "page.html" ascii_page].
Proof. repeat split; vm_compute; reflexivity. Qed.

(** * The closing tags of the text written *)

(** Step 4 when it replaces a declaration tag: the tag found by [exec]
    gives way to the canonical one. *)
Lemma repair_meta_replaced (c : jsstring) (nf : bool) i e ms :
  test re_meta c = true -> test re_meta_utf8 c = false ->
  exec re_meta c = Some (i, e, ms) ->
  (repair_meta (c, nf)).1 = take i c ++ meta_utf8_tag ++ drop e c.
Proof.
  intros Hm Hu E. unfold repair_meta. rewrite Hm, Hu. cbn [negb orb fst].
  by rewrite (replace_string re_meta _ _ i e ms).
Qed.

(** C3, as amended. For every input: a text without [</body>] gets
    exactly one, appended to the text of step 4 (and followed by
    [</html>] only when that one is appended too); a text without
    [</html>] gets exactly one, at the very end; a tag that the text holds
    keeps its number of occurrences whenever step 4 replaces no
    declaration tag (it leaves the text alone, inserts after the [head]
    tag or puts a head section in front); when step 4 does replace a
    declaration tag, the closing tags before that tag and after it are
    kept and those inside it go with it; and step 5 never changes the
    number of a closing tag that the text of step 4 holds. *)
Theorem structural_closure detect convert forceEnc (bs : bytes) :
  let text := decoded detect convert forceEnc bs in
  let text4 := declared detect convert forceEnc bs in
  let out := content (normalize detect convert forceEnc bs) in
  (occurrences re_body_close text = 0%nat ->
   occurrences re_body_close out = 1%nat /\
   exists tail, out = text4 ++ [nl] ++ lit "</body>" ++ tail /\
                (tail = [] \/ tail = [nl] ++ lit "</html>")) /\
  (occurrences re_html_close text = 0%nat ->
   occurrences re_html_close out = 1%nat /\
   exists front, out = front ++ [nl] ++ lit "</html>" /\
                 occurrences re_html_close front = 0%nat) /\
  (forall re, is_marker re -> occurrences re text <> 0%nat ->
              test re_meta text = false \/ test re_meta_utf8 text = true ->
              occurrences re out = occurrences re text) /\
  (forall re i e ms, is_marker re ->
              test re_meta text = true -> test re_meta_utf8 text = false ->
              exec re_meta text = Some (i, e, ms) ->
              occurrences re text4
              = (occurrences re (take i text) + occurrences re (drop e text))%nat) /\
  (forall re, is_marker re -> occurrences re text4 <> 0%nat ->
              occurrences re out = occurrences re text4).
Proof.
  cbv zeta. rewrite normalize_content. unfold decoded, declared, repair.
  destruct (transcode convert (classify detect forceEnc bs) bs) as [c nf].
  cbn [fst].
  pose proof (fun re => repair_meta_occurrences re c nf) as H4.
  pose proof (repair_meta_replaced c nf) as Hrep.
  destruct (repair_meta (c, nf)) as [c4 nf4]. cbn [fst] in *.
  destruct (close_tags_spec c4 nf4) as (Hb & Hh & Hkeep). cbv zeta in *.
  split_and!.
  - intros H0. apply Hb. by apply (H4 re_body_close); [left|].
  - intros H0. apply Hh. by apply (H4 re_html_close); [right|].
  - intros re Hre Hn Hsame.
    destruct (H4 re Hre) as [Heq _]. rewrite <- (Heq Hsame) in *. by apply Hkeep.
  - intros re i e ms Hre Hm Hu E. rewrite (Hrep i e ms Hm Hu E).
    by apply occ_marker_tag.
  - exact Hkeep.
Qed.

(** C3 as stated fails: the text holds [</body>] twice, the text written
    holds it once, for the first one was part of the declaration tag that
    step 4 replaced. *)
Lemma replaced_declaration_loses_marker :
  let out := content (normalize (always (Some "UTF8"%string)) bytewise None
                        swallowed_body_close) in
  decoded (always (Some "UTF8"%string)) bytewise None swallowed_body_close
  = lit "<meta charset=x </body>" ++ [0x3042] ++ lit "</body></html>" /\
  occurrences re_body_close
    (decoded (always (Some "UTF8"%string)) bytewise None swallowed_body_close) = 2%nat /\
  out = meta_utf8_tag ++ [0x3042] ++ lit "</body></html>" /\
  occurrences re_body_close out = 1%nat.
Proof. repeat split; vm_compute; reflexivity. Qed.

(** The scenario of the specification: [</html>] alone is missing. *)
Example missing_html_only :
  content (normalize (always (Some "UTF8"%string)) bytewise None
             (meta_utf8_tag ++ lit "<body>Hi</body>"))
  = meta_utf8_tag ++ lit "<body>Hi</body>" ++ [nl] ++ lit "</html>".
Proof. vm_compute. reflexivity. Qed.

(** * [preprocessMarkdown] *)

(** A global replacement changes nothing where the pattern does not match. *)
Lemma replace_from_none re r (whole : jsstring) p (s : jsstring) pos :
  search (re_i re) (re_m re) (re_items re) p s pos = None ->
  replace_from re r whole p s pos 0 = s.
Proof.
  revert p pos. induction s as [|x s IH]; intros p pos; cbn [search replace_from].
  - by destruct (m_items _ _ _ p [] pos) as [[e ms]|].
  - destruct (m_items _ _ _ p (x :: s) pos) as [[e ms]|]; [discriminate|].
    intros H. by rewrite IH.
Qed.

Lemma replace_unmatched re r (s : jsstring) : test re s = false -> replace re r s = s.
Proof.
  unfold test, replace, replace_all, replace_first, exec.
  destruct (search _ _ _ None s 0) as [[[i e] ms]|] eqn:E; [discriminate|].
  intros _. destruct (re_g re); [by apply replace_from_none | done].
Qed.

(** X2: a document in which none of the four patterns of
    [preprocessMarkdown] occurs is returned as it is. *)
Theorem preprocessMarkdown_plain (md : jsstring) :
  test re_front_matter md = false ->
  test re_marp md = false ->
  test re_heading md = false ->
  test re_leading_space md = false ->
  preprocessMarkdown md = md.
Proof.
  intros H1 H2 H3 H4. unfold preprocessMarkdown.
  by rewrite (replace_unmatched re_front_matter), (replace_unmatched re_marp),
    (replace_unmatched re_heading), (replace_unmatched re_leading_space).
Qed.

(** A case-sensitive literal at the head of a pattern: it must stand at the
    start of the text, and the rest of the pattern goes on after it. *)
Lemma m_items_str ml (t : jsstring) its p (s : jsstring) pos :
  exists p',
    m_items false ml (map (fun c => One (CChar c)) t ++ its) p s pos =
    if starts_with t s
    then m_items false ml its p' (drop (length t) s) (pos + length t)%nat
    else None.
Proof.
  revert p s pos. induction t as [|c t IH]; intros p s pos.
  - exists p. cbn. by rewrite Nat.add_0_r.
  - destruct s as [|x s]; [by exists p|].
    cbn [map app m_items m_one starts_with cs_mem]. unfold canon. cbn [andb].
    destruct (x =? c); cbn [andb]; [|by exists p].
    destruct (IH (Some x) s (S pos)) as [p' ->]. exists p'.
    cbn [length drop]. by replace (pos + S (length t))%nat with (S pos + length t)%nat by lia.
Qed.

(** A lazy [[\s\S]*?] skips the text before the first place at which the
    rest of the pattern matches. *)
Lemma rep_lazy_any_skip ic (k : cont) (a b : jsstring) p pos :
  (forall a0 a' p' pos', a = a0 ++ a' -> a' <> [] -> k p' (a' ++ b) pos' = None) ->
  exists p'', rep_lazy ic k CAny 0 None p (a ++ b) pos
              = rep_lazy ic k CAny 0 None p'' b (pos + length a)%nat.
Proof.
  revert p pos. induction a as [|x a IH]; intros p pos Hk.
  - exists p. by rewrite Nat.add_0_r.
  - cbn [app rep_lazy Nat.eqb cs_mem can_take andb Nat.pred dec option_map].
    pose proof (Hk [] (x :: a) p pos eq_refl ltac:(done)) as H0.
    cbn [app] in H0. rewrite H0. cbn [or_else].
    destruct (IH (Some x) (S pos)) as [p'' ->].
    { intros a0 a' p' pos' -> Ha'. by apply (Hk (x :: a0) a'). }
    exists p''. cbn [length]. by replace (pos + S (length a))%nat with (S pos + length a)%nat by lia.
Qed.

Lemma rep_lazy_here ic (k : cont) cs hi p (s : jsstring) pos r :
  k p s pos = Some r -> rep_lazy ic k cs 0 hi p s pos = Some r.
Proof. intros H. destruct s; cbn [rep_lazy Nat.eqb]; by rewrite H. Qed.

(** A greedy [\s*] at the end of a pattern takes the white space there is. *)
Lemma rep_greedy_spaces ic (ws rest : jsstring) p pos :
  forallb is_space ws = true -> starts_black rest = true ->
  rep_greedy ic (fun _ _ pos => Some (pos, [])) CSpace 0 None p (ws ++ rest) pos
  = Some ((pos + length ws)%nat, []).
Proof.
  intros Hws Hrest. revert p pos. induction ws as [|w ws IH]; intros p pos.
  - cbn [app length]. rewrite Nat.add_0_r.
    destruct rest as [|x rest]; [done|]. cbn [starts_black] in Hrest.
    apply negb_true_iff in Hrest. cbn [rep_greedy cs_mem]. by rewrite Hrest.
  - cbn [forallb] in Hws. apply andb_true_iff in Hws as [Hw Hws].
    cbn [app rep_greedy cs_mem can_take Nat.pred dec option_map]. rewrite Hw. cbn [andb].
    rewrite (IH Hws). cbn [or_else length]. do 2 f_equal. lia.
Qed.

Lemma includes_false_suffix (n a0 a' : list Z) :
  includes n (a0 ++ a') = false -> starts_with n a' = false.
Proof.
  induction a0 as [|x a0 IH]; cbn [app includes].
  - destruct a'; cbn [includes]; by intros [H _]%orb_false_iff.
  - intros [_ H]%orb_false_iff. by apply IH.
Qed.

Lemma no_rule_before_close (fm a0 a' tail : jsstring) :
  no_rule_inside fm = true -> fm = a0 ++ a' -> a' <> [] ->
  starts_with (lit "---") (a' ++ lit "---" ++ tail) = false.
Proof.
  unfold no_rule_inside. intros H%negb_true_iff -> Ha'.
  rewrite <- app_assoc in H. apply includes_false_suffix in H.
  destruct a' as [|x [|y [|z a']]]; [done|..]; exact H.
Qed.

(** The match of the front matter pattern on a document that opens with
    a front matter block. *)
Lemma exec_front_matter (fm ws rest : jsstring) :
  no_rule_inside fm = true -> forallb is_space ws = true -> starts_black rest = true ->
  exec re_front_matter (lit "---" ++ fm ++ lit "---" ++ ws ++ rest)
  = Some (0%nat, (6 + length fm + length ws)%nat, []).
Proof.
  intros Hfm Hws Hrest. unfold exec.
  change (re_items re_front_matter)
    with (Bol :: map (fun c => One (CChar c)) (lit "---")
              ++ (star_lazy CAny :: map (fun c => One (CChar c)) (lit "---") ++ [star CSpace])).
  change (re_i re_front_matter) with false. change (re_m re_front_matter) with true.
  assert (m_items false true
            (Bol :: map (fun c => One (CChar c)) (lit "---")
                 ++ (star_lazy CAny :: map (fun c => One (CChar c)) (lit "---") ++ [star CSpace]))
            None (lit "---" ++ fm ++ lit "---" ++ ws ++ rest) 0%nat
          = Some ((6 + length fm + length ws)%nat, [])) as Hm.
  { cbn [m_items at_bol].
    destruct (m_items_str true (lit "---")
                (star_lazy CAny :: map (fun c => One (CChar c)) (lit "---") ++ [star CSpace])
                None (lit "---" ++ fm ++ lit "---" ++ ws ++ rest) 0%nat) as [p1 ->].
    rewrite starts_with_app, drop_app_length. cbn [m_items star_lazy].
    set (k := m_items false true (map (fun c => One (CChar c)) (lit "---") ++ [star CSpace])).
    assert (forall p pos (s : jsstring), exists p',
               k p s pos = if starts_with (lit "---") s
                           then rep_greedy false (fun _ _ pos => Some (pos, [])) CSpace 0 None
                                  p' (drop 3 s) (pos + 3)%nat
                           else None) as Hk.
    { intros p pos s. unfold k.
      destruct (m_items_str true (lit "---") [star CSpace] p s pos) as [p' ->].
      by exists p'. }
    destruct (rep_lazy_any_skip false k fm (lit "---" ++ ws ++ rest) p1
                (0 + length (lit "---"))%nat) as [p2 ->].
    { intros a0 a' p' pos' Hsplit Ha'. destruct (Hk p' pos' (a' ++ lit "---" ++ ws ++ rest)) as [p3 ->].
      by rewrite (no_rule_before_close fm a0 a' (ws ++ rest)). }
    erewrite rep_lazy_here; [reflexivity|].
    destruct (Hk p2 (0 + length (lit "---") + length fm)%nat (lit "---" ++ ws ++ rest)) as [p3 ->].
    rewrite starts_with_app. change (drop 3 (lit "---" ++ ws ++ rest)) with (ws ++ rest).
    rewrite rep_greedy_spaces by done. do 2 f_equal. cbn [length lit]. lia. }
  change (lit "---" ++ fm ++ lit "---" ++ ws ++ rest)
    with (45 :: 45 :: 45 :: fm ++ lit "---" ++ ws ++ rest) in *.
  cbn [search]. by rewrite Hm.
Qed.

(** X1: a document that opens with a front matter block ([---], a text
    [fm] in which the three hyphens do not stand again, [---]) loses the
    block and the white space [ws] after it, and is then processed like the
    rest alone, when no line of the rest starts a block of its own. *)
Theorem preprocessMarkdown_front_matter (fm ws rest : jsstring) :
  no_rule_inside fm = true -> forallb is_space ws = true -> starts_black rest = true ->
  test re_front_matter rest = false ->
  preprocessMarkdown (lit "---" ++ fm ++ lit "---" ++ ws ++ rest) = preprocessMarkdown rest.
Proof.
  intros Hfm Hws Hrest Hnone. unfold preprocessMarkdown.
  rewrite (replace_unmatched re_front_matter _ rest Hnone).
  unfold replace at 4. cbn [re_g re_front_matter]. unfold replace_first.
  rewrite exec_front_matter by done. cbn [expand concat map take app].
  replace (drop (6 + length fm + length ws) (lit "---" ++ fm ++ lit "---" ++ ws ++ rest))
    with rest; [done|].
  rewrite !drop_app. rewrite !(drop_ge (lit "---")), !(drop_ge fm), !(drop_ge ws)
    by (cbn [length lit]; lia).
  cbn [app length lit].
  replace (6 + length fm + length ws - 3 - length fm - 3 - length ws)%nat with 0%nat by lia.
  done.
Qed.

(** The examples of the documentation of [preprocessMarkdown]. *)
Example front_matter_example :
  preprocessMarkdown (lit "---" ++ [nl] ++ lit "marp: true" ++ [nl] ++ lit "---" ++ [nl]
                      ++ lit "# Slide")
  = lit "# Slide".
Proof. vm_compute. reflexivity. Qed.

Example heading_example :
  preprocessMarkdown (lit "## ### **Q1**") = lit "## **Q1**".
Proof. vm_compute. reflexivity. Qed.

Example directive_line_example :
  preprocessMarkdown (lit "# Slide" ++ [nl] ++ lit "Marp: TRUE" ++ [nl] ++ lit "text")
  = lit "# Slide" ++ [nl; nl] ++ lit "text".
Proof. vm_compute. reflexivity. Qed.

(** C8: the code at the failing input. The document does not open with a
    front matter block and holds no directive line and no repeated heading
    marker, yet the text between its two horizontal rules is removed with
    them: under the [m] flag the [^] of the first pattern matches at the
    start of any line. *)
Theorem rules_in_the_body_lose_a_section :
  starts_with (lit "---") two_rules = false /\
  test re_marp two_rules = false /\
  test re_heading two_rules = false /\
  preprocessMarkdown two_rules = lit "# Title" ++ [nl; nl] ++ lit "Section B".
Proof. repeat split; vm_compute; reflexivity. Qed.

(** X1 at a sample: a front matter with a hyphen inside. *)
Lemma preprocessMarkdown_front_matter_witness :
  preprocessMarkdown (lit "---" ++ ([nl] ++ lit "title: a-b" ++ [nl]) ++ lit "---"
                      ++ [nl; nl] ++ lit "# Slide")
  = preprocessMarkdown (lit "# Slide").
Proof.
  apply (preprocessMarkdown_front_matter ([nl] ++ lit "title: a-b" ++ [nl]) [nl; nl]
           (lit "# Slide")); reflexivity.
Defined.

(** X2 at a sample. *)
Lemma preprocessMarkdown_plain_witness :
  preprocessMarkdown (lit "# Slide" ++ [nl] ++ lit "text") = lit "# Slide" ++ [nl] ++ lit "text".
Proof. apply (preprocessMarkdown_plain (lit "# Slide" ++ [nl] ++ lit "text")); reflexivity. Defined.

(** * Further properties of the normaliser *)

(** X3: the flag returned is raised exactly when step 3 transcoded the
    bytes or the text failed one of the four tests of steps 4 and 5. *)
Theorem needFix_characterised detect convert forceEnc (bs : bytes) :
  needFix (normalize detect convert forceEnc bs)
  = not_utf8 (classify detect forceEnc bs)
    || negb (compliant (decoded detect convert forceEnc bs)).
Proof.
  rewrite normalize_needFix. cbv zeta. unfold decoded.
  destruct (not_utf8 (classify detect forceEnc bs)) eqn:Hn.
  - by destruct (transcode_other convert _ bs Hn) as (l & _ & ->).
  - by rewrite transcode_utf8.
Qed.

(** X4: the text the function ends with holds a charset declaration, a
    UTF-8 declaration, [</body>] and [</html>], for every input. *)
Theorem written_text_compliant detect convert forceEnc (bs : bytes) :
  let out := content (normalize detect convert forceEnc bs) in
  test re_meta out = true /\ test re_meta_utf8 out = true /\
  test re_body_close out = true /\ test re_html_close out = true.
Proof.
  cbv zeta. pose proof (normalize_compliant detect convert forceEnc bs) as H.
  unfold compliant in H. rewrite !andb_true_iff in H. tauto.
Qed.

(** X5: steps 4 and 5 change nothing when they are run on their own result. *)
Theorem repair_idempotent (st : jsstring * bool) :
  repair ((repair st).1, false) = ((repair st).1, false).
Proof. apply repair_of_compliant, repair_compliant. Qed.

(** * The pages that [mdToHtml] and [wordToHtml] write *)

Lemma includes_skip (n a s : list Z) : includes n s = true -> includes n (a ++ s) = true.
Proof. intros (p & q & ->)%includes_elim. rewrite app_assoc. apply includes_intro. Qed.

(** A match inside a prefix is a match. *)
Lemma test_prefix re (n : nat) (s : jsstring) :
  anchor_free (re_items re) = true -> test re (take n s) = true -> test re s = true.
Proof. intros Haf H. rewrite <- (take_drop n s). by apply test_app_l. Qed.

(** The template passes the four tests of the normaliser whatever the
    title, the style rules and the body are: the declaration stands
    before the title and the closing tags after the body. *)
Lemma page_compliant (baseName styles bodyHtml : jsstring) :
  compliant (page_head baseName ++ styles ++ page_foot bodyHtml) = true.
Proof.
  unfold compliant. rewrite !andb_true_iff. split_and!.
  - apply (test_prefix _ 84); [reflexivity | vm_compute; reflexivity].
  - apply (test_prefix _ 84); [reflexivity | vm_compute; reflexivity].
  - assert (includes (lit "</body>") (page_head baseName ++ styles ++ page_foot bodyHtml)
            = true) as (a & b & ->)%includes_elim; [|by apply test_suffix].
    unfold page_foot. do 6 apply includes_skip. vm_compute. reflexivity.
  - assert (includes (lit "</html>") (page_head baseName ++ styles ++ page_foot bodyHtml)
            = true) as (a & b & ->)%includes_elim; [|by apply test_suffix].
    unfold page_foot. do 6 apply includes_skip. vm_compute. reflexivity.
Qed.

Lemma md_page_compliant (baseName bodyHtml : jsstring) :
  compliant (md_page baseName bodyHtml) = true.
Proof.
  replace (md_page baseName bodyHtml)
    with (page_head baseName ++ (style_text ++ style_code ++ style_table)
          ++ page_foot bodyHtml)
    by (unfold md_page; by rewrite <- !app_assoc).
  apply page_compliant.
Qed.

Lemma word_page_compliant (baseName bodyHtml : jsstring) :
  compliant (word_page baseName bodyHtml) = true.
Proof.
  replace (word_page baseName bodyHtml)
    with (page_head baseName ++ (style_text ++ style_table) ++ page_foot bodyHtml)
    by (unfold word_page; by rewrite <- !app_assoc).
  apply page_compliant.
Qed.

(** * The converters *)

Lemma foldl_emit_trace {A : Type} (f : A -> effect) (l : list A) (m : Machine) :
  trace (foldl (fun m a => emit (f a) m) m l) = rev (map f l) ++ trace m /\
  world (foldl (fun m a => emit (f a) m) m l) = world m.
Proof.
  revert m. induction l as [|a l IH]; intros m; [done|].
  cbn [foldl map rev]. destruct (IH (emit (f a) m)) as [-> ->].
  cbn [emit trace world]. by rewrite <- app_assoc.
Qed.

(** The warnings, oldest first: none without a message, else the header
    and a line for each message in turn. *)
Lemma warn_messages_trace (baseName : jsstring) (msgs : list mammoth_message) (m : Machine) :
  exists evs,
    trace (warn_messages baseName msgs m) = evs ++ trace m /\
    rev evs = match msgs with
              | [] => []
              | _ => WarnHeader baseName
                     :: map (fun msg => WarnMessage (m_type msg) (m_message msg)) msgs
              end.
Proof.
  unfold warn_messages. destruct msgs as [|msg msgs]; [by exists []|].
  change (0 <? length (msg :: msgs))%nat with true. cbv iota.
  destruct (foldl_emit_trace (fun msg => WarnMessage (m_type msg) (m_message msg))
              (msg :: msgs) (emit (WarnHeader baseName) m)) as [-> _].
  cbn [emit trace].
  exists (rev (map (fun msg => WarnMessage (m_type msg) (m_message msg)) (msg :: msgs))
          ++ [WarnHeader baseName]).
  split; [by rewrite <- app_assoc|].
  by rewrite rev_app_distr, rev_involutive.
Qed.

Lemma warn_messages_world (baseName : jsstring) (msgs : list mammoth_message) (m : Machine) :
  world (warn_messages baseName msgs m) = world m.
Proof.
  unfold warn_messages. destruct (0 <? length msgs)%nat; [|done].
  by destruct (foldl_emit_trace (fun msg => WarnMessage (m_type msg) (m_message msg))
                 msgs (emit (WarnHeader baseName) m)) as [_ ->].
Qed.

Section ConverterFacts.
Variable detect : bytes -> label.
Variable convert : bytes -> string -> jsstring.
Variable resolve : jsstring -> jsstring -> string.
Variable marked : jsstring -> jsstring.
Variable convertToHtml : bytes -> gmap string optval -> option mammoth_result.
Variable puppeteer : Puppeteer.

(** The normaliser leaves alone a file that reads as a compliant text and
    that it takes for UTF-8. *)
Lemma fix_skips_compliant (w : World) path forceEnc stored :
  files w !! path = Some stored ->
  compliant (utf8_decode stored) = true ->
  not_utf8 (classify detect forceEnc stored) = false ->
  fixHtmlEncodingIfNeeded detect convert w path forceEnc =
    (Resolved {| res_needFix := false;
                 res_enc := js_or (classify detect forceEnc stored) None |},
     log (DiagSkipped path (classify detect forceEnc stored)) w).
Proof.
  intros Hs Hc Hn. rewrite (fix_existing _ _ _ _ _ stored Hs). cbv zeta.
  rewrite normalize_needFix, normalize_enc. cbv zeta.
  rewrite transcode_utf8 by done. cbn [fst snd orb]. by rewrite Hc.
Qed.

(** The normaliser writes to the file it is given and to no other. *)
Lemma fix_files_frame (w : World) path forceEnc other :
  other <> path ->
  files (fixHtmlEncodingIfNeeded detect convert w path forceEnc).2 !! other
  = files w !! other.
Proof.
  intros Hne. unfold fixHtmlEncodingIfNeeded.
  destruct (files w !! path) as [bs|]; [|done]. cbn [snd].
  destruct (needFix _); cbn [log writeFile files]; [|done].
  by rewrite lookup_insert_ne.
Qed.

Lemma mdToHtml_existing (m : Machine) baseName inputDir outputDir buffer :
  files (world m) !! resolve inputDir (baseName ++ lit ".md") = Some buffer ->
  let page := md_page baseName (marked (preprocessMarkdown (utf8_decode buffer))) in
  mdToHtml resolve marked m baseName inputDir outputDir =
    (Returned page,
     on_world (writeFile (resolve outputDir (baseName ++ lit ".html")) (utf8_encode page)) m).
Proof. intros H. unfold mdToHtml. by rewrite H. Qed.

Lemma mdToHtml_missing (m : Machine) baseName inputDir outputDir :
  files (world m) !! resolve inputDir (baseName ++ lit ".md") = None ->
  mdToHtml resolve marked m baseName inputDir outputDir =
    (Threw (FsError (ENOENT (resolve inputDir (baseName ++ lit ".md")))), m).
Proof. intros H. unfold mdToHtml. by rewrite H. Qed.

Lemma wordToHtml_missing (m : Machine) baseName inputDir outputDir options :
  files (world m) !! resolve inputDir (baseName ++ lit ".docx") = None ->
  wordToHtml resolve convertToHtml m baseName inputDir outputDir options =
    (Threw (FsError (ENOENT (resolve inputDir (baseName ++ lit ".docx")))), m).
Proof. intros H. unfold wordToHtml. by rewrite H. Qed.

Lemma htmlToPdf_missing (m : Machine) baseName inputDir outputDir :
  files (world m) !! resolve inputDir (baseName ++ lit ".html") = None ->
  htmlToPdf detect convert resolve puppeteer m baseName inputDir outputDir =
    (Threw (FsError (ENOENT (resolve inputDir (baseName ++ lit ".html")))),
     on_world (fun _ => world m) m).
Proof. intros H. unfold htmlToPdf. by rewrite fix_missing. Qed.

(** The [try] block: what it adds to the trace, oldest last. *)
Lemma print_page_trace (html : jsstring) (out : string) (m : Machine) :
  exists evs,
    trace (print_page puppeteer html out m).2 = evs ++ trace m /\
    Forall (fun e => e <> Launched /\ e <> Closed) evs /\
    (forall h, ContentSet h ∈ evs -> h = html) /\
    ((print_page puppeteer html out m).1 = Returned tt ->
     exists data, ContentSet html ∈ evs /\ pdf puppeteer html = Some data /\
                  files (world (print_page puppeteer html out m).2) !! out = Some data).
Proof.
  unfold print_page.
  destruct (newPage puppeteer); cbn [negb].
  2:{ exists []. split_and!; [done|constructor|by intros h ?%elem_of_nil|done]. }
  destruct (setContent puppeteer html); cbn [negb].
  2:{ exists [PageOpened]. split_and!; [done|by repeat constructor| |done].
      intros h [?|?%elem_of_nil]%elem_of_cons; done. }
  destruct (pdf puppeteer html) as [data|].
  2:{ exists [ContentSet html; PageOpened].
      split_and!; [done|by repeat constructor| |done].
      intros h [?|[?|?%elem_of_nil]%elem_of_cons]%elem_of_cons; first [done|congruence]. }
  exists [Printed out; ContentSet html; PageOpened].
  split_and!; [done|by repeat constructor| |].
  - intros h [?|[?|[?|?%elem_of_nil]%elem_of_cons]%elem_of_cons]%elem_of_cons;
      first [done|congruence].
  - intros _. exists data. split_and!; [|done|].
    + apply elem_of_cons. right. apply elem_of_cons. by left.
    + cbn [snd emit on_world world writeFile files]. apply lookup_insert_eq.
Qed.

Lemma print_page_frame (html : jsstring) (out other : string) (m : Machine) :
  other <> out ->
  files (world (print_page puppeteer html out m).2) !! other = files (world m) !! other.
Proof.
  intros Hne. unfold print_page.
  destruct (newPage puppeteer); cbn [negb]; [|done].
  destruct (setContent puppeteer html); cbn [negb]; [|done].
  destruct (pdf puppeteer html) as [data|]; [|done].
  cbn [snd emit on_world world writeFile files]. by rewrite lookup_insert_ne.
Qed.
End ConverterFacts.

(** * Markdown and Word pages in front of the normaliser *)

Section Pages.
Variable detect : bytes -> label.
Variable convert : bytes -> string -> jsstring.
Variable resolve : jsstring -> jsstring -> string.
Variable marked : jsstring -> jsstring.
Variable convertToHtml : bytes -> gmap string optval -> option mammoth_result.

(** X6: [mdToHtml] on an existing file returns the page and stores its
    UTF-8 encoding under the [.html] name. Whatever the title and
    whatever [marked] returns, that file read back passes the four tests
    of [fixHtmlEncodingIfNeeded]; so a later call of the normaliser on it,
    when it takes the bytes for UTF-8 or for nothing, returns
    [needFix = false] and only logs that it skipped the file. *)
Theorem markdown_page_needs_no_repair (m : Machine)
    (baseName inputDir outputDir : jsstring) (buffer : bytes) :
  files (world m) !! resolve inputDir (baseName ++ lit ".md") = Some buffer ->
  let outputPath := resolve outputDir (baseName ++ lit ".html") in
  let page := md_page baseName (marked (preprocessMarkdown (utf8_decode buffer))) in
  let ran := mdToHtml resolve marked m baseName inputDir outputDir in
  let enc := classify detect None (utf8_encode page) in
  ran.1 = Returned page /\
  files (world ran.2) !! outputPath = Some (utf8_encode page) /\
  compliant (utf8_decode (utf8_encode page)) = true /\
  (not_utf8 enc = false ->
   fixHtmlEncodingIfNeeded detect convert (world ran.2) outputPath None =
     (Resolved {| res_needFix := false; res_enc := js_or enc None |},
      log (DiagSkipped outputPath enc) (world ran.2))).
Proof.
  intros Hf outputPath page ran enc.
  assert (files (world ran.2) !! outputPath = Some (utf8_encode page)) as Hs.
  { subst ran. rewrite (mdToHtml_existing _ _ _ _ _ _ buffer Hf). cbv zeta.
    cbn [snd on_world world writeFile files]. apply lookup_insert_eq. }
  assert (compliant (utf8_decode (utf8_encode page)) = true) as Hc.
  { rewrite compliant_roundtrip. apply md_page_compliant. }
  split_and!; [|done|done|].
  - subst ran. by rewrite (mdToHtml_existing _ _ _ _ _ _ buffer Hf).
  - intros Hn. by apply fix_skips_compliant.
Qed.

(** X7: [wordToHtml] on a document that [mammoth] converts returns the
    page and stores its UTF-8 encoding, whatever messages come with the
    result; the warnings are the header followed by one line a message in
    their order, and none at all when the list is empty or missing. The
    stored page passes the four tests of the normaliser, which leaves it
    alone when it takes the bytes for UTF-8 or for nothing. *)
Theorem word_page_needs_no_repair (m : Machine)
    (baseName inputDir outputDir : jsstring) (options : gmap string optval)
    (docx : bytes) (result : mammoth_result) :
  files (world m) !! resolve inputDir (baseName ++ lit ".docx") = Some docx ->
  convertToHtml docx (options ∪ default_options) = Some result ->
  let outputPath := resolve outputDir (baseName ++ lit ".html") in
  let page := word_page baseName (value result) in
  let ran := wordToHtml resolve convertToHtml m baseName inputDir outputDir options in
  let enc := classify detect None (utf8_encode page) in
  ran.1 = Returned page /\
  world ran.2 = writeFile outputPath (utf8_encode page) (world m) /\
  (exists evs,
     trace ran.2 = evs ++ trace m /\
     rev evs = match default [] (messages result) with
               | [] => []
               | msgs => WarnHeader baseName
                         :: map (fun msg => WarnMessage (m_type msg) (m_message msg)) msgs
               end) /\
  compliant (utf8_decode (utf8_encode page)) = true /\
  (not_utf8 enc = false ->
   fixHtmlEncodingIfNeeded detect convert (world ran.2) outputPath None =
     (Resolved {| res_needFix := false; res_enc := js_or enc None |},
      log (DiagSkipped outputPath enc) (world ran.2))).
Proof.
  intros Hf Hm outputPath page ran enc.
  assert (ran = (Returned page,
                 warn_messages baseName (default [] (messages result))
                   (on_world (writeFile outputPath (utf8_encode page)) m))) as ->.
  { subst ran. unfold wordToHtml. by rewrite Hf, Hm. }
  cbn [fst snd]. rewrite warn_messages_world. cbn [on_world world].
  assert (compliant (utf8_decode (utf8_encode page)) = true) as Hc.
  { rewrite compliant_roundtrip. apply word_page_compliant. }
  split_and!; [done|done| |done|].
  - destruct (warn_messages_trace baseName (default [] (messages result))
                (on_world (writeFile outputPath (utf8_encode page)) m)) as (evs & Ht & Hr).
    exists evs. split; [exact Ht|]. rewrite Hr. by destruct (default [] (messages result)).
  - intros Hn. apply fix_skips_compliant; [|done|done].
    cbn [writeFile files]. apply lookup_insert_eq.
Qed.
End Pages.

(** * [htmlToPdf] *)

Section Printing.
Variable detect : bytes -> label.
Variable convert : bytes -> string -> jsstring.
Variable resolve : jsstring -> jsstring -> string.
Variable puppeteer : Puppeteer.

(** The function on an existing page: the normaliser, the second read,
    and the browser between [launch] and [close]. *)
Lemma htmlToPdf_existing (m : Machine) (baseName inputDir outputDir : jsstring) (bs : bytes) :
  let inputPath := resolve inputDir (baseName ++ lit ".html") in
  let outputPath := resolve outputDir (baseName ++ lit ".pdf") in
  files (world m) !! inputPath = Some bs ->
  let n := normalize detect convert None bs in
  let html := utf8_decode (if needFix n then utf8_encode (content n) else bs) in
  let m1 := on_world
              (fun _ => (fixHtmlEncodingIfNeeded detect convert (world m) inputPath None).2)
              m in
  htmlToPdf detect convert resolve puppeteer m baseName inputDir outputDir =
    if negb (launch puppeteer) then (Threw (LibraryError PuppeteerLib), m1)
    else
      let p := print_page puppeteer html outputPath (emit Launched m1) in
      (if close puppeteer then p.1 else Threw (LibraryError PuppeteerLib), emit Closed p.2).
Proof.
  intros inputPath outputPath Hf n html m1.
  pose proof (stored_after detect convert (world m) inputPath None bs Hf) as Hs.
  cbv zeta in Hs. unfold htmlToPdf. fold inputPath outputPath.
  pose proof (fix_existing detect convert (world m) inputPath None bs Hf) as He.
  cbv zeta in He. subst m1.
  destruct (fixHtmlEncodingIfNeeded detect convert (world m) inputPath None) as [r w1].
  injection He as -> _. cbn [snd] in Hs |- *. cbn [on_world world]. rewrite Hs.
  fold n html. destruct (launch puppeteer); cbn [negb]; [|done].
  destruct (print_page puppeteer html outputPath _) as [r p].
  by destruct (close puppeteer).
Qed.

(** X8: the [finally] of [htmlToPdf]. Whatever fails and wherever, the
    browser effects that a call adds are none at all (the page is missing
    or the launch is rejected) or begin with the launch and end with the
    close, with neither of the two in between. *)
Theorem browser_closed_whenever_launched (m : Machine)
    (baseName inputDir outputDir : jsstring) :
  let ran := htmlToPdf detect convert resolve puppeteer m baseName inputDir outputDir in
  exists evs,
    trace ran.2 = evs ++ trace m /\
    (evs = [] \/
     exists mid, evs = Closed :: mid ++ [Launched] /\
                 Forall (fun e => e <> Launched /\ e <> Closed) mid).
Proof.
  cbv zeta.
  destruct (files (world m) !! resolve inputDir (baseName ++ lit ".html")) as [bs|] eqn:Hf.
  - rewrite (htmlToPdf_existing m baseName inputDir outputDir bs Hf). cbv zeta.
    destruct (launch puppeteer); cbn [negb]; [|exists []; split; [done|by left]].
    cbn [snd emit trace].
    edestruct print_page_trace as (evs & -> & Hm & _).
    exists (Closed :: evs ++ [Launched]). split.
    + cbn [emit trace on_world app]. by rewrite <- app_assoc.
    + right. by exists evs.
  - rewrite htmlToPdf_missing by done. exists []. split; [done|by left].
Qed.

(** X9: the page that [htmlToPdf] hands to the browser passes the four
    tests of the normaliser, whatever the file held and whatever the
    classifier and the transcoder do; and when the call resolves, the
    file under the [.pdf] name is the print of that page. *)
Theorem browser_gets_compliant_page (m : Machine)
    (baseName inputDir outputDir : jsstring) :
  let outputPath := resolve outputDir (baseName ++ lit ".pdf") in
  let ran := htmlToPdf detect convert resolve puppeteer m baseName inputDir outputDir in
  exists evs,
    trace ran.2 = evs ++ trace m /\
    (forall html, ContentSet html ∈ evs -> compliant html = true) /\
    (ran.1 = Returned tt ->
     exists html data,
       ContentSet html ∈ evs /\ pdf puppeteer html = Some data /\
       files (world ran.2) !! outputPath = Some data).
Proof.
  cbv zeta.
  destruct (files (world m) !! resolve inputDir (baseName ++ lit ".html")) as [bs|] eqn:Hf.
  - rewrite (htmlToPdf_existing m baseName inputDir outputDir bs Hf). cbv zeta.
    pose proof (stored_compliant detect convert (world m) _ None bs Hf) as Hc.
    cbv zeta in Hc.
    destruct (launch puppeteer); cbn [negb].
    2:{ exists []. split_and!; [done|by intros h ?%elem_of_nil|done]. }
    cbn [fst snd emit trace world].
    edestruct print_page_trace as (evs & Ht & _ & Hh & Hr).
    exists (Closed :: evs ++ [Launched]). split_and!.
    + rewrite Ht. cbn [emit trace on_world app]. by rewrite <- app_assoc.
    + intros h [?|[?%Hh|?%list_elem_of_singleton]%elem_of_app]%elem_of_cons;
        [done|by subst h|done].
    + destruct (close puppeteer); [|done]. intros (data & Hin & Hp & Hd)%Hr.
      eexists _, data. split_and!; [|exact Hp|exact Hd].
      apply elem_of_cons. right. apply elem_of_app. by left.
  - rewrite htmlToPdf_missing by done.
    exists []. split_and!; [done|by intros h ?%elem_of_nil|done].
Qed.
End Printing.

(** * The script: failures and the files it touches *)

Section ScriptFacts.
Variable detect : bytes -> label.
Variable convert : bytes -> string -> jsstring.
Variable resolve : jsstring -> jsstring -> string.
Variable marked : jsstring -> jsstring.
Variable convertToHtml : bytes -> gmap string optval -> option mammoth_result.
Variable puppeteer : Puppeteer.
Variable parse : jsstring -> parsed.
Variable dataDir : jsstring.

Local Abbreviation script_ :=
  (script detect convert resolve marked convertToHtml puppeteer parse dataDir).

(** X10: a script whose argument selects a converter opens the file named
    by the base name and the extension that the converter appends ([.md],
    [.docx], [.html]), not the argument as typed. When that file is
    missing the script prints its four lines and the banner, reports the
    error and exits with 1; no file is written and the browser is not
    launched. *)
Theorem missing_input_exits_with_1 (argFileName : jsstring) (m : Machine)
    (c : converter) (baseName : jsstring) :
  run parse (Some argFileName) = Convert c baseName ->
  let path := resolve dataDir (baseName ++ input_ext c) in
  files (world m) !! path = None ->
  let ran := script_ (Some argFileName) m in
  ran.1 = 1 /\
  world ran.2 = world m /\
  trace ran.2 =
    SayCaught (FsError (ENOENT path)) :: SayBanner c baseName
    :: trace (announced dataDir argFileName baseName (ext_of parse argFileName) m).
Proof.
  intros Hr path Hf ran. subst ran path. unfold run in Hr.
  destruct argFileName as [|x a]; [discriminate|].
  unfold main, ext_of in Hr. unfold script, ext_of.
  set (ext := toLowerCase (p_ext (parse (x :: a)))) in *.
  destruct (jsstring_eqb ext (lit ".md")).
  { injection Hr as <- <-. unfold convert_with. cbn [input_ext] in Hf.
    by rewrite mdToHtml_missing. }
  destruct (jsstring_eqb ext (lit ".docx")).
  { injection Hr as <- <-. unfold convert_with. cbn [input_ext] in Hf.
    by rewrite wordToHtml_missing. }
  destruct (jsstring_eqb ext (lit ".html") || jsstring_eqb ext (lit ".htm")); [|discriminate].
  injection Hr as <- <-. unfold convert_with. cbn [input_ext] in Hf.
  by rewrite htmlToPdf_missing.
Qed.

(** X11: whatever its argument and whatever happens, the script changes
    no file other than the two it names from the base name, [.html] and
    [.pdf] in the data directory. *)
Theorem script_touches_only_its_outputs (arg : option jsstring) (m : Machine)
    (other : string) :
  let baseName := match arg with
                  | Some argFileName => p_name (parse argFileName)
                  | None => []
                  end in
  other <> resolve dataDir (baseName ++ lit ".html") ->
  other <> resolve dataDir (baseName ++ lit ".pdf") ->
  files (world (script_ arg m).2) !! other = files (world m) !! other.
Proof.
  intros baseName Hh Hp. unfold script.
  destruct arg as [[|x a]|]; [done| |done]. subst baseName.
  set (baseName := p_name (parse (x :: a))) in *.
  set (ext := toLowerCase (p_ext (parse (x :: a)))).
  set (m0 := emit (SayDataDir dataDir) _).
  assert (world m0 = world m) as Hw by done. clearbody m0.
  unfold convert_with.
  destruct (jsstring_eqb ext (lit ".md")).
  { unfold mdToHtml. cbn [emit world].
    destruct (files (world m0) !! _) as [buffer|]; cbn [snd emit on_world world];
      rewrite ?Hw; [|done].
    cbn [writeFile files]. rewrite lookup_insert_ne by done. by rewrite ?Hw. }
  destruct (jsstring_eqb ext (lit ".docx")).
  { unfold wordToHtml. cbn [emit world].
    destruct (files (world m0) !! _) as [docx|]; cbn [snd emit world]; rewrite ?Hw; [|done].
    destruct (convertToHtml docx _) as [result|]; cbn [snd emit world]; rewrite ?Hw; [|done].
    rewrite warn_messages_world. cbn [on_world emit world writeFile files].
    rewrite lookup_insert_ne by done. by rewrite ?Hw. }
  destruct (jsstring_eqb ext (lit ".html") || jsstring_eqb ext (lit ".htm"));
    [|by cbn [snd emit world]; rewrite Hw].
  set (m1 := emit (SayBanner HtmlToPdf baseName) m0).
  assert (world m1 = world m) as Hw1 by done. clearbody m1.
  assert (files (world (htmlToPdf detect convert resolve puppeteer m1 baseName
                          dataDir dataDir).2) !! other = files (world m) !! other) as Hfr.
  { destruct (files (world m1) !! resolve dataDir (baseName ++ lit ".html"))
      as [bs|] eqn:Hf.
    - rewrite (htmlToPdf_existing detect convert resolve puppeteer m1 baseName
                 dataDir dataDir bs Hf). cbv zeta.
      destruct (launch puppeteer); cbn [negb snd emit world on_world].
      + rewrite print_page_frame by done. cbn [emit world on_world].
        rewrite fix_files_frame by done. by rewrite Hw1.
      + rewrite fix_files_frame by done. by rewrite Hw1.
    - rewrite htmlToPdf_missing by done. cbn [snd on_world world]. by rewrite Hw1. }
  destruct (htmlToPdf _ _ _ _ m1 _ _ _) as [[[]|err] m2]; exact Hfr.
Qed.
End ScriptFacts.

(** * The converters and the script at sample inputs *)

(** X6 at a sample: a Markdown note with a front-matter block, a
    classifier that answers UTF8. *)
Lemma markdown_page_needs_no_repair_witness :
  let detect := always (Some "UTF8"%string) in
  let m := fresh {[ "data/note.md"%string := note_md ]} in
  let outputPath := join (lit "data") (lit "note" ++ lit ".html") in
  let page := md_page (lit "note") (paragraph (preprocessMarkdown (utf8_decode note_md))) in
  let ran := mdToHtml join paragraph m (lit "note") (lit "data") (lit "data") in
  let enc := classify detect None (utf8_encode page) in
  ran.1 = Returned page /\
  files (world ran.2) !! outputPath = Some (utf8_encode page) /\
  compliant (utf8_decode (utf8_encode page)) = true /\
  (not_utf8 enc = false ->
   fixHtmlEncodingIfNeeded detect bytewise (world ran.2) outputPath None =
     (Resolved {| res_needFix := false; res_enc := js_or enc None |},
      log (DiagSkipped outputPath enc) (world ran.2))).
Proof.
  apply (markdown_page_needs_no_repair (always (Some "UTF8"%string)) bytewise join paragraph
           (fresh {[ "data/note.md"%string := note_md ]})
           (lit "note") (lit "data") (lit "data") note_md).
  vm_compute. reflexivity.
Defined.

(** The body of that page: the block is gone, the title is left. *)
Example markdown_page_body :
  preprocessMarkdown (utf8_decode note_md) = lit "# " ++ [0x3042]
  /\ hasEsc (utf8_encode (md_page (lit "note")
                            (paragraph (preprocessMarkdown (utf8_decode note_md))))) = false.
Proof. split; vm_compute; reflexivity. Qed.

(** X7 at a sample: a document that comes with one message. *)
Lemma word_page_needs_no_repair_witness :
  let detect := always (Some "UTF8"%string) in
  let m := fresh {[ "data/report.docx"%string := bare_text ]} in
  let outputPath := join (lit "data") (lit "report" ++ lit ".html") in
  let page := word_page (lit "report") (lit "<h1>" ++ utf8_decode bare_text ++ lit "</h1>") in
  let ran := wordToHtml join one_warning m (lit "report") (lit "data") (lit "data") ∅ in
  let enc := classify detect None (utf8_encode page) in
  ran.1 = Returned page /\
  world ran.2 = writeFile outputPath (utf8_encode page) (world m) /\
  (exists evs,
     trace ran.2 = evs ++ trace m /\
     rev evs = [WarnHeader (lit "report");
                WarnMessage (lit "warning") (lit "unrecognised style")]) /\
  compliant (utf8_decode (utf8_encode page)) = true /\
  (not_utf8 enc = false ->
   fixHtmlEncodingIfNeeded detect bytewise (world ran.2) outputPath None =
     (Resolved {| res_needFix := false; res_enc := js_or enc None |},
      log (DiagSkipped outputPath enc) (world ran.2))).
Proof.
  apply (word_page_needs_no_repair (always (Some "UTF8"%string)) bytewise join one_warning
           (fresh {[ "data/report.docx"%string := bare_text ]})
           (lit "report") (lit "data") (lit "data") ∅ bare_text
           {| value := lit "<h1>" ++ utf8_decode bare_text ++ lit "</h1>";
              messages := Some [ {| m_type := lit "warning";
                                    m_message := lit "unrecognised style" |} ] |}).
  - vm_compute. reflexivity.
  - reflexivity.
Defined.

(** X10 at a sample: the argument [Report.HTM] names a file that exists,
    but the converter opens [Report.html], which does not. *)
Lemma missing_input_exits_with_1_witness :
  let m := fresh {[ "data/Report.HTM"%string := compliant_page ]} in
  let path := join (lit "data") (lit "Report" ++ input_ext HtmlToPdf) in
  let ran := script (always None) bytewise join paragraph no_mammoth working_browser
               split_ext (lit "data") (Some (lit "Report.HTM")) m in
  ran.1 = 1 /\
  world ran.2 = world m /\
  trace ran.2 =
    SayCaught (FsError (ENOENT path)) :: SayBanner HtmlToPdf (lit "Report")
    :: trace (announced (lit "data") (lit "Report.HTM") (lit "Report")
                (ext_of split_ext (lit "Report.HTM")) m).
Proof.
  apply (missing_input_exits_with_1 (always None) bytewise join paragraph no_mammoth
           working_browser split_ext (lit "data") (lit "Report.HTM")
           (fresh {[ "data/Report.HTM"%string := compliant_page ]})
           HtmlToPdf (lit "Report")).
  - vm_compute. reflexivity.
  - vm_compute. reflexivity.
Defined.

(** X11 at a sample: converting [note.md] leaves [note.md] as it was. *)
Lemma script_touches_only_its_outputs_witness :
  let m := fresh {[ "data/note.md"%string := note_md ]} in
  files (world (script (always None) bytewise join paragraph no_mammoth working_browser
                  split_ext (lit "data") (Some (lit "note.md")) m).2) !! "data/note.md"%string
  = files (world m) !! "data/note.md"%string.
Proof.
  apply (script_touches_only_its_outputs (always None) bytewise join paragraph no_mammoth
           working_browser split_ext (lit "data") (Some (lit "note.md"))
           (fresh {[ "data/note.md"%string := note_md ]}) "data/note.md"%string).
  - intros H. vm_compute in H. discriminate H.
  - intros H. vm_compute in H. discriminate H.
Defined.

(** The whole run on that note: the page is written and the script exits
    with 0. *)
Example script_converts_note :
  let m := fresh {[ "data/note.md"%string := note_md ]} in
  let ran := script (always None) bytewise join paragraph no_mammoth working_browser
               split_ext (lit "data") (Some (lit "note.md")) m in
  ran.1 = 0 /\
  files (world ran.2) !! "data/note.html"%string
  = Some (utf8_encode (md_page (lit "note") (paragraph (lit "# " ++ [0x3042])))) /\
  hd_error (trace ran.2) = Some (SayDone MdToHtml).
Proof. split_and!; vm_compute; reflexivity. Qed.

(** * [preprocessMarkdown]: the leading white space *)

Lemma trim_start_split (s : jsstring) :
  exists ws, s = ws ++ trim_start s /\ forallb is_space ws = true /\
             starts_black (trim_start s) = true.
Proof.
  induction s as [|x s (ws & Hs & Hws & Hb)]; [by exists []|].
  cbn [trim_start]. destruct (is_space x) eqn:Hx.
  - exists (x :: ws). cbn [app forallb]. rewrite Hx, Hws. by rewrite <- Hs.
  - exists []. cbn [app forallb starts_black]. by rewrite Hx.
Qed.

(** Without the [m] flag, [^] matches nowhere inside the text. *)
Lemma search_bol_inside ic its c (s : jsstring) pos :
  search ic false (Bol :: its) (Some c) s pos = None.
Proof.
  revert c pos. induction s as [|x s IH]; intros c pos; [done|].
  cbn [search m_items at_bol andb]. apply IH.
Qed.

(** Step 4 removes the white space the text starts with. *)
Lemma replace_leading_space (s : jsstring) :
  replace re_leading_space (RString []) s = trim_start s.
Proof.
  unfold replace, replace_first, exec. cbn [re_leading_space re_g re_i re_m re_items].
  destruct s as [|x s]; [done|].
  cbn [search m_items plus at_bol rep_greedy cs_mem can_take andb Nat.eqb Nat.pred dec
       option_map trim_start].
  destruct (is_space x) eqn:Hx; cbn [andb].
  - destruct (trim_start_split s) as (ws & Hs & Hws & Hb).
    rewrite Hs at 1. rewrite (rep_greedy_spaces false ws _ (Some x) 1 Hws Hb).
    cbn [or_else expand concat map take app].
    change (drop (1 + length ws) (x :: s)) with (drop (length ws) s).
    rewrite Hs at 1. by rewrite drop_app_length.
  - by rewrite search_bol_inside.
Qed.

(** No pattern of the first three steps matches in a text of white space:
    each asks for a hyphen, a letter or a number sign. *)
Lemma search_blank ic ml its p (s : jsstring) pos :
  (forall p s pos, forallb is_space s = true -> m_items ic ml its p s pos = None) ->
  forallb is_space s = true -> search ic ml its p s pos = None.
Proof.
  intros Hm. revert p pos. induction s as [|x s IH]; intros p pos Hs; cbn [search].
  - by rewrite Hm.
  - rewrite Hm by done. cbn [forallb] in Hs. apply andb_true_iff in Hs as [_ Hs].
    by apply IH.
Qed.

Lemma space_not_graphic ic (x c : Z) :
  is_space x = true -> 33 <= c <= 126 -> (canon ic x =? canon ic c) = false.
Proof.
  intros Hx Hc. apply Z.eqb_neq. unfold is_space in Hx. unfold canon.
  destruct (ic && (97 <=? x) && (x <=? 122)) eqn:E1;
    destruct (ic && (97 <=? c) && (c <=? 122)) eqn:E2; lia.
Qed.

Lemma rep_greedy_blank ic (k : cont) lo hi p (s : jsstring) pos :
  (forall p s pos, forallb is_space s = true -> k p s pos = None) ->
  forallb is_space s = true -> rep_greedy ic k CSpace lo hi p s pos = None.
Proof.
  intros Hk. revert lo hi p pos. induction s as [|x s IH]; intros lo hi p pos Hs.
  - cbn [rep_greedy]. destruct (Nat.eqb lo 0); [by apply Hk|done].
  - cbn [rep_greedy]. rewrite (Hk p (x :: s) pos Hs).
    cbn [forallb] in Hs. apply andb_true_iff in Hs as [_ Hs'].
    rewrite (IH _ _ _ _ Hs'). by destruct (Nat.eqb lo 0), (cs_mem ic CSpace x && can_take hi).
Qed.

Lemma m_items_bol ic ml its p (s : jsstring) pos :
  m_items ic ml (Bol :: its) p s pos = if at_bol ml p then m_items ic ml its p s pos else None.
Proof. reflexivity. Qed.

Lemma m_items_greedy ic ml cs lo hi its :
  m_items ic ml (Rep cs lo hi true :: its) = rep_greedy ic (m_items ic ml its) cs lo hi.
Proof. reflexivity. Qed.

Lemma m_items_mark ic ml its : m_items ic ml (Mark :: its) = m_mark (m_items ic ml its).
Proof. reflexivity. Qed.

Lemma m_one_blank ic ml c its p (s : jsstring) pos :
  33 <= c <= 126 -> forallb is_space s = true ->
  m_items ic ml (One (CChar c) :: its) p s pos = None.
Proof.
  intros Hc Hs. destruct s as [|x s]; [done|].
  cbn [forallb] in Hs. apply andb_true_iff in Hs as [Hx _].
  cbn [m_items]. unfold m_one. cbn [cs_mem]. by rewrite space_not_graphic.
Qed.

Lemma blank_unmatched (re : regex) (s : jsstring) :
  re ∈ [re_front_matter; re_marp; re_heading] ->
  forallb is_space s = true -> test re s = false.
Proof.
  intros Hre Hs. unfold test, exec. rewrite search_blank; [done| |done].
  clear s Hs. intros p s pos Hs.
  apply elem_of_cons in Hre as [->|Hre]; [|apply elem_of_cons in Hre as [->|Hre]];
    [| |apply list_elem_of_singleton in Hre as ->].
  - change (re_items re_front_matter)
      with (Bol :: One (CChar 45) :: tail (tail (re_items re_front_matter))).
    rewrite m_items_bol. destruct (at_bol _ p); [|done]. apply m_one_blank; [lia|done].
  - change (re_items re_marp)
      with (Bol :: star CSpace :: One (CChar 109) :: drop 3 (re_items re_marp)).
    rewrite m_items_bol. destruct (at_bol _ p); [|done].
    unfold star. rewrite m_items_greedy. apply rep_greedy_blank; [|done].
    intros p' s' pos' Hs'. apply m_one_blank; [lia|done].
  - change (re_items re_heading)
      with (Bol :: Mark :: Rep (CChar 35) 1 (Some 6%nat) true :: drop 3 (re_items re_heading)).
    rewrite m_items_bol. destruct (at_bol _ p); [|done].
    rewrite m_items_mark, m_items_greedy. unfold m_mark.
    destruct s as [|x s]; [done|]. cbn [forallb] in Hs. apply andb_true_iff in Hs as [Hx _].
    cbn [rep_greedy cs_mem Nat.eqb].
    by rewrite (space_not_graphic _ x 35 Hx ltac:(lia)).
Qed.

(** X12: the text that [preprocessMarkdown] returns never starts with
    white space, and a text of white space alone (the empty text
    included) comes out empty. *)
Theorem preprocessMarkdown_leading_space (md : jsstring) :
  starts_black (preprocessMarkdown md) = true /\
  (forallb is_space md = true -> preprocessMarkdown md = []).
Proof.
  unfold preprocessMarkdown. rewrite replace_leading_space. split.
  - by destruct (trim_start_split
                   (replace re_heading (RString [PGroup1; PLit (lit " ")])
                      (replace re_marp (RString [])
                         (replace re_front_matter (RString []) md)))) as (_ & _ & _ & H).
  - intros Hs.
    rewrite (replace_unmatched re_front_matter), (replace_unmatched re_marp),
      (replace_unmatched re_heading) by (apply blank_unmatched; [set_solver|done]).
    clear -Hs. induction md as [|x md IH]; [done|].
    cbn [forallb] in Hs. apply andb_true_iff in Hs as [Hx Hs].
    cbn [trim_start]. rewrite Hx. by apply IH.
Qed.

(** * [preprocessMarkdown]: the length of the result *)

Lemma replace_from_length re r (whole : jsstring) p (s : jsstring) pos skip :
  Shrinking re r ->
  (length (replace_from re r whole p s pos skip) <= length s - skip)%nat.
Proof.
  intros Hsh. revert p pos skip. induction s as [|x s IH]; intros p pos skip.
  - destruct skip as [|skip]; cbn [replace_from]; [|cbn; lia].
    destruct (m_items _ _ _ p [] pos) as [[e ms]|] eqn:E; [|cbn; lia].
    pose proof (Hsh whole _ _ _ _ _ E) as Hl.
    apply m_items_bounded in E. cbn [length] in E.
    rewrite length_app. cbn [length]. lia.
  - destruct skip as [|skip]; cbn [replace_from].
    2:{ specialize (IH (Some x) (S pos) skip). cbn [length]. lia. }
    destruct (m_items _ _ _ p (x :: s) pos) as [[e ms]|] eqn:E.
    2:{ specialize (IH (Some x) (S pos) 0%nat). cbn [length]. lia. }
    pose proof (Hsh whole _ _ _ _ _ E) as Hl.
    apply m_items_bounded in E. cbn [length] in E.
    rewrite length_app. destruct (Nat.eqb e pos) eqn:Ee.
    + apply Nat.eqb_eq in Ee. specialize (IH (Some x) (S pos) 0%nat). cbn [length]. lia.
    + apply Nat.eqb_neq in Ee. specialize (IH (Some x) (S pos) (e - pos - 1)%nat).
      cbn [length]. lia.
Qed.

Lemma replace_length re r (s : jsstring) :
  Shrinking re r -> (length (replace re r s) <= length s)%nat.
Proof.
  intros Hsh. unfold replace, replace_all, replace_first. destruct (re_g re).
  - pose proof (replace_from_length re r s None s 0 0 Hsh). lia.
  - destruct (exec re s) as [[[i e] ms]|] eqn:E; [|done].
    pose proof (exec_span _ _ _ _ _ E) as Hspan.
    apply search_spec in E as (n & p' & -> & Hn & Hm).
    pose proof (Hsh s _ _ _ _ _ Hm) as Hl.
    rewrite !length_app, length_take, length_drop. lia.
Qed.

Lemma shrinking_removal re : Shrinking re (RString []).
Proof. intros whole p s pos e ms _. cbn. lia. Qed.

(** A match of a greedy quantifier is a match of what follows it, at least
    [lo] characters further. *)
Lemma rep_greedy_via ic (k : cont) cs lo hi p (s : jsstring) pos r :
  rep_greedy ic k cs lo hi p s pos = Some r ->
  exists p' s' pos', (pos + lo <= pos')%nat /\ k p' s' pos' = Some r.
Proof.
  revert lo hi p pos. induction s as [|x s IH]; intros lo hi p pos; cbn [rep_greedy].
  - destruct (Nat.eqb lo 0) eqn:El; [|done]. apply Nat.eqb_eq in El as ->.
    intros H. exists p, [], pos. split; [lia|done].
  - assert ((if Nat.eqb lo 0 then k p (x :: s) pos else None) = Some r ->
            exists p' s' pos', (pos + lo <= pos')%nat /\ k p' s' pos' = Some r) as Hstop.
    { destruct (Nat.eqb lo 0) eqn:El; [|done]. apply Nat.eqb_eq in El as ->.
      intros H. exists p, (x :: s), pos. split; [lia|done]. }
    destruct (cs_mem ic cs x && can_take hi); [|exact Hstop].
    destruct (rep_greedy ic k cs (Nat.pred lo) (dec hi) (Some x) s (S pos))
      as [r'|] eqn:E; cbn [or_else]; [|exact Hstop].
    intros [= ->]. apply IH in E as (p' & s' & pos' & Hp & Hk).
    exists p', s', pos'. split; [lia|done].
Qed.

(** The heading of step 3 is written back with one space: the number
    signs of the group and a space are shorter than the match. *)
Lemma shrinking_heading : Shrinking re_heading (RString [PGroup1; PLit (lit " ")]).
Proof.
  intros whole p s pos e ms.
  change (re_items re_heading)
    with ([Bol; Mark; Rep (CChar (chr "#")) 1 (Some 6%nat) true; Mark]
          ++ [plus CSpace; plus (CChar (chr "#")); plus CSpace]).
  cbn [app]. rewrite m_items_bol. destruct (at_bol _ p); [|done].
  rewrite m_items_mark, m_items_greedy, m_items_mark. unfold plus.
  rewrite !m_items_greedy. unfold m_mark at 1.
  destruct (rep_greedy _ _ _ _ _ p s pos) as [[e' ms']|] eqn:E; [|done].
  intros [= <- <-].
  apply rep_greedy_via in E as (p1 & s1 & pos1 & H1 & E). unfold m_mark in E.
  destruct (rep_greedy _ _ _ _ _ p1 s1 pos1) as [[e2 ms2]|] eqn:E2; [|done].
  injection E as <- <-.
  apply rep_greedy_via in E2 as (p2 & s2 & pos2 & H2 & E2).
  apply rep_greedy_via in E2 as (p3 & s3 & pos3 & H3 & E3).
  apply rep_greedy_via in E3 as (p4 & s4 & pos4 & H4 & E4).
  cbn [m_items] in E4. injection E4 as <- <-.
  cbn [expand map expand_part group1 concat]. unfold substring.
  rewrite !length_app, length_take. cbn [length lit]. lia.
Qed.

(** X13: [preprocessMarkdown] never returns a text longer than the one it
    is given: three steps remove what they match, and the heading step
    writes back less than it matched. *)
Theorem preprocessMarkdown_never_longer (md : jsstring) :
  (length (preprocessMarkdown md) <= length md)%nat.
Proof.
  unfold preprocessMarkdown.
  pose proof (replace_length re_front_matter (RString []) md (shrinking_removal _)) as H1.
  set (s1 := replace re_front_matter (RString []) md) in *.
  pose proof (replace_length re_marp (RString []) s1 (shrinking_removal _)) as H2.
  set (s2 := replace re_marp (RString []) s1) in *.
  pose proof (replace_length re_heading (RString [PGroup1; PLit (lit " ")]) s2
                shrinking_heading) as H3.
  set (s3 := replace re_heading _ s2) in *.
  pose proof (replace_length re_leading_space (RString []) s3 (shrinking_removal _)) as H4.
  lia.
Qed.

(** * [preprocessMarkdown]: a heading that repeats its number signs *)

Lemma rep_greedy_prev_free ic (k : cont) cs lo hi :
  PrevFree k -> PrevFree (rep_greedy ic k cs lo hi).
Proof. intros Hk p p' s pos. destruct s; cbn [rep_greedy]; by rewrite (Hk p p'). Qed.

Lemma m_mark_prev_free (k : cont) : PrevFree k -> PrevFree (m_mark k).
Proof. intros Hk p p' s pos. unfold m_mark. by rewrite (Hk p p'). Qed.

(** A greedy quantifier in front of a run of its characters takes the
    whole run when the rest of the pattern matches behind it. *)
Lemma rep_greedy_run ic (k : cont) cs lo hi p (run t : jsstring) pos r :
  PrevFree k ->
  forallb (cs_mem ic cs) run = true ->
  (lo <= length run)%nat ->
  match hi with Some h => (length run <= h)%nat | None => True end ->
  match t with y :: _ => cs_mem ic cs y = false | [] => True end ->
  k None t (pos + length run)%nat = Some r ->
  rep_greedy ic k cs lo hi p (run ++ t) pos = Some r.
Proof.
  intros Hk. revert lo hi p pos.
  induction run as [|x run IH]; intros lo hi p pos Hrun Hlo Hhi Ht Hr.
  - cbn [length] in *. assert (lo = 0%nat) as -> by lia.
    rewrite Nat.add_0_r in Hr. cbn [app].
    destruct t as [|y t]; cbn [rep_greedy Nat.eqb]; [by rewrite (Hk p None)|].
    rewrite Ht. cbn [andb]. by rewrite (Hk p None).
  - cbn [forallb] in Hrun. apply andb_true_iff in Hrun as [Hx Hrun].
    cbn [app rep_greedy length] in *. rewrite Hx.
    assert (can_take hi = true) as -> by (destruct hi as [[|h]|]; [lia|done|done]).
    cbn [andb]. rewrite (IH (Nat.pred lo) (dec hi) (Some x) (S pos)); [done|done|lia| |done|].
    + destruct hi as [h|]; cbn [dec option_map]; [lia|done].
    + by rewrite <- Hr, Nat.add_succ_r.
Qed.

Lemma hashes_run ic n : forallb (cs_mem ic (CChar (chr "#"))) (hashes n) = true.
Proof.
  induction n as [|n IH]; [done|]. cbn [hashes repeat forallb]. fold (hashes n).
  rewrite IH. by destruct ic.
Qed.

Lemma length_hashes n : length (hashes n) = n.
Proof. apply repeat_length. Qed.

Lemma space_not_hash ic (x : Z) : is_space x = true -> cs_mem ic (CChar (chr "#")) x = false.
Proof. intros Hx. cbn [cs_mem]. apply space_not_graphic; [done|by vm_compute]. Qed.

(** The pattern of step 3 on a heading that repeats its number signs:
    the whole opening is matched and the group is the first run. *)
Lemma heading_match (n k : nat) (ws1 ws2 rest : jsstring) p pos :
  (1 <= n <= 6)%nat -> (1 <= k)%nat ->
  ws1 <> [] -> forallb is_space ws1 = true ->
  ws2 <> [] -> forallb is_space ws2 = true ->
  starts_black rest = true ->
  at_bol true p = true ->
  m_items false true (re_items re_heading) p
    (hashes n ++ ws1 ++ hashes k ++ ws2 ++ rest) pos
  = Some ((pos + n + length ws1 + k + length ws2)%nat, [pos; (pos + n)%nat]).
Proof.
  intros Hn Hk Hw1 Hs1 Hw2 Hs2 Hrest Hbol.
  change (re_items re_heading)
    with ([Bol; Mark; Rep (CChar (chr "#")) 1 (Some 6%nat) true; Mark]
          ++ [plus CSpace; plus (CChar (chr "#")); plus CSpace]).
  cbn [app]. rewrite m_items_bol, Hbol.
  rewrite m_items_mark, m_items_greedy, m_items_mark. unfold plus.
  rewrite !m_items_greedy. cbn [m_items].
  set (kend := fun (_ : option Z) (_ : jsstring) (pos : nat) => Some (pos, @nil nat)).
  assert (PrevFree kend) as Hend by done.
  set (k1 := rep_greedy false kend CSpace 1 None).
  set (k2 := rep_greedy false k1 (CChar (chr "#")) 1 None).
  set (k3 := rep_greedy false k2 CSpace 1 None).
  assert (PrevFree k1) as Hk1 by by apply rep_greedy_prev_free.
  assert (PrevFree k2) as Hk2 by by apply rep_greedy_prev_free.
  assert (PrevFree k3) as Hk3 by by apply rep_greedy_prev_free.
  unfold m_mark at 1.
  rewrite (rep_greedy_run false (m_mark k3) (CChar (chr "#")) 1 (Some 6%nat) p (hashes n)
             _ pos ((pos + n + length ws1 + k + length ws2)%nat, [(pos + n)%nat])); [done|..].
  - by apply m_mark_prev_free.
  - apply hashes_run.
  - rewrite length_hashes. lia.
  - rewrite length_hashes. lia.
  - destruct ws1 as [|w ws1]; [done|]. cbn [app forallb] in *.
    apply andb_true_iff in Hs1 as [Hw _]. by apply space_not_hash.
  - rewrite length_hashes. unfold m_mark.
    rewrite (rep_greedy_run false k2 CSpace 1 None None ws1 _ (pos + n)%nat
               ((pos + n + length ws1 + k + length ws2)%nat, [])); [done|done|done| |done| |].
    + destruct ws1; [done|cbn [length]; lia].
    + destruct k as [|k]; [lia|]. cbn [hashes repeat app cs_mem]. done.
    + unfold k2.
      rewrite (rep_greedy_run false k1 (CChar (chr "#")) 1 None None (hashes k) _
                 (pos + n + length ws1)%nat
                 ((pos + n + length ws1 + k + length ws2)%nat, [])); [done|done|..].
      * apply hashes_run.
      * rewrite length_hashes. lia.
      * done.
      * destruct ws2 as [|w ws2]; [done|]. cbn [app forallb] in *.
        apply andb_true_iff in Hs2 as [Hw _]. by apply space_not_hash.
      * rewrite length_hashes. unfold k1.
        rewrite (rep_greedy_run false kend CSpace 1 None None ws2 _
                   (pos + n + length ws1 + k)%nat
                   ((pos + n + length ws1 + k + length ws2)%nat, [])); [done|done|done| |done| |done].
        -- destruct ws2; [done|cbn [length]; lia].
        -- destruct rest as [|y rest]; [done|]. cbn [starts_black] in Hrest.
           by apply negb_true_iff in Hrest.
Qed.

(** The characters of a match just replaced are passed over. *)
Lemma replace_from_skip re r (whole : jsstring) p (a b : jsstring) pos :
  exists p', replace_from re r whole p (a ++ b) pos (length a)
             = replace_from re r whole p' b (pos + length a)%nat 0.
Proof.
  revert p pos. induction a as [|x a IH]; intros p pos.
  - exists p. cbn [app length]. by rewrite Nat.add_0_r.
  - destruct (IH (Some x) (S pos)) as (p' & E). exists p'.
    cbn [app length replace_from]. by rewrite E, Nat.add_succ_r.
Qed.

(** A pattern that starts with [^]: whether it matches from a position
    on does not depend on the position counted, and it matches from the
    start of a text if it matches there after any character. *)
Lemma search_bol_shift ic ml its p (s : jsstring) pos pos' :
  Stable (m_items ic ml its) ->
  matched (search ic ml (Bol :: its) p s pos) = matched (search ic ml (Bol :: its) p s pos').
Proof.
  intros Hst.
  revert p pos pos'. induction s as [|x s IH]; intros p pos pos'; cbn [search].
  - rewrite !m_items_bol. destruct (at_bol ml p); [|done].
    specialize (Hst p p [] pos pos').
    by destruct (m_items ic ml its p [] pos) as [[]|],
                (m_items ic ml its p [] pos') as [[]|].
  - rewrite !m_items_bol. destruct (at_bol ml p); [|apply IH].
    specialize (Hst p p (x :: s) pos pos').
    destruct (m_items ic ml its p (x :: s) pos) as [[]|],
             (m_items ic ml its p (x :: s) pos') as [[]|]; first [done|apply IH].
Qed.

Lemma search_bol_start ic ml its p (s : jsstring) pos :
  Stable (m_items ic ml its) ->
  search ic ml (Bol :: its) None s pos = None ->
  search ic ml (Bol :: its) p s pos = None.
Proof.
  intros Hst.
  destruct s as [|x s]; cbn [search]; rewrite !m_items_bol; cbn [at_bol].
  - specialize (Hst None p [] pos pos).
    destruct (m_items ic ml its None [] pos) as [[]|]; [done|]. intros _.
    destruct (at_bol ml p); [|done]. by destruct (m_items ic ml its p [] pos) as [[]|].
  - specialize (Hst None p (x :: s) pos pos).
    destruct (m_items ic ml its None (x :: s) pos) as [[]|]; [done|]. intros H.
    destruct (at_bol ml p); [|done].
    by destruct (m_items ic ml its p (x :: s) pos) as [[]|].
Qed.

Lemma search_bol_none ic ml its p (s : jsstring) pos :
  Stable (m_items ic ml its) ->
  search ic ml (Bol :: its) None s 0 = None ->
  search ic ml (Bol :: its) p s pos = None.
Proof.
  intros Hst H. apply (search_bol_start _ _ _ p) in H; [|done].
  pose proof (search_bol_shift ic ml its p s pos 0 Hst) as Hs. rewrite H in Hs.
  by destruct (search ic ml (Bol :: its) p s pos).
Qed.

(** X14: a heading line that repeats its number signs. When the text
    starts with one to six number signs, white space, more number signs
    and white space again, and neither the front-matter pattern nor the
    directive pattern occurs in it nor the heading pattern in what
    follows, [preprocessMarkdown] keeps the first run of number signs,
    writes one space for everything up to the end of the second white
    space, and leaves what follows as it is. *)
Theorem preprocessMarkdown_heading (n k : nat) (ws1 ws2 rest : jsstring) :
  (1 <= n <= 6)%nat -> (1 <= k)%nat ->
  ws1 <> [] -> forallb is_space ws1 = true ->
  ws2 <> [] -> forallb is_space ws2 = true ->
  starts_black rest = true ->
  test re_heading rest = false ->
  let md := hashes n ++ ws1 ++ hashes k ++ ws2 ++ rest in
  test re_front_matter md = false ->
  test re_marp md = false ->
  preprocessMarkdown md = hashes n ++ lit " " ++ rest.
Proof.
  intros Hn Hk Hw1 Hs1 Hw2 Hs2 Hrest Hnone md Hfm Hmarp. unfold preprocessMarkdown.
  rewrite (replace_unmatched re_front_matter), (replace_unmatched re_marp) by done.
  assert (replace re_heading (RString [PGroup1; PLit (lit " ")]) md
          = hashes n ++ lit " " ++ rest) as ->.
  { unfold replace, replace_all. change (re_g re_heading) with true. cbv iota.
    pose proof (heading_match n k ws1 ws2 rest None 0 Hn Hk Hw1 Hs1 Hw2 Hs2 Hrest eq_refl)
      as Hm.
    fold md in Hm. cbn [Nat.add] in Hm.
    destruct n as [|n]; [lia|]. subst md. cbn [hashes repeat app] in *. fold (hashes n) in *.
    set (e := (S n + length ws1 + k + length ws2)%nat) in Hm.
    cbn [replace_from]. change (re_i re_heading) with false.
    change (re_m re_heading) with true. rewrite Hm.
    assert (Nat.eqb e 0 = false) as -> by (apply Nat.eqb_neq; subst e; lia).
    cbn [expand map expand_part group1 concat]. unfold substring.
    rewrite Nat.sub_0_r, drop_0.
    replace (take (S n) (chr "#" :: hashes n ++ ws1 ++ hashes k ++ ws2 ++ rest))
      with (chr "#" :: hashes n)
      by (cbn [take]; f_equal; by rewrite take_app_length' by by rewrite length_hashes).
    rewrite app_nil_r, <- app_assoc. cbn [app]. do 2 f_equal.
    replace (hashes n ++ ws1 ++ hashes k ++ ws2 ++ rest)
      with ((hashes n ++ ws1 ++ hashes k ++ ws2) ++ rest) by by rewrite <- !app_assoc.
    replace (e - 0 - 1)%nat
      with (length (hashes n ++ ws1 ++ hashes k ++ ws2))
      by (subst e; rewrite !length_app, !length_hashes; lia).
    destruct (replace_from_skip re_heading
                (RString [PGroup1; PLit (lit " ")])
                (chr "#" :: (hashes n ++ ws1 ++ hashes k ++ ws2) ++ rest) (Some (chr "#"))
                (hashes n ++ ws1 ++ hashes k ++ ws2) rest 1) as (p' & ->).
    f_equal. apply replace_from_none.
    apply search_bol_none; [by apply m_items_stable|].
    unfold test, exec in Hnone.
    by destruct (search _ _ _ None rest 0). }
  rewrite replace_leading_space. destruct n as [|n]; [lia|]. done.
Qed.

(** X14 at the example of the source: [## ### **Q1**]. *)
Lemma preprocessMarkdown_heading_witness :
  preprocessMarkdown (lit "## ### **Q1**") = lit "## **Q1**".
Proof.
  apply (preprocessMarkdown_heading 2 3 (lit " ") (lit " ") (lit "**Q1**"));
    first [lia | done | vm_compute; reflexivity].
Defined.

(** The white space of the pattern takes line ends as well: a heading
    that is empty but for its number signs is joined with the heading
    that follows it. *)
Example heading_across_lines :
  preprocessMarkdown (lit "##" ++ [nl; nl] ++ lit "### Title" ++ [nl] ++ lit "text")
  = lit "## Title" ++ [nl] ++ lit "text".
Proof. vm_compute. reflexivity. Qed.

(** * What is written is what is read back *)

(** A well-formed text written as UTF-8 is read back as it was. *)
Lemma utf8_roundtrip (s : jsstring) :
  well_formed s = true -> utf8_decode (utf8_encode s) = s.
Proof.
  remember (length s) as n eqn:Hn. revert s Hn.
  induction n as [n IH] using lt_wf_ind. intros s Hn Hwf.
  destruct s as [|u rest]; [done|].
  assert (forall t, (length t < n)%nat -> well_formed t = true ->
                    utf8_decode (utf8_encode t) = t)
    as IH' by (intros t Ht; by eapply IH).
  cbn [length] in Hn. cbn [well_formed] in Hwf.
  rewrite utf8_encode_cons.
  destruct (in_range 0xD800 0xDBFF u) eqn:E3.
  { apply in_range_spec in E3.
    rewrite (in_range_false 0 0x7F), (in_range_false 0x80 0x7FF) by lia.
    destruct rest as [|v rest']; [done|].
    apply andb_true_iff in Hwf as [E4 Hwf]. rewrite E4.
    apply in_range_spec in E4. cbv zeta.
    rewrite utf8_decode_4.
    - cbv zeta. rewrite IH' by (cbn [length] in *; done || lia).
      f_equal; [div_mod_lia|]. f_equal. div_mod_lia.
    - div_mod_lia.
    - destruct (Z.eqb_spec (0xF0 + (0x10000 + (u - 0xD800) * 1024 + (v - 0xDC00)) / 262144) 0xF0),
        (Z.eqb_spec (0xF0 + (0x10000 + (u - 0xD800) * 1024 + (v - 0xDC00)) / 262144) 0xF4);
        div_mod_lia.
    - div_mod_lia.
    - div_mod_lia. }
  apply in_range_spec_false in E3.
  apply andb_true_iff in Hwf as [[E0 E5]%andb_true_iff Hwf].
  apply in_range_spec in E0. apply negb_true_iff, in_range_spec_false in E5.
  destruct (in_range 0 0x7F u) eqn:E1.
  { rewrite utf8_decode_ascii by done. f_equal. apply IH'; [lia|done]. }
  apply in_range_spec_false in E1.
  destruct (in_range 0x80 0x7FF u) eqn:E2.
  { apply in_range_spec in E2.
    rewrite utf8_decode_2 by div_mod_lia.
    rewrite IH' by (done || lia). f_equal. div_mod_lia. }
  apply in_range_spec_false in E2.
  rewrite (in_range_true 0x800 0xFFFF) by lia.
  rewrite (in_range_false 0xDC00 0xDFFF) by lia. cbn [negb andb].
  rewrite utf8_decode_3.
  - rewrite IH' by (done || lia). f_equal. div_mod_lia.
  - div_mod_lia.
  - destruct (Z.eqb_spec (0xE0 + u / 4096) 0xE0), (Z.eqb_spec (0xE0 + u / 4096) 0xED);
      div_mod_lia.
  - div_mod_lia.
Qed.

(** * From Markdown to PDF *)

Section Pipeline.
Variable detect : bytes -> label.
Variable convert : bytes -> string -> jsstring.
Variable resolve : jsstring -> jsstring -> string.
Variable marked : jsstring -> jsstring.
Variable puppeteer : Puppeteer.

Lemma normalize_skips forceEnc (stored : bytes) :
  compliant (utf8_decode stored) = true ->
  not_utf8 (classify detect forceEnc stored) = false ->
  needFix (normalize detect convert forceEnc stored) = false.
Proof.
  intros Hc Hn. rewrite normalize_needFix. cbv zeta.
  rewrite transcode_utf8 by done. cbn [fst snd orb]. by rewrite Hc.
Qed.

(** X15: [mdToHtml] followed by [htmlToPdf] on the same base name and
    directory. When the page built from the Markdown is well-formed
    UTF-16 and the normaliser takes its bytes for UTF-8 or for nothing,
    [htmlToPdf] leaves the [.html] file as [mdToHtml] wrote it, the only
    text it hands to the browser is that page, character for character,
    and when it resolves the [.pdf] file is the print of that page. *)
Theorem markdown_to_pdf_prints_the_page (m : Machine) (baseName dir : jsstring)
    (buffer : bytes) :
  let htmlPath := resolve dir (baseName ++ lit ".html") in
  let pdfPath := resolve dir (baseName ++ lit ".pdf") in
  let page := md_page baseName (marked (preprocessMarkdown (utf8_decode buffer))) in
  files (world m) !! resolve dir (baseName ++ lit ".md") = Some buffer ->
  well_formed page = true ->
  not_utf8 (classify detect None (utf8_encode page)) = false ->
  pdfPath <> htmlPath ->
  let m1 := (mdToHtml resolve marked m baseName dir dir).2 in
  let ran := htmlToPdf detect convert resolve puppeteer m1 baseName dir dir in
  files (world ran.2) !! htmlPath = Some (utf8_encode page) /\
  exists evs,
    trace ran.2 = evs ++ trace m /\
    (forall html, ContentSet html ∈ evs -> html = page) /\
    (ran.1 = Returned tt -> files (world ran.2) !! pdfPath = pdf puppeteer page).
Proof.
  intros htmlPath pdfPath page Hf Hwf Hn Hne m1 ran.
  assert (m1 = on_world (writeFile htmlPath (utf8_encode page)) m) as Hm1.
  { subst m1. by rewrite (mdToHtml_existing _ _ _ _ _ _ buffer Hf). }
  assert (files (world m1) !! htmlPath = Some (utf8_encode page)) as Hs.
  { rewrite Hm1. cbn [on_world world writeFile files]. apply lookup_insert_eq. }
  assert (compliant (utf8_decode (utf8_encode page)) = true) as Hc.
  { rewrite compliant_roundtrip. apply md_page_compliant. }
  assert (trace m1 = trace m) as Ht by by rewrite Hm1.
  subst ran.
  rewrite (htmlToPdf_existing detect convert resolve puppeteer m1 baseName dir dir
             (utf8_encode page) Hs).
  cbv zeta. fold htmlPath pdfPath.
  rewrite (normalize_skips None (utf8_encode page) Hc Hn), (utf8_roundtrip page Hwf).
  rewrite (fix_skips_compliant detect convert (world m1) htmlPath None _ Hs Hc Hn).
  cbn [snd]. clearbody m1.
  destruct (launch puppeteer); cbn [negb fst snd].
  2:{ cbn [on_world world trace log files]. split; [done|]. exists [].
      split_and!; [done|by intros h ?%elem_of_nil|done]. }
  cbn [emit world]. rewrite print_page_frame by done. cbn [emit on_world world log files].
  split; [done|].
  edestruct (print_page_trace puppeteer page pdfPath) as (evs & Hev & _ & Hh & Hr).
  exists (Closed :: evs ++ [Launched]). split_and!.
  - cbn [emit trace]. rewrite Hev. cbn [emit on_world trace app].
    by rewrite Ht, <- app_assoc.
  - intros h [?|[?%Hh|?%list_elem_of_singleton]%elem_of_app]%elem_of_cons; done.
  - destruct (close puppeteer); [|done]. intros (data & _ & Hp & Hd)%Hr.
    by rewrite Hp, <- Hd.
Qed.
End Pipeline.

(** X15 at a sample: the note of the examples, a classifier that answers
    UTF8 and a browser in which every call resolves. *)
Lemma markdown_to_pdf_prints_the_page_witness :
  let detect := always (Some "UTF8"%string) in
  let m := fresh {[ "data/note.md"%string := note_md ]} in
  let page := md_page (lit "note") (paragraph (preprocessMarkdown (utf8_decode note_md))) in
  let m1 := (mdToHtml join paragraph m (lit "note") (lit "data") (lit "data")).2 in
  let ran := htmlToPdf detect bytewise join working_browser m1
               (lit "note") (lit "data") (lit "data") in
  files (world ran.2) !! join (lit "data") (lit "note" ++ lit ".html")
  = Some (utf8_encode page) /\
  exists evs,
    trace ran.2 = evs ++ trace m /\
    (forall html, ContentSet html ∈ evs -> html = page) /\
    (ran.1 = Returned tt ->
     files (world ran.2) !! join (lit "data") (lit "note" ++ lit ".pdf")
     = pdf working_browser page).
Proof.
  apply (markdown_to_pdf_prints_the_page (always (Some "UTF8"%string)) bytewise join
           paragraph working_browser (fresh {[ "data/note.md"%string := note_md ]})
           (lit "note") (lit "data") note_md).
  - vm_compute. reflexivity.
  - vm_compute. reflexivity.
  - vm_compute. reflexivity.
  - intros H. vm_compute in H. discriminate H.
Defined.

(** * [preprocessMarkdown]: a directive line *)

Lemma rep_lazy_prev_free ic (k : cont) cs lo hi :
  PrevFree k -> PrevFree (rep_lazy ic k cs lo hi).
Proof. intros Hk p p' s pos. destruct s; cbn [rep_lazy]; by rewrite (Hk p p'). Qed.

Lemma m_items_prev_free ic ml its : bol_free its = true -> PrevFree (m_items ic ml its).
Proof.
  induction its as [|it its IH]; intros Hb; [done|].
  cbn [bol_free forallb] in Hb. apply andb_true_iff in Hb as [Hit Hb]. specialize (IH Hb).
  destruct it as [cs|cs lo hi [|]| | |]; cbn [m_items]; try done.
  - by apply rep_greedy_prev_free.
  - by apply rep_lazy_prev_free.
  - intros p p' s pos. by rewrite (IH p p').
  - by apply m_mark_prev_free.
Qed.

Lemma m_items_stable_bol_free ic ml its :
  bol_free its = true -> Stable (m_items ic ml its).
Proof.
  induction its as [|it its IH]; intros Hb; [done|].
  cbn [bol_free forallb] in Hb. apply andb_true_iff in Hb as [Hit Hb]. specialize (IH Hb).
  destruct it as [cs|cs lo hi [|]| | |]; cbn [m_items]; try done.
  - by apply m_one_stable.
  - by apply rep_greedy_stable.
  - by apply rep_lazy_stable.
  - intros p p' s pos pos'. destruct (at_eol ml s); [apply IH|done].
  - intros p p' s pos pos'. rewrite !m_mark_matched. apply IH.
Qed.

(** A word of the pattern, under the [i] flag, in front of the same word
    up to case. *)
Lemma m_items_word ml (w m : jsstring) its p (s : jsstring) pos :
  folds_to m w = true ->
  PrevFree (m_items true ml its) ->
  m_items true ml (map (fun c => One (CChar c)) w ++ its) p (m ++ s) pos
  = m_items true ml its None s (pos + length m)%nat.
Proof.
  intros Hf Hk. revert m p pos Hf. induction w as [|c w IH]; intros m p pos Hf.
  - destruct m; [|done]. cbn [map app length]. rewrite Nat.add_0_r. apply Hk.
  - destruct m as [|x m]; [done|]. cbn [folds_to] in Hf.
    apply andb_true_iff in Hf as [Hx Hf].
    cbn [map app m_items length]. unfold m_one. cbn [cs_mem]. rewrite Hx.
    change (m_items true ml (map (fun c => One (CChar c)) w ++ its) (Some x) (m ++ s) (S pos)
            = m_items true ml its None s (pos + S (length m))%nat).
    rewrite IH by done. by rewrite Nat.add_succ_r.
Qed.

Lemma line_terminator_space (t : Z) : is_line_terminator t = true -> is_space t = true.
Proof.
  unfold is_line_terminator, is_space. rewrite !orb_true_iff, !andb_true_iff.
  rewrite !Z.eqb_eq, !Z.leb_le. lia.
Qed.

Lemma black_not_terminator (y : Z) : is_space y = false -> is_line_terminator y = false.
Proof.
  intros Hy. destruct (is_line_terminator y) eqn:E; [|done].
  apply line_terminator_space in E. congruence.
Qed.

(** The first letter of a word of the pattern is not white space. *)
Lemma folds_to_black (m w : jsstring) c :
  folds_to m (c :: w) = true -> 33 <= c <= 126 ->
  match m ++ [] with y :: _ => is_space y = false | [] => True end.
Proof.
  intros Hf Hc. destruct m as [|x m]; [done|]. cbn [app].
  cbn [folds_to] in Hf. apply andb_true_iff in Hf as [Hx _].
  destruct (is_space x) eqn:E; [|done].
  by rewrite (space_not_graphic true x c E Hc) in Hx.
Qed.

(** The white space and the [$] that end the directive pattern: the white
    space taken stops in front of the last line end, unless the text ends
    there. *)
Lemma trailing_space_match (ws : jsstring) (t : Z) (rest : jsstring) p pos :
  forallb is_space ws = true -> is_line_terminator t = true -> starts_black rest = true ->
  rep_greedy true (m_items true true [Eol]) CSpace 0 None p (ws ++ t :: rest) pos
  = Some ((pos + length ws + match rest with [] => 1 | _ => 0 end)%nat, []).
Proof.
  intros Hws Ht Hrest. pose proof (line_terminator_space t Ht) as Hts.
  revert p pos. induction ws as [|w ws IH]; intros p pos.
  - cbn [app length rep_greedy cs_mem can_take andb Nat.eqb m_items at_eol].
    rewrite Hts, Ht. cbn [andb].
    destruct rest as [|y rest].
    + cbn [rep_greedy Nat.eqb Nat.pred m_items at_eol or_else]. do 2 f_equal. lia.
    + cbn [starts_black] in Hrest. apply negb_true_iff in Hrest.
      cbn [rep_greedy cs_mem Nat.eqb Nat.pred m_items at_eol]. rewrite Hrest.
      rewrite (black_not_terminator y Hrest). cbn [andb or_else]. do 2 f_equal. lia.
  - cbn [forallb] in Hws. apply andb_true_iff in Hws as [Hw Hws].
    cbn [app length rep_greedy cs_mem can_take Nat.pred dec option_map]. rewrite Hw.
    cbn [andb]. rewrite (IH Hws). cbn [or_else]. do 2 f_equal. lia.
Qed.

Lemma m_one_space ic ml c its p (x : Z) (s : jsstring) pos :
  is_space x = true -> 33 <= c <= 126 ->
  m_items ic ml (One (CChar c) :: its) p (x :: s) pos = None.
Proof.
  intros Hx Hc. cbn [m_items]. unfold m_one. cbn [cs_mem]. by rewrite space_not_graphic.
Qed.

Lemma trim_start_black (s : jsstring) : starts_black s = true -> trim_start s = s.
Proof.
  destruct s as [|x s]; [done|]. cbn [starts_black trim_start].
  by intros ->%negb_true_iff.
Qed.

(** The pattern of step 2 from its second word on. *)
Lemma directive_tail (u ws2 : jsstring) (t : Z) (rest : jsstring) p pos :
  folds_to u (lit "true") = true ->
  forallb is_space ws2 = true -> is_line_terminator t = true -> starts_black rest = true ->
  m_items true true (str "true" ++ [star CSpace; Eol]) p (u ++ ws2 ++ t :: rest) pos
  = Some ((pos + length u + length ws2 + match rest with [] => 1 | _ => 0 end)%nat, []).
Proof.
  intros Hu Hws2 Ht Hrest. unfold str.
  rewrite m_items_word; [|done|by apply m_items_prev_free].
  unfold star. rewrite m_items_greedy. by apply trailing_space_match.
Qed.

(** The pattern of step 2 on a directive that opens the text. *)
Lemma directive_match (ws0 m ws1 u ws2 : jsstring) (t : Z) (rest : jsstring) :
  forallb is_space ws0 = true -> folds_to m (lit "marp:") = true ->
  forallb is_space ws1 = true -> folds_to u (lit "true") = true ->
  forallb is_space ws2 = true -> is_line_terminator t = true -> starts_black rest = true ->
  m_items true true (re_items re_marp) None (ws0 ++ m ++ ws1 ++ u ++ ws2 ++ t :: rest) 0%nat
  = Some ((length ws0 + length m + length ws1 + length u + length ws2
           + match rest with [] => 1 | _ => 0 end)%nat, []).
Proof.
  intros Hws0 Hm Hws1 Hu Hws2 Ht Hrest.
  change (re_items re_marp)
    with (Bol :: star CSpace
          :: (str "marp:" ++ star CSpace :: (str "true" ++ [star CSpace; Eol]))).
  rewrite m_items_bol. cbn [at_bol]. unfold star at 1. rewrite m_items_greedy.
  apply rep_greedy_run; [by apply m_items_prev_free|done|lia|done| |].
  - pose proof (folds_to_black m _ _ Hm ltac:(by vm_compute)) as Hb.
    rewrite app_nil_r in Hb. destruct m as [|x m]; [done|]. exact Hb.
  - unfold str at 1. rewrite m_items_word; [|done|by apply m_items_prev_free].
    unfold star at 1. rewrite m_items_greedy.
    apply rep_greedy_run; [by apply m_items_prev_free|done|lia|done| |].
    + pose proof (folds_to_black u _ _ Hu ltac:(by vm_compute)) as Hb.
      rewrite app_nil_r in Hb. destruct u as [|x u]; [done|]. exact Hb.
    + by rewrite (directive_tail u ws2 t rest None _ Hu Hws2 Ht Hrest).
Qed.

(** The text replaced at a match that is not empty, and where the
    replacement goes on. *)
Lemma replace_from_at re r (whole : jsstring) p (s : jsstring) pos e ms :
  m_items (re_i re) (re_m re) (re_items re) p s pos = Some (e, ms) ->
  (pos < e)%nat ->
  exists p', replace_from re r whole p s pos 0
             = expand r whole pos e ms
               ++ replace_from re r whole p' (drop (e - pos) s) e 0.
Proof.
  intros Hm Hlt. pose proof (m_items_bounded _ _ _ _ _ _ _ _ Hm) as Hb.
  destruct s as [|x s]; [cbn [length] in Hb; lia|].
  cbn [replace_from]. rewrite Hm.
  assert (Nat.eqb e pos = false) as -> by (apply Nat.eqb_neq; lia).
  cbn [length] in Hb.
  destruct (replace_from_skip re r whole (Some x) (take (e - pos - 1) s)
              (drop (e - pos - 1) s) (S pos)) as (p' & E).
  rewrite take_drop, length_take in E.
  rewrite Nat.min_l in E by lia.
  exists p'. rewrite E. do 2 f_equal.
  - assert (e - pos <> 0)%nat as Hn by lia.
    destruct (e - pos)%nat as [|n]; [done|]. by replace (S n - 1)%nat with n by lia.
  - lia.
Qed.

(** What follows a directive line holds no directive and no heading with
    repeated number signs if the rest of the text holds none. *)
Lemma directive_unmatched_after (t : Z) (rest : jsstring) p pos :
  is_line_terminator t = true -> starts_black rest = true ->
  test re_marp rest = false ->
  search true true (re_items re_marp) p (t :: rest) pos = None.
Proof.
  intros Ht Hrest Hnone. pose proof (line_terminator_space t Ht) as Hts.
  change (re_items re_marp)
    with (Bol :: star CSpace
          :: (One (CChar (chr "m"))
              :: tail (str "marp:" ++ star CSpace :: (str "true" ++ [star CSpace; Eol])))).
  set (K := One (CChar (chr "m")) :: _).
  assert (Stable (m_items true true (star CSpace :: K))) as Hst
    by by apply m_items_stable_bol_free.
  assert (Stable (m_items true true K)) as HstK by by apply m_items_stable_bol_free.
  unfold test, exec in Hnone.
  change (re_items re_marp) with (Bol :: star CSpace :: K) in Hnone.
  change (re_i re_marp) with true in Hnone. change (re_m re_marp) with true in Hnone.
  destruct (search true true (Bol :: star CSpace :: K) None rest 0) eqn:Hs; [done|].
  clear Hnone. apply search_bol_none; [done|]. cbn [search].
  rewrite (search_bol_none true true _ (Some t) rest 1 Hst Hs).
  rewrite m_items_bol. cbn [at_bol]. unfold star at 1. rewrite m_items_greedy.
  cbn [rep_greedy cs_mem can_take Nat.eqb Nat.pred dec option_map]. rewrite Hts. cbn [andb].
  subst K.
  rewrite (m_one_space true true (chr "m") _ None t rest 0 Hts ltac:(by vm_compute)).
  set (K := One (CChar (chr "m")) :: _) in *.
  destruct rest as [|y rest]; [done|].
  cbn [starts_black] in Hrest. apply negb_true_iff in Hrest.
  cbn [rep_greedy cs_mem Nat.eqb]. rewrite Hrest. cbn [andb].
  cbn [search] in Hs. rewrite m_items_bol in Hs. cbn [at_bol] in Hs.
  unfold star at 1 in Hs. rewrite m_items_greedy in Hs.
  cbn [rep_greedy cs_mem Nat.eqb] in Hs. rewrite Hrest in Hs. cbn [andb] in Hs.
  specialize (HstK (Some t) None (y :: rest) 1%nat 0%nat).
  destruct (m_items true true K None (y :: rest) 0%nat) as [[]|]; [done|].
  by destruct (m_items true true K (Some t) (y :: rest) 1%nat) as [[]|].
Qed.

Lemma heading_unmatched_after (t : Z) (rest : jsstring) :
  is_space t = true -> test re_heading rest = false -> test re_heading (t :: rest) = false.
Proof.
  intros Hts Hnone. unfold test, exec in *.
  change (re_items re_heading)
    with (Bol :: Mark :: Rep (CChar 35) 1 (Some 6%nat) true :: drop 3 (re_items re_heading))
    in *.
  change (re_i re_heading) with false in *. change (re_m re_heading) with true in *.
  set (K := Mark :: _) in *.
  assert (Stable (m_items false true K)) as Hst by by apply m_items_stable.
  destruct (search false true (Bol :: K) None rest 0) eqn:Hs; [done|].
  cbn [search]. rewrite (search_bol_none false true _ (Some t) rest 1 Hst Hs).
  rewrite m_items_bol. cbn [at_bol]. subst K. rewrite m_items_mark, m_items_greedy.
  unfold m_mark. cbn [rep_greedy cs_mem Nat.eqb].
  by rewrite (space_not_graphic false t 35 Hts ltac:(lia)).
Qed.

(** X16: a directive line at the start of the text. When the text opens
    with optional white space, the word [marp:] in any case, optional
    white space, the word [true] in any case and white space that ends
    with a line end, and what follows holds no further directive, no
    heading with repeated number signs and no front-matter block,
    [preprocessMarkdown] returns what follows the line. *)
Theorem preprocessMarkdown_directive (ws0 m ws1 u ws2 : jsstring) (t : Z)
    (rest : jsstring) :
  forallb is_space ws0 = true -> folds_to m (lit "marp:") = true ->
  forallb is_space ws1 = true -> folds_to u (lit "true") = true ->
  forallb is_space ws2 = true -> is_line_terminator t = true ->
  starts_black rest = true ->
  test re_marp rest = false -> test re_heading rest = false ->
  let md := ws0 ++ m ++ ws1 ++ u ++ ws2 ++ t :: rest in
  test re_front_matter md = false ->
  preprocessMarkdown md = rest.
Proof.
  intros Hws0 Hm Hws1 Hu Hws2 Ht Hrest Hnm Hnh md Hfm.
  pose proof (line_terminator_space t Ht) as Hts.
  unfold preprocessMarkdown. rewrite (replace_unmatched re_front_matter) by done.
  assert (replace re_marp (RString []) md = match rest with [] => [] | _ => t :: rest end)
    as ->.
  { unfold replace, replace_all. change (re_g re_marp) with true. cbv iota.
    pose proof (directive_match ws0 m ws1 u ws2 t rest Hws0 Hm Hws1 Hu Hws2 Ht Hrest) as E.
    fold md in E.
    set (e := (length ws0 + length m + length ws1 + length u + length ws2
               + match rest with [] => 1 | _ => 0 end)%nat) in E.
    assert (0 < e)%nat as He.
    { destruct m as [|x m]; [done|]. subst e. cbn [length]. lia. }
    destruct (replace_from_at re_marp (RString []) md None md 0 e [] E He) as (p' & ->).
    cbn [expand map concat app]. rewrite Nat.sub_0_r.
    assert (drop e md = match rest with [] => [] | _ => t :: rest end) as ->.
    { subst md e.
      replace (ws0 ++ m ++ ws1 ++ u ++ ws2 ++ t :: rest)
        with ((ws0 ++ m ++ ws1 ++ u ++ ws2) ++ t :: rest) by by rewrite <- !app_assoc.
      destruct rest as [|y rest].
      - rewrite drop_ge; [done|]. rewrite !length_app. cbn [length]. lia.
      - rewrite Nat.add_0_r. rewrite drop_app_length'; [done|].
        rewrite !length_app. lia. }
    destruct rest as [|y rest].
    - cbn [replace_from]. by destruct (m_items _ _ _ p' [] e) as [[]|].
    - apply replace_from_none. by apply directive_unmatched_after. }
  assert (replace re_heading (RString [PGroup1; PLit (lit " ")])
            match rest with [] => [] | _ => t :: rest end
          = match rest with [] => [] | _ => t :: rest end) as ->.
  { destruct rest as [|y rest]; [done|].
    apply replace_unmatched. by apply heading_unmatched_after. }
  rewrite replace_leading_space. destruct rest as [|y rest]; [done|].
  change (trim_start (t :: y :: rest))
    with (if is_space t then trim_start (y :: rest) else t :: y :: rest).
  rewrite Hts. by apply trim_start_black.
Qed.

(** X16 at a sample: the directive in capitals with spaces around it. *)
Lemma preprocessMarkdown_directive_witness :
  preprocessMarkdown (lit " Marp:  TRUE " ++ [nl] ++ lit "# Title") = lit "# Title".
Proof.
  apply (preprocessMarkdown_directive (lit " ") (lit "Marp:") (lit "  ") (lit "TRUE")
           (lit " ") nl (lit "# Title")); vm_compute; reflexivity.
Defined.

(** * The exit code *)

Section ExitCode.
Variable detect : bytes -> label.
Variable convert : bytes -> string -> jsstring.
Variable resolve : jsstring -> jsstring -> string.
Variable marked : jsstring -> jsstring.
Variable convertToHtml : bytes -> gmap string optval -> option mammoth_result.
Variable puppeteer : Puppeteer.
Variable parse : jsstring -> parsed.
Variable dataDir : jsstring.

Local Abbreviation script_ :=
  (script detect convert resolve marked convertToHtml puppeteer parse dataDir).

(** When [htmlToPdf] resolves, the PDF is there. *)
Lemma htmlToPdf_returned (m : Machine) (baseName inputDir outputDir : jsstring) :
  let ran := htmlToPdf detect convert resolve puppeteer m baseName inputDir outputDir in
  ran.1 = Returned tt ->
  exists data, files (world ran.2) !! resolve outputDir (baseName ++ lit ".pdf") = Some data.
Proof.
  cbv zeta.
  destruct (files (world m) !! resolve inputDir (baseName ++ lit ".html")) as [bs|] eqn:Hf.
  - rewrite (htmlToPdf_existing detect convert resolve puppeteer m baseName inputDir
               outputDir bs Hf). cbv zeta.
    destruct (launch puppeteer); cbn [negb fst snd]; [|done].
    destruct (close puppeteer); [|done]. intros Hr.
    edestruct print_page_trace as (evs & _ & _ & _ & Hd).
    destruct (Hd Hr) as (data & _ & _ & Hw). exists data. exact Hw.
  - by rewrite htmlToPdf_missing.
Qed.

(** X17: the exit code 0 is earned. If the script exits with 0, its
    argument selected a converter, the converter resolved, the last line
    printed is the one that reports success, and the file that the
    converter writes ([.html] for Markdown and Word, [.pdf] for HTML)
    exists in the data directory. *)
Theorem exit_0_means_output_written (arg : option jsstring) (m : Machine) :
  (script_ arg m).1 = 0 ->
  exists c baseName data,
    run parse arg = Convert c baseName /\
    hd_error (trace (script_ arg m).2) = Some (SayDone c) /\
    files (world (script_ arg m).2) !! resolve dataDir (baseName ++ output_ext c)
    = Some data.
Proof.
  unfold script, run. destruct arg as [[|x a]|]; [done| |done].
  unfold main, ext_of.
  set (baseName := p_name (parse (x :: a))).
  set (ext := toLowerCase (p_ext (parse (x :: a)))).
  set (m0 := emit (SayDataDir dataDir) _). clearbody m0.
  unfold convert_with.
  destruct (jsstring_eqb ext (lit ".md")).
  { unfold mdToHtml. cbn [emit world].
    destruct (files (world m0) !! _) as [buffer|]; [|done]. intros _.
    eexists MdToHtml, baseName, _. split_and!; [done|done|].
    cbn [snd emit on_world world writeFile files output_ext]. apply lookup_insert_eq. }
  destruct (jsstring_eqb ext (lit ".docx")).
  { unfold wordToHtml. cbn [emit world].
    destruct (files (world m0) !! _) as [docx|]; [|done].
    destruct (convertToHtml docx _) as [result|]; [|done]. intros _.
    eexists WordToHtml, baseName, _. split_and!; [done|done|].
    cbn [snd emit world]. rewrite warn_messages_world.
    cbn [on_world world writeFile files output_ext]. apply lookup_insert_eq. }
  destruct (jsstring_eqb ext (lit ".html") || jsstring_eqb ext (lit ".htm")); [|done].
  pose proof (htmlToPdf_returned (emit (SayBanner HtmlToPdf baseName) m0) baseName
                dataDir dataDir) as Hr. cbv zeta in Hr.
  destruct (htmlToPdf _ _ _ _ _ baseName dataDir dataDir) as [[[]|err] m2]; [|done].
  intros _. destruct (Hr eq_refl) as (data & Hd).
  by exists HtmlToPdf, baseName, data.
Qed.
End ExitCode.

(** X17 at a sample: the note is converted and the page is there. *)
Lemma exit_0_means_output_written_witness :
  let ran := script (always None) bytewise join paragraph no_mammoth working_browser
               split_ext (lit "data") (Some (lit "note.md"))
               (fresh {[ "data/note.md"%string := note_md ]}) in
  exists c baseName data,
    run split_ext (Some (lit "note.md")) = Convert c baseName /\
    hd_error (trace ran.2) = Some (SayDone c) /\
    files (world ran.2) !! join (lit "data") (baseName ++ output_ext c) = Some data.
Proof.
  apply (exit_0_means_output_written (always None) bytewise join paragraph no_mammoth
           working_browser split_ext (lit "data") (Some (lit "note.md"))
           (fresh {[ "data/note.md"%string := note_md ]})).
  vm_compute. reflexivity.
Defined.

(** * The page after [htmlToPdf] *)

Section InPlace.
Variable detect : bytes -> label.
Variable convert : bytes -> string -> jsstring.
Variable resolve : jsstring -> jsstring -> string.
Variable puppeteer : Puppeteer.

(** X18: [htmlToPdf] normalises its input in place whether or not the
    print succeeds. Whatever the browser does, after the call the
    [.html] file holds the bytes it had when the normaliser found
    nothing to fix, and the UTF-8 encoding of the repaired text when it
    did; read as UTF-8 it passes the four tests. *)
Theorem htmlToPdf_normalises_in_place (m : Machine) (baseName inputDir outputDir : jsstring)
    (bs : bytes) :
  let htmlPath := resolve inputDir (baseName ++ lit ".html") in
  let pdfPath := resolve outputDir (baseName ++ lit ".pdf") in
  files (world m) !! htmlPath = Some bs ->
  htmlPath <> pdfPath ->
  let n := normalize detect convert None bs in
  let stored := if needFix n then utf8_encode (content n) else bs in
  let ran := htmlToPdf detect convert resolve puppeteer m baseName inputDir outputDir in
  files (world ran.2) !! htmlPath = Some stored /\
  compliant (utf8_decode stored) = true.
Proof.
  intros htmlPath pdfPath Hf Hne n stored ran. split.
  - subst ran.
    rewrite (htmlToPdf_existing detect convert resolve puppeteer m baseName inputDir
               outputDir bs Hf). cbv zeta. fold htmlPath pdfPath.
    pose proof (stored_after detect convert (world m) htmlPath None bs Hf) as Hs.
    cbv zeta in Hs.
    destruct (launch puppeteer); cbn [negb snd emit on_world world]; [|exact Hs].
    rewrite print_page_frame by done. exact Hs.
  - by apply (stored_compliant detect convert (world m) htmlPath None bs).
Qed.
End InPlace.

(** X18 at a sample: a page without markup and a browser that cannot be
    launched; the page is rewritten all the same. *)
Lemma htmlToPdf_normalises_in_place_witness :
  let detect := always (Some "UTF8"%string) in
  let broken := {| launch := false; newPage := true; setContent := fun _ => true;
                   pdf := fun _ => None; close := true |} in
  let n := normalize detect bytewise None bare_text in
  let stored := if needFix n then utf8_encode (content n) else bare_text in
  let ran := htmlToPdf detect bytewise join broken
               (fresh {[ "data/page.html"%string := bare_text ]})
               (lit "page") (lit "data") (lit "data") in
  files (world ran.2) !! join (lit "data") (lit "page" ++ lit ".html") = Some stored /\
  compliant (utf8_decode stored) = true.
Proof.
  apply (htmlToPdf_normalises_in_place (always (Some "UTF8"%string)) bytewise join
           {| launch := false; newPage := true; setContent := fun _ => true;
              pdf := fun _ => None; close := true |}
           (fresh {[ "data/page.html"%string := bare_text ]})
           (lit "page") (lit "data") (lit "data") bare_text).
  - vm_compute. reflexivity.
  - intros H. vm_compute in H. discriminate H.
Defined.

(** That run rejects, and the file is no longer what it was. *)
Example failed_print_rewrites_the_page :
  let broken := {| launch := false; newPage := true; setContent := fun _ => true;
                   pdf := fun _ => None; close := true |} in
  let ran := htmlToPdf (always (Some "UTF8"%string)) bytewise join broken
               (fresh {[ "data/page.html"%string := bare_text ]})
               (lit "page") (lit "data") (lit "data") in
  ran.1 = Threw (LibraryError PuppeteerLib) /\
  files (world ran.2) !! "data/page.html"%string
  = Some (utf8_encode (head_block ++ [0x3042] ++ [nl] ++ lit "</body>" ++ [nl] ++ lit "</html>")).
Proof. split; vm_compute; reflexivity. Qed.
